(** * payload-dumper: the streaming ZIP reader of [fix_zipfile.py]

    A shallow embedding of [src/payload_dumper/fix_zipfile.py] and the
    properties of it that the specification states.

    Python integers are unbounded, so they are [Z]; [bytes] objects are
    lists of [byte]; [str] objects are lists of code points.  Methods
    that mutate [self] or the underlying stream are computations in a
    state-and-exception monad whose state survives a raised exception,
    as the attributes of a Python object do. *)

From stdpp Require Import gmap list sorting.
From Stdlib Require Import ZArith Lia.
From Stdlib.Strings Require Import Byte.

Open Scope Z_scope.

(** ** Python values *)

Abbreviation bytes := (list byte).
Abbreviation str := (list N).

Definition len {A} (l : list A) : Z := Z.of_nat (length l).

(** [norm_index n i] is where Python puts the slice bound [i] in a
    sequence of length [n]: negative bounds count from the end, and
    every bound is clamped to the sequence. *)
Definition norm_index (n i : Z) : Z :=
  if i <? 0 then Z.max 0 (i + n) else Z.min i n.

(** [l[lo:hi]] *)
Definition slice {A} (lo hi : Z) (l : list A) : list A :=
  let a := norm_index (len l) lo in
  let b := norm_index (len l) hi in
  take (Z.to_nat (b - a)) (drop (Z.to_nat a) l).

(** [l[lo:]] *)
Definition slice_from {A} (lo : Z) (l : list A) : list A :=
  drop (Z.to_nat (norm_index (len l) lo)) l.

(** [l[:hi]] *)
Definition slice_to {A} (hi : Z) (l : list A) : list A :=
  take (Z.to_nat (norm_index (len l) hi)) l.

Definition byte_val (b : byte) : Z := Z.of_N (Byte.to_N b).

(** [struct.unpack] of one little-endian unsigned field. *)
Fixpoint le_uint (bs : bytes) : Z :=
  match bs with
  | [] => 0
  | b :: bs' => byte_val b + 256 * le_uint bs'
  end.

#[global] Instance byte_eq_dec : EqDecision byte := Byte.byte_eq_dec.

(** ** Exceptions *)

Inductive zip64_field := File_size | Compress_size | Header_offset.

(** The messages of [BadZipFile]. *)
Inductive bad_zip :=
| Multiple_disks
| Not_a_zip_file
| Bad_offset_for_central_directory
| Truncated_central_directory
| Bad_magic_for_central_directory
| Corrupt_extra_field (tp ln : Z)
| Corrupt_zip64_extra_field (field : zip64_field)
| Corrupt_unicode_path
| Corrupt_unicode_path_invalid_utf8
| Truncated_file_header
| Bad_magic_for_file_header
| File_name_differs
| Overlapped_entries
| No_message
| Bad_CRC32.

Inductive not_implemented :=
| Patched_data
| Strong_encryption
| Zip_file_version (v : Z).

Inductive value_error :=
| Read_from_closed_file
| Seek_on_closed_file
| Tell_on_closed_file
| Bad_whence.

(** [Diverged] is not a Python exception: the loops of the source are
    embedded as recursions on a counter, and [Diverged] is what such a
    recursion answers when the counter runs out.  The [_terminates]
    lemmas below show that the counters the methods start from are large
    enough, so that no method ever answers [Diverged]. *)
Inductive exn :=
| Diverged
| EOFError
| OSError
| UnsupportedOperation
| ValueError (m : value_error)
| AttributeError
| KeyError
| AssertionError
| UnicodeDecodeError
| NotImplementedError (m : not_implemented)
| BadZipFile (m : bad_zip).

#[global] Instance zip64_field_eq_dec : EqDecision zip64_field.
Proof. solve_decision. Defined.
#[global] Instance bad_zip_eq_dec : EqDecision bad_zip.
Proof. solve_decision. Defined.
#[global] Instance not_implemented_eq_dec : EqDecision not_implemented.
Proof. solve_decision. Defined.
#[global] Instance value_error_eq_dec : EqDecision value_error.
Proof. solve_decision. Defined.
#[global] Instance exn_eq_dec : EqDecision exn.
Proof. solve_decision. Defined.

(** [io.UnsupportedOperation] derives from [OSError], so an
    [except OSError] clause catches both. *)
Definition is_OSError (e : exn) : bool :=
  match e with
  | OSError | UnsupportedOperation => true
  | _ => false
  end.

(** ** State and exceptions *)

Inductive outcome (S A : Type) : Type :=
| Return (a : A) (s : S)
| Raise (e : exn) (s : S).
Arguments Return {S A} a s.
Arguments Raise {S A} e s.

Definition M (S A : Type) : Type := S → outcome S A.

#[global] Instance M_ret {S} : MRet (M S) := λ A a s, Return a s.
#[global] Instance M_bind {S} : MBind (M S) := λ A B f m s,
  match m s with
  | Return a s' => f a s'
  | Raise e s' => Raise e s'
  end.

#[global] Instance M_fmap {S} : FMap (M S) := λ A B f m s,
  match m s with
  | Return a s' => Return (f a) s'
  | Raise e s' => Raise e s'
  end.

Definition raise {S A} (e : exn) : M S A := λ s, Raise e s.
Definition get {S} : M S S := λ s, Return s s.
Definition modify {S} (f : S → S) : M S unit := λ s, Return () (f s).

(** [try: m  except <those e with catches e>: h] *)
Definition try_except {S A} (m : M S A) (catches : exn → bool)
    (h : exn → M S A) : M S A := λ s,
  match m s with
  | Return a s' => Return a s'
  | Raise e s' => if catches e then h e s' else Raise e s'
  end.

(** Run a computation on one component of the state. *)
Definition zoom {S T A} (view : S → T) (update : T → S → S)
    (m : M T A) : M S A := λ s,
  match m (view s) with
  | Return a t => Return a (update t s)
  | Raise e t => Raise e (update t s)
  end.

Definition state_of {S A} (o : outcome S A) : S :=
  match o with Return _ s | Raise _ s => s end.

Definition raised {S A} (o : outcome S A) : option exn :=
  match o with Return _ _ => None | Raise e _ => Some e end.

(** ** The underlying stream

    The archive reads from a binary file object it is handed: a local
    file opened for reading.  Its contents never change; it has a
    position; [seek] to before the start fails with [OSError], which is
    what the [except OSError] clauses of the source expect.

    The methods are those of an open file.  The source never closes the
    stream, so [is_closed] stays as the caller left it, and [read],
    [seek] and [tell] do not consult it: on a stream that the caller
    has closed Python raises [ValueError] from each of them, and a
    statement about every stream that [ZipFile] may be handed assumes
    [is_closed f = false]. *)

Record BinaryFile := mkBinaryFile {
  content : bytes;
  position : Z;
  can_seek : bool;
  is_closed : bool
}.

Module BinaryFile.

Definition set_position (p : Z) (f : BinaryFile) : BinaryFile :=
  {| content := content f; position := p;
     can_seek := can_seek f; is_closed := is_closed f |}.

(** [f.read(n)]: up to [n] bytes from the position, all the rest when
    [n] is negative. *)
Definition read (n : Z) : M BinaryFile bytes := λ f,
  let rest := slice_from (position f) (content f) in
  let data := if n <? 0 then rest else slice_to n rest in
  Return data (set_position (position f + len data) f).

Definition tell : M BinaryFile Z := λ f, Return (position f) f.

(** [f.seek(offset, whence)] *)
Definition seek (offset whence : Z) : M BinaryFile Z := λ f,
  if negb (can_seek f) then Raise UnsupportedOperation f else
  let target :=
    if whence =? 0 then Some offset
    else if whence =? 1 then Some (position f + offset)
    else if whence =? 2 then Some (len (content f) + offset)
    else None in
  match target with
  | None => Raise (ValueError Bad_whence) f
  | Some p => if p <? 0 then Raise OSError f
              else Return p (set_position p f)
  end.

Definition seekable : M BinaryFile bool := λ f, Return (can_seek f) f.

End BinaryFile.

(** ** What the interpreter and its libraries provide

    [zlib.crc32], the two codecs and [os.sep]/[os.altsep] are not part of
    the repository; the development is parametric in them. *)

Class Platform := {
  crc32 : bytes → Z → Z;
  decode_utf8 : bytes → option str;
  decode_cp437 : bytes → str;
  os_sep : N;
  os_altsep : option N
}.

(** ** Record layouts *)

Definition sizeCentralDir : Z := 46.
Definition stringCentralDir : bytes := [x50; x4b; x01; x02].
Definition sizeFileHeader : Z := 30.
Definition stringFileHeader : bytes := [x50; x4b; x03; x04].
Definition sizeEndCentDir : Z := 22.
Definition stringEndArchive : bytes := [x50; x4b; x05; x06].
Definition sizeEndCentDir64 : Z := 56.
Definition stringEndArchive64 : bytes := [x50; x4b; x06; x06].
Definition sizeEndCentDir64Locator : Z := 20.
Definition stringEndArchive64Locator : bytes := [x50; x4b; x06; x07].

(** The field of [n] bytes at offset [lo] of a packed record. *)
Definition field (lo n : Z) (data : bytes) : Z :=
  le_uint (slice lo (lo + n) data).

(** ** [_sanitize_filename] *)

Definition slash : N := 47%N.

(** [s.find(c)] for a one-character [c]: the first index, or [-1]. *)
Fixpoint find (c : N) (s : str) : Z :=
  match s with
  | [] => -1
  | d :: s' => if bool_decide (d = c) then 0
               else let i := find c s' in if i <? 0 then -1 else i + 1
  end.

Definition contains (c : N) (s : str) : bool := bool_decide (c ∈ s).

Definition replace (c d : N) (s : str) : str :=
  (λ e, if bool_decide (e = c) then d else e) <$> s.

Definition _sanitize_filename `{Platform} (filename : str) : str :=
  let null_byte := find 0%N filename in
  let filename :=
    if null_byte >=? 0 then slice 0 null_byte filename else filename in
  let filename :=
    if bool_decide (os_sep ≠ slash) && contains os_sep filename
    then replace os_sep slash filename else filename in
  match os_altsep with
  | Some altsep =>
      if bool_decide (altsep ≠ slash) && contains altsep filename
      then replace altsep slash filename else filename
  | None => filename
  end.

(** ** The end-of-central-directory record

    [endrec] is the list [_EndRecData] builds: the eight unpacked fields
    of the record, then the comment and the offset of the record. *)

Record EndRec := mkEndRec {
  endrec0 : bytes;   (* signature *)
  endrec1 : Z;       (* number of this disk *)
  endrec2 : Z;       (* disk holding the central directory *)
  endrec3 : Z;       (* entries on this disk *)
  endrec4 : Z;       (* entries in total *)
  endrec5 : Z;       (* size of the central directory *)
  endrec6 : Z;       (* offset of the central directory *)
  endrec7 : Z;       (* length of the comment *)
  endrec8 : bytes;   (* comment *)
  endrec9 : Z        (* offset of this record in the file *)
}.

(** [endrec[0] = sig; ...; endrec[6] = diroffset] *)
Definition overwrite_endrec (sig : bytes)
    (disk_num disk_dir dircount dircount2 dirsize diroffset : Z)
    (endrec : EndRec) : EndRec :=
  {| endrec0 := sig; endrec1 := disk_num; endrec2 := disk_dir;
     endrec3 := dircount; endrec4 := dircount2; endrec5 := dirsize;
     endrec6 := diroffset; endrec7 := endrec7 endrec;
     endrec8 := endrec8 endrec; endrec9 := endrec9 endrec |}.

Definition _EndRecData64 (offset : Z) (endrec : EndRec)
    : M BinaryFile EndRec :=
  sought ← try_except
    (BinaryFile.seek (offset - sizeEndCentDir64Locator) 2;; mret true)
    is_OSError (λ _, mret false);
  if negb sought then mret endrec else
  data ← BinaryFile.read sizeEndCentDir64Locator;
  if bool_decide (len data ≠ sizeEndCentDir64Locator) then mret endrec else
  let sig := slice 0 4 data in
  let diskno := field 4 4 data in
  let disks := field 16 4 data in
  if bool_decide (sig ≠ stringEndArchive64Locator) then mret endrec else
  if bool_decide (diskno ≠ 0) || (disks >? 1)
  then raise (BadZipFile Multiple_disks) else
  BinaryFile.seek
    (offset - sizeEndCentDir64Locator - sizeEndCentDir64) 2;;
  data ← BinaryFile.read sizeEndCentDir64;
  if bool_decide (len data ≠ sizeEndCentDir64) then mret endrec else
  let sig := slice 0 4 data in
  let disk_num := field 16 4 data in
  let disk_dir := field 20 4 data in
  let dircount := field 24 8 data in
  let dircount2 := field 32 8 data in
  let dirsize := field 40 8 data in
  let diroffset := field 48 8 data in
  if bool_decide (sig ≠ stringEndArchive64) then mret endrec else
  mret (overwrite_endrec sig disk_num disk_dir dircount dircount2
          dirsize diroffset endrec).

(** ** [_SharedFile]

    Every handle of an archive refers to the one stream the archive was
    given; [the_stream] stands for that reference, and the stream itself
    is the [BinaryFile] component of the state, shared by all handles.
    The model is sequential, so [with self._lock:] is the atomic step
    that each method is. *)

Inductive fileref := the_stream.

Record _SharedFile := mk_SharedFile {
  _file : option fileref;
  _pos : Z
}.

Module _SharedFile.

Definition set__pos (p : Z) (h : _SharedFile) : _SharedFile :=
  {| _file := _file h; _pos := p |}.
Definition set__file (f : option fileref) (h : _SharedFile) : _SharedFile :=
  {| _file := f; _pos := _pos h |}.

Definition self : M (BinaryFile * _SharedFile) _SharedFile :=
  λ w, Return w.2 w.
Definition update (f : _SharedFile → _SharedFile)
    : M (BinaryFile * _SharedFile) unit :=
  modify (λ w, (w.1, f w.2)).

(** A method call on [self._file]; on [None] it is an
    [AttributeError]. *)
Definition on_file {A} (m : M BinaryFile A)
    : M (BinaryFile * _SharedFile) A :=
  h ← self;
  match _file h with
  | None => raise AttributeError
  | Some the_stream => zoom fst (λ f w, (f, w.2)) m
  end.

(** [_SharedFile(file, pos, close, lock)]; [file.seekable] is looked up
    at once, which fails on [None]. *)
Definition __init__ {S} (file : option fileref) (pos : Z)
    : M S _SharedFile :=
  match file with
  | None => raise AttributeError
  | Some f => mret {| _file := Some f; _pos := pos |}
  end.

Definition tell : M (BinaryFile * _SharedFile) Z :=
  h ← self; mret (_pos h).

Definition read (n : Z) : M (BinaryFile * _SharedFile) bytes :=
  h ← self;
  on_file (BinaryFile.seek (_pos h) 0);;
  data ← on_file (BinaryFile.read n);
  p ← on_file BinaryFile.tell;
  update (set__pos p);;
  mret data.

Definition seek (offset whence : Z) : M (BinaryFile * _SharedFile) Z :=
  on_file (BinaryFile.seek offset whence);;
  p ← on_file BinaryFile.tell;
  update (set__pos p);;
  h ← self; mret (_pos h).

Definition seekable : M (BinaryFile * _SharedFile) bool :=
  zoom fst (λ f w, (f, w.2)) BinaryFile.seekable.

(** [close] hands the stream to the callback the handle was built with
    ([ZipFile._fpclose]), once. *)
Definition close {S} (_close : option fileref → M S unit)
    : M (S * _SharedFile) unit :=
  h ← (λ w, Return w.2 w);
  match _file h with
  | Some fileobj =>
      modify (λ w, (w.1, set__file None w.2));;
      zoom fst (λ s w, (s, w.2)) (_close (Some fileobj))
  | None => mret ()
  end.

End _SharedFile.

(** ** [ZipInfo] *)

Record ZipInfo := mkZipInfo {
  orig_filename : str;
  filename : str;
  comment : bytes;
  extra : bytes;
  extract_version : Z;
  flag_bits : Z;
  CRC : option Z;            (* [None]: the attribute was never set *)
  compress_size : Z;
  file_size : Z;
  header_offset : Z;
  _end_offset : option Z
}.

Module ZipInfo.

Definition set_filename (v : str) (x : ZipInfo) : ZipInfo :=
  {| orig_filename := orig_filename x; filename := v; comment := comment x;
     extra := extra x; extract_version := extract_version x;
     flag_bits := flag_bits x; CRC := CRC x;
     compress_size := compress_size x; file_size := file_size x;
     header_offset := header_offset x; _end_offset := _end_offset x |}.
Definition set_file_size (v : Z) (x : ZipInfo) : ZipInfo :=
  {| orig_filename := orig_filename x; filename := filename x;
     comment := comment x; extra := extra x;
     extract_version := extract_version x; flag_bits := flag_bits x;
     CRC := CRC x; compress_size := compress_size x; file_size := v;
     header_offset := header_offset x; _end_offset := _end_offset x |}.
Definition set_compress_size (v : Z) (x : ZipInfo) : ZipInfo :=
  {| orig_filename := orig_filename x; filename := filename x;
     comment := comment x; extra := extra x;
     extract_version := extract_version x; flag_bits := flag_bits x;
     CRC := CRC x; compress_size := v; file_size := file_size x;
     header_offset := header_offset x; _end_offset := _end_offset x |}.
Definition set_header_offset (v : Z) (x : ZipInfo) : ZipInfo :=
  {| orig_filename := orig_filename x; filename := filename x;
     comment := comment x; extra := extra x;
     extract_version := extract_version x; flag_bits := flag_bits x;
     CRC := CRC x; compress_size := compress_size x;
     file_size := file_size x; header_offset := v;
     _end_offset := _end_offset x |}.
Definition set__end_offset (v : option Z) (x : ZipInfo) : ZipInfo :=
  {| orig_filename := orig_filename x; filename := filename x;
     comment := comment x; extra := extra x;
     extract_version := extract_version x; flag_bits := flag_bits x;
     CRC := CRC x; compress_size := compress_size x;
     file_size := file_size x; header_offset := header_offset x;
     _end_offset := v |}.

Section methods.
Context `{Platform}.

(** [ZipInfo(filename)]; [header_offset] and [CRC] do not exist until
    the parser assigns them. *)
Definition __init__ (filename : str) : ZipInfo :=
  {| orig_filename := filename; filename := _sanitize_filename filename;
     comment := []; extra := []; extract_version := 20; flag_bits := 0;
     CRC := None; compress_size := 0; file_size := 0; header_offset := 0;
     _end_offset := None |}.

(** [unpack("<Q", b)] inside the [try] of the zip64 branch: a
    [struct.error] becomes the [BadZipFile] that names [field]. *)
Definition unpack_Q (field : zip64_field) (b : bytes) : M ZipInfo Z :=
  if len b =? 8 then mret (le_uint b)
  else raise (BadZipFile (Corrupt_zip64_extra_field field)).

(** The branch [if tp == 1] of [_decodeExtra]. *)
Definition decode_zip64 (data : bytes) : M ZipInfo unit :=
  self ← get;
  data ← (if bool_decide (file_size self = 0xFFFFFFFFFFFFFFFF)
             || bool_decide (file_size self = 0xFFFFFFFF)
          then v ← unpack_Q File_size (slice_to 8 data);
               modify (set_file_size v);;
               mret (slice_from 8 data)
          else mret data);
  self ← get;
  data ← (if bool_decide (compress_size self = 0xFFFFFFFF)
          then v ← unpack_Q Compress_size (slice_to 8 data);
               modify (set_compress_size v);;
               mret (slice_from 8 data)
          else mret data);
  self ← get;
  if bool_decide (header_offset self = 0xFFFFFFFF)
  then v ← unpack_Q Header_offset (slice_to 8 data);
       modify (set_header_offset v)
  else mret ().

(** The branch [elif tp == 0x7075] of [_decodeExtra]. *)
Definition decode_unicode_path (filename_crc : Z) (data : bytes)
    : M ZipInfo unit :=
  let head := slice_to 5 data in
  if bool_decide (len head ≠ 5)
  then raise (BadZipFile Corrupt_unicode_path) else
  let up_version := field 0 1 head in
  let up_name_crc := field 1 4 head in
  if bool_decide (up_version = 1) && bool_decide (up_name_crc = filename_crc)
  then
    match decode_utf8 (slice_from 5 data) with
    | None => raise (BadZipFile Corrupt_unicode_path_invalid_utf8)
    | Some up_unicode_name =>
        if bool_decide (up_unicode_name ≠ [])
        then modify (set_filename (_sanitize_filename up_unicode_name))
        else mret ()        (* [warnings.warn(...)] *)
    end
  else mret ().

(** The loop [while len(extra) >= 4] of [_decodeExtra]. *)
Fixpoint _decodeExtra_loop (fuel : nat) (filename_crc : Z) (extra : bytes)
    : M ZipInfo unit :=
  if len extra >=? 4 then
    match fuel with
    | O => raise Diverged
    | S fuel =>
        let tp := field 0 2 (slice_to 4 extra) in
        let ln := field 2 2 (slice_to 4 extra) in
        if ln + 4 >? len extra
        then raise (BadZipFile (Corrupt_extra_field tp ln)) else
        (if tp =? 1 then decode_zip64 (slice 4 (ln + 4) extra)
         else if tp =? 0x7075
         then decode_unicode_path filename_crc (slice 4 (ln + 4) extra)
         else mret ());;
        _decodeExtra_loop fuel filename_crc (slice_from (ln + 4) extra)
    end
  else mret ().

Definition _decodeExtra (filename_crc : Z) : M ZipInfo unit :=
  self ← get;
  _decodeExtra_loop (length (extra self)) filename_crc (extra self).

End methods.
End ZipInfo.

(** ** [ZipExtFile] *)

Record ZipExtFile := mkZipExtFile {
  _fileobj : _SharedFile;
  _compress_left : Z;
  _left : Z;
  _eof : bool;
  _readbuffer : bytes;
  _offset : Z;
  name : str;
  _expected_crc : option Z;
  _running_crc : Z;
  _seekable : bool;
  _orig_compress_start : Z;
  _orig_compress_size : Z;
  _orig_file_size : Z;
  _orig_start_crc : Z;
  _orig_crc : option Z;
  _decrypter : option (bytes → bytes);
  closed : bool
}.

Module ZipExtFile.

Definition MAX_N : Z := Z.shiftl 1 (31 - 1).
Definition MIN_READ_SIZE : Z := 4096.
Definition MAX_SEEK_READ : Z := Z.shiftl 1 24.

Definition set__fileobj (v : _SharedFile) (z : ZipExtFile) : ZipExtFile :=
  {| _fileobj := v; _compress_left := _compress_left z; _left := _left z;
     _eof := _eof z; _readbuffer := _readbuffer z; _offset := _offset z;
     name := name z; _expected_crc := _expected_crc z;
     _running_crc := _running_crc z; _seekable := _seekable z;
     _orig_compress_start := _orig_compress_start z;
     _orig_compress_size := _orig_compress_size z;
     _orig_file_size := _orig_file_size z;
     _orig_start_crc := _orig_start_crc z; _orig_crc := _orig_crc z;
     _decrypter := _decrypter z; closed := closed z |}.
Definition set__compress_left (v : Z) (z : ZipExtFile) : ZipExtFile :=
  {| _fileobj := _fileobj z; _compress_left := v; _left := _left z;
     _eof := _eof z; _readbuffer := _readbuffer z; _offset := _offset z;
     name := name z; _expected_crc := _expected_crc z;
     _running_crc := _running_crc z; _seekable := _seekable z;
     _orig_compress_start := _orig_compress_start z;
     _orig_compress_size := _orig_compress_size z;
     _orig_file_size := _orig_file_size z;
     _orig_start_crc := _orig_start_crc z; _orig_crc := _orig_crc z;
     _decrypter := _decrypter z; closed := closed z |}.
Definition set__left (v : Z) (z : ZipExtFile) : ZipExtFile :=
  {| _fileobj := _fileobj z; _compress_left := _compress_left z; _left := v;
     _eof := _eof z; _readbuffer := _readbuffer z; _offset := _offset z;
     name := name z; _expected_crc := _expected_crc z;
     _running_crc := _running_crc z; _seekable := _seekable z;
     _orig_compress_start := _orig_compress_start z;
     _orig_compress_size := _orig_compress_size z;
     _orig_file_size := _orig_file_size z;
     _orig_start_crc := _orig_start_crc z; _orig_crc := _orig_crc z;
     _decrypter := _decrypter z; closed := closed z |}.
Definition set__eof (v : bool) (z : ZipExtFile) : ZipExtFile :=
  {| _fileobj := _fileobj z; _compress_left := _compress_left z;
     _left := _left z; _eof := v; _readbuffer := _readbuffer z;
     _offset := _offset z; name := name z;
     _expected_crc := _expected_crc z; _running_crc := _running_crc z;
     _seekable := _seekable z;
     _orig_compress_start := _orig_compress_start z;
     _orig_compress_size := _orig_compress_size z;
     _orig_file_size := _orig_file_size z;
     _orig_start_crc := _orig_start_crc z; _orig_crc := _orig_crc z;
     _decrypter := _decrypter z; closed := closed z |}.
Definition set__readbuffer (v : bytes) (z : ZipExtFile) : ZipExtFile :=
  {| _fileobj := _fileobj z; _compress_left := _compress_left z;
     _left := _left z; _eof := _eof z; _readbuffer := v;
     _offset := _offset z; name := name z;
     _expected_crc := _expected_crc z; _running_crc := _running_crc z;
     _seekable := _seekable z;
     _orig_compress_start := _orig_compress_start z;
     _orig_compress_size := _orig_compress_size z;
     _orig_file_size := _orig_file_size z;
     _orig_start_crc := _orig_start_crc z; _orig_crc := _orig_crc z;
     _decrypter := _decrypter z; closed := closed z |}.
Definition set__offset (v : Z) (z : ZipExtFile) : ZipExtFile :=
  {| _fileobj := _fileobj z; _compress_left := _compress_left z;
     _left := _left z; _eof := _eof z; _readbuffer := _readbuffer z;
     _offset := v; name := name z; _expected_crc := _expected_crc z;
     _running_crc := _running_crc z; _seekable := _seekable z;
     _orig_compress_start := _orig_compress_start z;
     _orig_compress_size := _orig_compress_size z;
     _orig_file_size := _orig_file_size z;
     _orig_start_crc := _orig_start_crc z; _orig_crc := _orig_crc z;
     _decrypter := _decrypter z; closed := closed z |}.
Definition set__expected_crc (v : option Z) (z : ZipExtFile) : ZipExtFile :=
  {| _fileobj := _fileobj z; _compress_left := _compress_left z;
     _left := _left z; _eof := _eof z; _readbuffer := _readbuffer z;
     _offset := _offset z; name := name z; _expected_crc := v;
     _running_crc := _running_crc z; _seekable := _seekable z;
     _orig_compress_start := _orig_compress_start z;
     _orig_compress_size := _orig_compress_size z;
     _orig_file_size := _orig_file_size z;
     _orig_start_crc := _orig_start_crc z; _orig_crc := _orig_crc z;
     _decrypter := _decrypter z; closed := closed z |}.
Definition set__running_crc (v : Z) (z : ZipExtFile) : ZipExtFile :=
  {| _fileobj := _fileobj z; _compress_left := _compress_left z;
     _left := _left z; _eof := _eof z; _readbuffer := _readbuffer z;
     _offset := _offset z; name := name z;
     _expected_crc := _expected_crc z; _running_crc := v;
     _seekable := _seekable z;
     _orig_compress_start := _orig_compress_start z;
     _orig_compress_size := _orig_compress_size z;
     _orig_file_size := _orig_file_size z;
     _orig_start_crc := _orig_start_crc z; _orig_crc := _orig_crc z;
     _decrypter := _decrypter z; closed := closed z |}.

Definition self : M (BinaryFile * ZipExtFile) ZipExtFile :=
  λ w, Return w.2 w.
Definition update (f : ZipExtFile → ZipExtFile)
    : M (BinaryFile * ZipExtFile) unit :=
  modify (λ w, (w.1, f w.2)).

(** A method call on [self._fileobj]. *)
Definition on_fileobj {A} (m : M (BinaryFile * _SharedFile) A)
    : M (BinaryFile * ZipExtFile) A :=
  zoom (λ w, (w.1, _fileobj w.2)) (λ t w, (t.1, set__fileobj t.2 w.2)) m.

Section methods.
Context `{Platform}.

(** [ZipExtFile(fileobj, zipinfo)].  When [zipinfo] has no [CRC],
    [self._running_crc] is never assigned, reading it inside the [try]
    raises the [AttributeError] that the [except] clause swallows, and
    the stream stays unseekable. *)
Definition __init__ (fileobj : _SharedFile) (zipinfo : ZipInfo)
    : M BinaryFile ZipExtFile := λ f,
  let can := can_seek f && bool_decide (is_Some (CRC zipinfo)) in
  Return
    {| _fileobj := fileobj;
       _compress_left := compress_size zipinfo;
       _left := file_size zipinfo;
       _eof := false;
       _readbuffer := [];
       _offset := 0;
       name := filename zipinfo;
       _expected_crc := CRC zipinfo;
       _running_crc := crc32 [] 0;
       _seekable := can;
       _orig_compress_start := _pos fileobj;
       _orig_compress_size := compress_size zipinfo;
       _orig_file_size := file_size zipinfo;
       _orig_start_crc := crc32 [] 0;
       _orig_crc := CRC zipinfo;
       _decrypter := None;
       closed := false |} f.

Definition _read2 (n : Z) : M (BinaryFile * ZipExtFile) bytes :=
  s ← self;
  if _compress_left s <=? 0 then mret [] else
  let n := Z.max n MIN_READ_SIZE in
  let n := Z.min n (_compress_left s) in
  data ← on_fileobj (_SharedFile.read n);
  update (λ s, set__compress_left (_compress_left s - len data) s);;
  if bool_decide (data = []) then raise EOFError else
  match _decrypter s with
  | Some decrypt => mret (decrypt data)
  | None => mret data
  end.

Definition _update_crc (newdata : bytes) : M (BinaryFile * ZipExtFile) unit :=
  s ← self;
  match _expected_crc s with
  | None => mret ()
  | Some expected =>
      update (set__running_crc (crc32 newdata (_running_crc s)));;
      s ← self;
      if _eof s && bool_decide (_running_crc s ≠ expected)
      then raise (BadZipFile Bad_CRC32)
      else mret ()
  end.

Definition _read1 (n : Z) : M (BinaryFile * ZipExtFile) bytes :=
  s ← self;
  if _eof s || (n <=? 0) then mret [] else
  data ← _read2 n;
  update (λ s, set__eof (_compress_left s <=? 0) s);;
  s ← self;
  let data := slice_to (_left s) data in
  update (λ s, set__left (_left s - len data) s);;
  s ← self;
  (if _left s <=? 0 then update (set__eof true) else mret ());;
  _update_crc data;;
  mret data.

(** [while not self._eof: buf += self._read1(self.MAX_N)].  Every turn
    of this loop and of the next pulls at least one byte of compressed
    data or ends the stream, so [_compress_left] plus one turns are
    enough. *)
Fixpoint read_all (fuel : nat) (buf : bytes)
    : M (BinaryFile * ZipExtFile) bytes :=
  s ← self;
  if negb (_eof s) then
    match fuel with
    | O => raise Diverged
    | S fuel => data ← _read1 MAX_N; read_all fuel (buf ++ data)
    end
  else mret buf.

(** [while n > 0 and not self._eof: ...] *)
Fixpoint read_some (fuel : nat) (n : Z) (buf : bytes)
    : M (BinaryFile * ZipExtFile) bytes :=
  s ← self;
  if (n >? 0) && negb (_eof s) then
    match fuel with
    | O => raise Diverged
    | S fuel =>
        data ← _read1 n;
        if n <? len data then
          update (set__readbuffer data);;
          update (set__offset n);;
          mret (buf ++ slice_to n data)
        else read_some fuel (n - len data) (buf ++ data)
    end
  else mret buf.

(** [read(n)]; a negative [n] stands for [None] as well. *)
Definition read (n : Z) : M (BinaryFile * ZipExtFile) bytes :=
  s ← self;
  if closed s then raise (ValueError Read_from_closed_file) else
  if n <? 0 then
    let buf := slice_from (_offset s) (_readbuffer s) in
    update (set__readbuffer []);;
    update (set__offset 0);;
    read_all (S (Z.to_nat (_compress_left s))) buf
  else
  let end_ := n + _offset s in
  if end_ <? len (_readbuffer s) then
    let buf := slice (_offset s) end_ (_readbuffer s) in
    update (set__offset end_);;
    mret buf
  else
  let n := end_ - len (_readbuffer s) in
  let buf := slice_from (_offset s) (_readbuffer s) in
  update (set__readbuffer []);;
  update (set__offset 0);;
  read_some (S (Z.to_nat (_compress_left s))) n buf.

Definition tell : M (BinaryFile * ZipExtFile) Z :=
  s ← self;
  if closed s then raise (ValueError Tell_on_closed_file) else
  if negb (_seekable s) then raise UnsupportedOperation else
  mret (_orig_file_size s - _left s - len (_readbuffer s) + _offset s).

(** [while read_offset > 0: ...], the read-and-discard loop of [seek]. *)
Fixpoint seek_skip (fuel : nat) (read_offset : Z)
    : M (BinaryFile * ZipExtFile) unit :=
  if read_offset >? 0 then
    match fuel with
    | O => raise Diverged
    | S fuel =>
        let read_len := Z.min MAX_SEEK_READ read_offset in
        read read_len;;
        seek_skip fuel (read_offset - read_len)
    end
  else mret ().

Definition seek (offset whence : Z) : M (BinaryFile * ZipExtFile) Z :=
  s ← self;
  if closed s then raise (ValueError Seek_on_closed_file) else
  if negb (_seekable s) then raise UnsupportedOperation else
  curr_pos ← tell;
  new_pos ← (if whence =? 0 then mret offset
             else if whence =? 1 then mret (curr_pos + offset)
             else if whence =? 2 then mret (_orig_file_size s + offset)
             else raise (ValueError Bad_whence));
  let new_pos :=
    if new_pos >? _orig_file_size s then _orig_file_size s else new_pos in
  let new_pos := if new_pos <? 0 then 0 else new_pos in
  let read_offset := new_pos - curr_pos in
  let buff_offset := read_offset + _offset s in
  read_offset ←
    (if (buff_offset >=? 0) && (buff_offset <? len (_readbuffer s)) then
       update (set__offset buff_offset);;
       mret 0
     else if bool_decide (_decrypter s = None) && (read_offset >? 0) then
       update (set__expected_crc None);;
       let read_offset :=
         read_offset - (len (_readbuffer s) - _offset s) in
       on_fileobj (_SharedFile.seek read_offset 1);;
       update (λ s, set__left (_left s - read_offset) s);;
       update (set__readbuffer []);;
       update (set__offset 0);;
       mret 0
     else if read_offset <? 0 then
       on_fileobj (_SharedFile.seek (_orig_compress_start s) 0);;
       update (set__running_crc (_orig_start_crc s));;
       update (set__expected_crc (_orig_crc s));;
       update (set__compress_left (_orig_compress_size s));;
       update (set__left (_orig_file_size s));;
       update (set__readbuffer []);;
       update (set__offset 0);;
       update (set__eof false);;
       (* [self._init_decrypter] is defined nowhere *)
       (if bool_decide (_decrypter s = None) then mret ()
        else raise AttributeError);;
       mret new_pos
     else mret read_offset);
  seek_skip (Z.to_nat read_offset) read_offset;;
  tell.

End methods.
End ZipExtFile.

(** ** [_EndRecData] *)

(** [data.rfind(pat)]: the highest index at which [pat] occurs, or
    [-1]. *)
Fixpoint rfind_from (pat data : bytes) (i : nat) : Z :=
  if bool_decide (take (length pat) (drop i data) = pat) then Z.of_nat i
  else match i with
       | O => -1
       | S i' => rfind_from pat data i'
       end.

Definition rfind (pat data : bytes) : Z := rfind_from pat data (length data).

(** [list(struct.unpack(structEndArchive, data))] followed by the two
    [append]s. *)
Definition unpack_EndArchive (data comment : bytes) (location : Z) : EndRec :=
  {| endrec0 := slice 0 4 data; endrec1 := field 4 2 data;
     endrec2 := field 6 2 data; endrec3 := field 8 2 data;
     endrec4 := field 10 2 data; endrec5 := field 12 4 data;
     endrec6 := field 16 4 data; endrec7 := field 20 2 data;
     endrec8 := comment; endrec9 := location |}.

Definition _EndRecData : M BinaryFile (option EndRec) :=
  BinaryFile.seek 0 2;;
  filesize ← BinaryFile.tell;
  sought ← try_except (BinaryFile.seek (- sizeEndCentDir) 2;; mret true)
              is_OSError (λ _, mret false);
  if negb sought then mret None else
  data ← BinaryFile.read (-1);
  if bool_decide (len data = sizeEndCentDir)
     && bool_decide (slice 0 4 data = stringEndArchive)
     && bool_decide (slice_from (-2) data = [x00; x00])
  then
    let endrec := unpack_EndArchive data [] (filesize - sizeEndCentDir) in
    Some <$> _EndRecData64 (- sizeEndCentDir) endrec
  else
  let maxCommentStart :=
    Z.max (filesize - Z.shiftl 1 16 - sizeEndCentDir) 0 in
  BinaryFile.seek maxCommentStart 0;;
  data ← BinaryFile.read (-1);
  let start := rfind stringEndArchive data in
  if start >=? 0 then
    let recData := slice start (start + sizeEndCentDir) data in
    if bool_decide (len recData ≠ sizeEndCentDir) then mret None else
    let commentSize := field 20 2 recData in
    let comment :=
      slice (start + sizeEndCentDir)
            (start + sizeEndCentDir + commentSize) data in
    let endrec := unpack_EndArchive recData comment (maxCommentStart + start) in
    Some <$> _EndRecData64 (maxCommentStart + start - filesize) endrec
  else mret None.

(** ** [ZipFile] *)

(** [sorted(l, key=key, reverse=True)]: descending, and stable (equal
    keys keep the order they had in [l]). *)
Fixpoint insert_sorted {A} (key : A → Z) (x : A) (l : list A) : list A :=
  match l with
  | [] => [x]
  | y :: l' => if key y <=? key x then x :: y :: l'
               else y :: insert_sorted key x l'
  end.

Definition sorted_reverse {A} (key : A → Z) (l : list A) : list A :=
  foldr (insert_sorted key) [] l.

(** The [ZipInfo] objects live in [filelist]; [NameToInfo] maps a name
    to the position in [filelist] of the object it refers to, so that an
    assignment to an object is seen through both. *)
Record ZipFile := mkZipFile {
  fp : option fileref;
  NameToInfo : gmap str nat;
  filelist : list ZipInfo;
  _fileRefCnt : Z;
  start_dir : Z
}.

Module ZipFile.

Definition set_fp (v : option fileref) (z : ZipFile) : ZipFile :=
  {| fp := v; NameToInfo := NameToInfo z; filelist := filelist z;
     _fileRefCnt := _fileRefCnt z; start_dir := start_dir z |}.
Definition set_NameToInfo (v : gmap str nat) (z : ZipFile) : ZipFile :=
  {| fp := fp z; NameToInfo := v; filelist := filelist z;
     _fileRefCnt := _fileRefCnt z; start_dir := start_dir z |}.
Definition set_filelist (v : list ZipInfo) (z : ZipFile) : ZipFile :=
  {| fp := fp z; NameToInfo := NameToInfo z; filelist := v;
     _fileRefCnt := _fileRefCnt z; start_dir := start_dir z |}.
Definition set__fileRefCnt (v : Z) (z : ZipFile) : ZipFile :=
  {| fp := fp z; NameToInfo := NameToInfo z; filelist := filelist z;
     _fileRefCnt := v; start_dir := start_dir z |}.
Definition set_start_dir (v : Z) (z : ZipFile) : ZipFile :=
  {| fp := fp z; NameToInfo := NameToInfo z; filelist := filelist z;
     _fileRefCnt := _fileRefCnt z; start_dir := v |}.

Definition self : M (BinaryFile * ZipFile) ZipFile := λ w, Return w.2 w.
Definition update (f : ZipFile → ZipFile) : M (BinaryFile * ZipFile) unit :=
  modify (λ w, (w.1, f w.2)).

(** A method call on the stream [self.fp] referred to when the method
    started. *)
Definition on_fp {A} (file : option fileref) (m : M BinaryFile A)
    : M (BinaryFile * ZipFile) A :=
  match file with
  | None => raise AttributeError
  | Some the_stream => zoom fst (λ f w, (f, w.2)) m
  end.

(** [self.NameToInfo.get(name)] *)
Definition getinfo (name : str) (z : ZipFile) : option ZipInfo :=
  i ← NameToInfo z !! name; filelist z !! i.

Definition _fpclose (fp : option fileref) : M ZipFile unit :=
  modify (set_fp None);;
  z ← get;
  if _fileRefCnt z >? 0
  then modify (set__fileRefCnt (_fileRefCnt z - 1))
  else raise AssertionError.

Definition close : M (BinaryFile * ZipFile) unit :=
  z ← self;
  match fp z with
  | None => mret ()
  | Some f => zoom snd (λ z w, (w.1, z)) (_fpclose (Some f))
  end.

(** The last loop of [_RealGetContents]:
    [for zinfo in sorted(...): zinfo._end_offset = end_offset;
     end_offset = zinfo.header_offset], over the positions of the
    objects in the sorted order. *)
Fixpoint assign_end_offsets (order : list nat) (end_offset : Z)
    (objects : list ZipInfo) : list ZipInfo :=
  match order with
  | [] => objects
  | i :: order =>
      match objects !! i with
      | Some zinfo =>
          assign_end_offsets order (header_offset zinfo)
            (<[i := ZipInfo.set__end_offset (Some end_offset) zinfo]> objects)
      | None => objects
      end
  end.

Definition sorted_filelist (l : list ZipInfo) : list nat :=
  fst <$> sorted_reverse (λ iz, header_offset iz.2) (imap pair l).

Definition sweep (z : ZipFile) : ZipFile :=
  set_filelist
    (assign_end_offsets (sorted_filelist (filelist z)) (start_dir z)
       (filelist z)) z.

Section methods.
Context `{Platform}.

Definition decode_name (flags : Z) (raw : bytes) {S} : M S str :=
  if bool_decide (Z.land flags 0x0800 ≠ 0) then
    match decode_utf8 raw with
    | Some s => mret s
    | None => raise UnicodeDecodeError
    end
  else mret (decode_cp437 raw).

(** One turn of [while total < size_cd] in [_RealGetContents]; the
    state is the [io.BytesIO] holding the directory. *)
Definition read_centdir (concat : Z) : M BinaryFile (ZipInfo * Z) :=
  centdir ← BinaryFile.read sizeCentralDir;
  if bool_decide (len centdir ≠ sizeCentralDir)
  then raise (BadZipFile Truncated_central_directory) else
  if bool_decide (slice 0 4 centdir ≠ stringCentralDir)
  then raise (BadZipFile Bad_magic_for_central_directory) else
  raw_filename ← BinaryFile.read (field 28 2 centdir);
  let orig_filename_crc := crc32 raw_filename 0 in
  let flags := field 8 2 centdir in
  decoded ← decode_name flags raw_filename;
  let x := ZipInfo.__init__ decoded in
  extra_ ← BinaryFile.read (field 30 2 centdir);
  comment_ ← BinaryFile.read (field 32 2 centdir);
  let x :=
    {| orig_filename := orig_filename x; filename := filename x;
       comment := comment_; extra := extra_;
       extract_version := field 6 1 centdir; flag_bits := flags;
       CRC := Some (field 16 4 centdir);
       compress_size := field 20 4 centdir;
       file_size := field 24 4 centdir;
       header_offset := field 42 4 centdir;
       _end_offset := _end_offset x |} in
  if extract_version x >? 63
  then raise (NotImplementedError (Zip_file_version (extract_version x)))
  else
  match ZipInfo._decodeExtra orig_filename_crc x with
  | Raise e _ => raise e
  | Return _ x =>
      let x := ZipInfo.set_header_offset (header_offset x + concat) x in
      mret (x, sizeCentralDir + field 28 2 centdir + field 30 2 centdir
               + field 32 2 centdir)
  end.

Fixpoint read_directory (fuel : nat) (concat size_cd total : Z)
    (bio : BinaryFile) : M (BinaryFile * ZipFile) unit :=
  if total <? size_cd then
    match fuel with
    | O => raise Diverged
    | S fuel =>
        match read_centdir concat bio with
        | Raise e _ => raise e
        | Return (x, size) bio =>
            update (λ z,
              set_NameToInfo
                (<[filename x := length (filelist z)]> (NameToInfo z))
                (set_filelist (filelist z ++ [x]) z));;
            read_directory fuel concat size_cd (total + size) bio
        end
    end
  else mret ().

Definition _RealGetContents : M (BinaryFile * ZipFile) unit :=
  z ← self;
  let fp := fp z in
  endrec ← try_except (on_fp fp _EndRecData) is_OSError
             (λ _, raise (BadZipFile Not_a_zip_file));
  match endrec with
  | None => raise (BadZipFile Not_a_zip_file)
  | Some endrec =>
      let size_cd := endrec5 endrec in
      let offset_cd := endrec6 endrec in
      let concat := endrec9 endrec - size_cd - offset_cd in
      let concat :=
        if bool_decide (endrec0 endrec = stringEndArchive64)
        then concat - (sizeEndCentDir64 + sizeEndCentDir64Locator)
        else concat in
      update (set_start_dir (offset_cd + concat));;
      if offset_cd + concat <? 0
      then raise (BadZipFile Bad_offset_for_central_directory) else
      on_fp fp (BinaryFile.seek (offset_cd + concat) 0);;
      data ← on_fp fp (BinaryFile.read size_cd);
      let bio := {| content := data; position := 0;
                    can_seek := true; is_closed := false |} in
      read_directory (Z.to_nat size_cd) concat size_cd 0 bio;;
      update sweep
  end.

(** [ZipFile(file)] *)
Definition __init__ : M (BinaryFile * ZipFile) unit :=
  update (λ _, {| fp := Some the_stream; NameToInfo := ∅; filelist := [];
                  _fileRefCnt := 1; start_dir := 0 |});;
  try_except _RealGetContents (λ _, true)
    (λ e, z ← self;
          zoom snd (λ z w, (w.1, z)) (_fpclose (fp z));;
          raise e).

(** The body of the [try] in [open], up to the check of the name. *)
Definition check_local_header (zinfo : ZipInfo)
    : M (BinaryFile * _SharedFile) unit :=
  fheader ← _SharedFile.read sizeFileHeader;
  if bool_decide (len fheader ≠ sizeFileHeader)
  then raise (BadZipFile Truncated_file_header) else
  if bool_decide (slice 0 4 fheader ≠ stringFileHeader)
  then raise (BadZipFile Bad_magic_for_file_header) else
  fname ← _SharedFile.read (field 26 2 fheader);
  (if bool_decide (field 28 2 fheader ≠ 0)
   then _SharedFile.seek (field 28 2 fheader) 1;; mret ()
   else mret ());;
  if bool_decide (Z.land (flag_bits zinfo) 0x0020 ≠ 0)
  then raise (NotImplementedError Patched_data) else
  if bool_decide (Z.land (flag_bits zinfo) 0x0040 ≠ 0)
  then raise (NotImplementedError Strong_encryption) else
  fname_str ← decode_name (field 6 2 fheader) fname;
  if bool_decide (fname_str ≠ orig_filename zinfo)
  then raise (BadZipFile File_name_differs) else
  mret ().

(** The body of the [try] in [open]. *)
Definition open_entry (zinfo : ZipInfo)
    : M (BinaryFile * _SharedFile) ZipExtFile :=
  check_local_header zinfo;;
  zef_file ← _SharedFile.self;
  (match _end_offset zinfo with
   | Some end_offset =>
       if _pos zef_file + compress_size zinfo >? end_offset
       then raise (BadZipFile Overlapped_entries) else mret ()
   | None => mret ()
   end);;
  let is_encrypted := Z.land (flag_bits zinfo) 1 in
  if bool_decide (is_encrypted ≠ 0) then raise (BadZipFile No_message) else
  zoom fst (λ f w, (f, w.2)) (ZipExtFile.__init__ zef_file zinfo).

(** [try: <open_entry>  except Exception as e: print(e);
    zef_file.close(); raise] *)
Definition try_open_entry (zinfo : ZipInfo) (zef_file : _SharedFile)
    : M (BinaryFile * ZipFile) ZipExtFile := λ w,
  match open_entry zinfo (w.1, zef_file) with
  | Return zef (f, _) => Return zef (f, w.2)
  | Raise e (f, zef_file) =>
      match _SharedFile.close _fpclose (w.2, zef_file) with
      | Return _ (z, _) => Raise e (f, z)
      | Raise e' (z, _) => Raise e' (f, z)
      end
  end.

Definition open (name : str) : M (BinaryFile * ZipFile) ZipExtFile :=
  z ← self;
  match getinfo name z with
  | None => raise KeyError
  | Some zinfo =>
      update (λ z, set__fileRefCnt (_fileRefCnt z + 1) z);;
      zef_file ← _SharedFile.__init__ (fp z) (header_offset zinfo);
      try_open_entry zinfo zef_file
  end.

End methods.
End ZipFile.

(** ** CPython on a POSIX system

    The instance of [Platform] that the examples run on: [zlib.crc32]
    (the reflected CRC-32 of polynomial [0xEDB88320]), the strict
    [utf-8] codec, the [cp437] codec, [os.sep = "/"] and
    [os.altsep = None]. *)

Module CPython.

Definition crc32_shift (c : Z) : Z :=
  if Z.testbit c 0 then Z.lxor (Z.shiftr c 1) 0xEDB88320 else Z.shiftr c 1.

Definition crc32_byte (c : Z) (b : byte) : Z :=
  Nat.iter 8 crc32_shift (Z.lxor c (byte_val b)).

Definition zlib_crc32 (data : bytes) (value : Z) : Z :=
  Z.lxor (foldl crc32_byte (Z.lxor (value mod 2 ^ 32) 0xFFFFFFFF) data)
         0xFFFFFFFF.

Definition continuation (b : Z) : bool := (0x80 <=? b) && (b <=? 0xBF).

Fixpoint decode_utf8_from (fuel : nat) (bs : list Z) : option (list N) :=
  match fuel with
  | O => match bs with [] => Some [] | _ => None end
  | S fuel =>
      match bs with
      | [] => Some []
      | b0 :: bs1 =>
          if b0 <? 0x80 then (Z.to_N b0 ::.) <$> decode_utf8_from fuel bs1
          else if (0xC2 <=? b0) && (b0 <=? 0xDF) then
            match bs1 with
            | b1 :: bs2 =>
                if continuation b1
                then (Z.to_N ((b0 - 0xC0) * 64 + (b1 - 0x80)) ::.)
                       <$> decode_utf8_from fuel bs2
                else None
            | _ => None
            end
          else if (0xE0 <=? b0) && (b0 <=? 0xEF) then
            match bs1 with
            | b1 :: b2 :: bs3 =>
                if continuation b1 && continuation b2
                   && (negb (b0 =? 0xE0) || (0xA0 <=? b1))
                   && (negb (b0 =? 0xED) || (b1 <=? 0x9F))
                then (Z.to_N ((b0 - 0xE0) * 4096 + (b1 - 0x80) * 64
                              + (b2 - 0x80)) ::.)
                       <$> decode_utf8_from fuel bs3
                else None
            | _ => None
            end
          else if (0xF0 <=? b0) && (b0 <=? 0xF4) then
            match bs1 with
            | b1 :: b2 :: b3 :: bs4 =>
                if continuation b1 && continuation b2 && continuation b3
                   && (negb (b0 =? 0xF0) || (0x90 <=? b1))
                   && (negb (b0 =? 0xF4) || (b1 <=? 0x8F))
                then (Z.to_N ((b0 - 0xF0) * 262144 + (b1 - 0x80) * 4096
                              + (b2 - 0x80) * 64 + (b3 - 0x80)) ::.)
                       <$> decode_utf8_from fuel bs4
                else None
            | _ => None
            end
          else None
      end
  end.

Definition utf8 (bs : bytes) : option str :=
  decode_utf8_from (length bs) (byte_val <$> bs).

Definition cp437_high : list N := [
    199; 252; 233; 226; 228; 224; 229; 231;
    234; 235; 232; 239; 238; 236; 196; 197;
    201; 230; 198; 244; 246; 242; 251; 249;
    255; 214; 220; 162; 163; 165; 8359; 402;
    225; 237; 243; 250; 241; 209; 170; 186;
    191; 8976; 172; 189; 188; 161; 171; 187;
    9617; 9618; 9619; 9474; 9508; 9569; 9570; 9558;
    9557; 9571; 9553; 9559; 9565; 9564; 9563; 9488;
    9492; 9524; 9516; 9500; 9472; 9532; 9566; 9567;
    9562; 9556; 9577; 9574; 9568; 9552; 9580; 9575;
    9576; 9572; 9573; 9561; 9560; 9554; 9555; 9579;
    9578; 9496; 9484; 9608; 9604; 9612; 9616; 9600;
    945; 223; 915; 960; 931; 963; 181; 964;
    934; 920; 937; 948; 8734; 966; 949; 8745;
    8801; 177; 8805; 8804; 8992; 8993; 247; 8776;
    176; 8729; 183; 8730; 8319; 178; 9632; 160
  ]%N.

Definition cp437 (bs : bytes) : str :=
  (λ b, let n := Byte.to_N b in
        if (n <? 128)%N then n
        else default 0%N (cp437_high !! N.to_nat (n - 128))) <$> bs.

#[global] Instance posix : Platform := {|
  crc32 := zlib_crc32;
  decode_utf8 := utf8;
  decode_cp437 := cp437;
  os_sep := slash;
  os_altsep := None
|}.

End CPython.

(** ** Building streams for the examples *)

Definition byte_of (z : Z) : byte :=
  default x00 (Byte.of_N (Z.to_N z)).

Definition file_of (zs : list Z) : BinaryFile :=
  {| content := byte_of <$> zs; position := 0;
     can_seek := true; is_closed := false |}.

(** * Definitions for the statements *)

(** Sorted by [key], highest first. *)
Definition descending {A} (key : A → Z) : list A → Prop :=
  StronglySorted (λ a b, key b ≤ key a).

Definition hdr_of (objects : list ZipInfo) (i : nat) : option Z :=
  header_offset <$> objects !! i.
Definition end_of (objects : list ZipInfo) (i : nat) : option Z :=
  objects !! i ≫= _end_offset.

(** [stable I m]: running [m] from a state where [I] holds leaves a
    state where [I] holds, whether [m] returns or raises. *)
Definition stable {S A} (I : S → Prop) (m : M S A) : Prop :=
  ∀ s, I s → I (state_of (m s)).

Definition flagged_file_size (x : ZipInfo) : bool :=
  bool_decide (file_size x = 0xFFFFFFFF)
  || bool_decide (file_size x = 0xFFFFFFFFFFFFFFFF).
Definition flagged_compress_size (x : ZipInfo) : bool :=
  bool_decide (compress_size x = 0xFFFFFFFF).
Definition flagged_header_offset (x : ZipInfo) : bool :=
  bool_decide (header_offset x = 0xFFFFFFFF).

(** Where in the record the value of each field lies: the flagged
    fields follow each other, eight bytes each, in the order file size,
    compressed size, header offset. *)
Definition zip64_at (x : ZipInfo) (fld : zip64_field) : Z :=
  match fld with
  | File_size => 0
  | Compress_size => if flagged_file_size x then 8 else 0
  | Header_offset =>
      (if flagged_file_size x then 8 else 0)
      + (if flagged_compress_size x then 8 else 0)
  end.

Definition zip64_flagged (x : ZipInfo) (fld : zip64_field) : bool :=
  match fld with
  | File_size => flagged_file_size x
  | Compress_size => flagged_compress_size x
  | Header_offset => flagged_header_offset x
  end.

(** The flagged field has its eight bytes in [data]. *)
Definition zip64_present (x : ZipInfo) (data : bytes) (fld : zip64_field)
    : bool :=
  zip64_at x fld + 8 <=? len data.

(** The first flagged field whose value the record does not hold. *)
Definition zip64_missing (x : ZipInfo) (data : bytes) : option zip64_field :=
  if flagged_file_size x && negb (zip64_present x data File_size)
  then Some File_size
  else if flagged_compress_size x && negb (zip64_present x data Compress_size)
  then Some Compress_size
  else if flagged_header_offset x && negb (zip64_present x data Header_offset)
  then Some Header_offset
  else None.

Definition zip64_value (x : ZipInfo) (data : bytes) (fld : zip64_field)
    (old : Z) : Z :=
  if zip64_flagged x fld
  then le_uint (slice (zip64_at x fld) (zip64_at x fld + 8) data)
  else old.

Definition zip64_override (x : ZipInfo) (data : bytes) : ZipInfo :=
  ZipInfo.set_header_offset
    (zip64_value x data Header_offset (header_offset x))
    (ZipInfo.set_compress_size
       (zip64_value x data Compress_size (compress_size x))
       (ZipInfo.set_file_size
          (zip64_value x data File_size (file_size x)) x)).

(** What a Unicode-path record does to the entry. *)
Inductive unicode_path_effect :=
| Up_corrupt
| Up_invalid_utf8
| Up_replace (name : str)
| Up_keep.

Definition unicode_path_outcome `{Platform} (filename_crc : Z) (data : bytes)
    : unicode_path_effect :=
  if len data <? 5 then Up_corrupt
  else if (field 0 1 data =? 1) && (field 1 4 data =? filename_crc) then
    match decode_utf8 (slice_from 5 data) with
    | None => Up_invalid_utf8
    | Some name => if bool_decide (name = []) then Up_keep
                   else Up_replace name
    end
  else Up_keep.

Definition with_extra (v : bytes) (x : ZipInfo) : ZipInfo :=
  {| orig_filename := orig_filename x; filename := filename x;
     comment := comment x; extra := v;
     extract_version := extract_version x; flag_bits := flag_bits x;
     CRC := CRC x; compress_size := compress_size x;
     file_size := file_size x; header_offset := header_offset x;
     _end_offset := _end_offset x |}.

(** The record at the head of [extra]: its four-byte header [h] names
    the type and the length of [data]. *)
Definition extra_record (tp : Z) (h data : bytes) : Prop :=
  len h = 4 ∧ field 0 2 h = tp ∧ field 2 2 h = len data.

(** Whole records one after the other: each a four-byte header and the
    data whose length the header names.  These are the bytes that the
    loop of [_decodeExtra] has gone through when it meets a record
    further down the extra field. *)
Inductive whole_records : bytes → Prop :=
| no_record : whole_records []
| one_more_record tp h data rest :
    extra_record tp h data → whole_records rest →
    whole_records (h ++ data ++ rest).

Definition name_a : bytes := [byte_of 97].

Definition unicode_path_v2 : bytes :=
  byte_of <$> [0x75; 0x70; 6; 0; 2; 67; 190; 183; 232; 98].
Definition unicode_path_stale : bytes :=
  byte_of <$> [0x75; 0x70; 6; 0; 1; 0; 0; 0; 0; 0xFF].

Definition entry_a (extra_ : bytes) : ZipInfo :=
  with_extra extra_ (ZipInfo.__init__ (CPython.cp437 name_a)).

(** Where [_EndRecData64] looks for the locator and for the zip64
    record in a stream of [n] bytes. *)
Definition locator_at (n offset : Z) : Z := n + offset - sizeEndCentDir64Locator.
Definition zip64_eocd_at (n offset : Z) : Z :=
  n + offset - sizeEndCentDir64Locator - sizeEndCentDir64.

(** The twenty bytes at [p] are a locator that names a single disk. *)
Definition single_disk_locator (p : Z) (f : BinaryFile) : Prop :=
  let data := slice p (p + sizeEndCentDir64Locator) (content f) in
  0 ≤ p ∧ len data = sizeEndCentDir64Locator
  ∧ slice 0 4 data = stringEndArchive64Locator
  ∧ field 4 4 data = 0 ∧ field 16 4 data ≤ 1.

(** An end-of-central-directory record of an empty archive, after
    twenty bytes that are a zip64 locator, and after twenty bytes that
    are not. *)
Definition empty_eocd : list Z :=
  [0x50; 0x4b; 0x05; 0x06; 0; 0; 0; 0; 0; 0; 0; 0;
   0; 0; 0; 0; 0; 0; 0; 0; 0; 0].
Definition locator_only : BinaryFile :=
  file_of ([0x50; 0x4b; 0x06; 0x07; 0; 0; 0; 0;
            0; 0; 0; 0; 0; 0; 0; 0; 1; 0; 0; 0] ++ empty_eocd).
Definition junk_only : BinaryFile :=
  file_of ([0x50; 0x4b; 0x06; 0x08; 0; 0; 0; 0;
            0; 0; 0; 0; 0; 0; 0; 0; 1; 0; 0; 0] ++ empty_eocd).

Definition new_ZipFile : ZipFile :=
  {| fp := None; NameToInfo := ∅; filelist := []; _fileRefCnt := 0;
     start_dir := 0 |}.

(** A stored archive of two entries, [a.txt] holding [hello] (local
    header at 0, data at 35) and [b.txt] holding [world!!] (local header
    at 40, data at 75); the central directory starts at 82. *)
Definition two_entries : list Z := [
   80; 75; 3; 4; 20; 0; 0; 0; 0; 0; 0; 0; 33; 0; 134; 166;
   16; 54; 5; 0; 0; 0; 5; 0; 0; 0; 5; 0; 0; 0; 97; 46;
   116; 120; 116; 104; 101; 108; 108; 111; 80; 75; 3; 4; 20; 0; 0; 0;
   0; 0; 0; 0; 33; 0; 1; 17; 203; 48; 7; 0; 0; 0; 7; 0;
   0; 0; 5; 0; 0; 0; 98; 46; 116; 120; 116; 119; 111; 114; 108; 100;
   33; 33; 80; 75; 1; 2; 20; 3; 20; 0; 0; 0; 0; 0; 0; 0;
   33; 0; 134; 166; 16; 54; 5; 0; 0; 0; 5; 0; 0; 0; 5; 0;
   0; 0; 0; 0; 0; 0; 0; 0; 0; 0; 128; 1; 0; 0; 0; 0;
   97; 46; 116; 120; 116; 80; 75; 1; 2; 20; 3; 20; 0; 0; 0; 0;
   0; 0; 0; 33; 0; 1; 17; 203; 48; 7; 0; 0; 0; 7; 0; 0;
   0; 5; 0; 0; 0; 0; 0; 0; 0; 0; 0; 0; 0; 128; 1; 40;
   0; 0; 0; 98; 46; 116; 120; 116; 80; 75; 5; 6; 0; 0; 0; 0;
   2; 0; 2; 0; 102; 0; 0; 0; 82; 0; 0; 0; 0; 0].

Definition a_txt : str := [97; 46; 116; 120; 116]%N.
Definition b_txt : str := [98; 46; 116; 120; 116]%N.

(** The same archive with the directory record of [a.txt] changed:
    byte 90 holds its flags, byte 102 its compressed size. *)
Definition a_encrypted : list Z := <[90%nat := 1]> two_entries.
Definition a_oversized : list Z := <[102%nat := 100]> two_entries.
Definition a_patched_oversized : list Z :=
  <[90%nat := 0x20]> (<[102%nat := 100]> two_entries).

(** The archive object that [ZipFile(file)] leaves. *)
Definition opened (bs : list Z) : BinaryFile * ZipFile :=
  state_of (ZipFile.__init__ (file_of bs, new_ZipFile)).

Definition handle_at (pos : Z) : _SharedFile :=
  {| _file := Some the_stream; _pos := pos |}.

(** The entry would run past the start of the next one. *)
Definition overlaps (zinfo : ZipInfo) (pos : Z) : bool :=
  match _end_offset zinfo with
  | Some end_offset => pos + compress_size zinfo >? end_offset
  | None => false
  end.

Definition attached (w : BinaryFile * _SharedFile) : Prop :=
  _file w.2 = Some the_stream.

(** The directory entry of [a.txt] with flags [flags] and compressed
    size [csize]. *)
Definition a_info (flags csize : Z) : ZipInfo :=
  mkZipInfo a_txt a_txt [] [] 20 flags (Some 907060870) csize 5 0 (Some 40).

(** The stream of an entry opened with [open name], or the exception. *)
Definition entry (name : str) (w : BinaryFile * ZipFile)
    : (exn + ZipExtFile) * (BinaryFile * ZipFile) :=
  match ZipFile.open name w with
  | Return zef w' => (inr zef, w')
  | Raise e w' => (inl e, w')
  end.

(** Open [a.txt], then [b.txt], then run [m] on the stream of
    [a.txt]. *)
Definition after_opening_both {A} (m : M (BinaryFile * ZipExtFile) A)
    : option (outcome (BinaryFile * ZipExtFile) A) :=
  match entry a_txt (opened two_entries) with
  | (inr zef_a, w1) =>
      match entry b_txt w1 with
      | (inr _, w2) => Some (m (w2.1, zef_a))
      | _ => None
      end
  | _ => None
  end.

(** Open [a.txt] only, then run [m] on its stream. *)
Definition after_opening_a {A} (m : M (BinaryFile * ZipExtFile) A)
    : option (outcome (BinaryFile * ZipExtFile) A) :=
  match entry a_txt (opened two_entries) with
  | (inr zef_a, w1) => Some (m (w1.1, zef_a))
  | _ => None
  end.

Definition returned {S A} (o : option (outcome S A)) : option A :=
  match o with
  | Some (Return a _) => Some a
  | _ => None
  end.

(** Checksum tracking is active and the running CRC-32 is not the
    recorded one. *)
Definition crc_mismatch (z : ZipExtFile) : bool :=
  match _expected_crc z with
  | Some expected => negb (bool_decide (_running_crc z = expected))
  | None => false
  end.

(** The assignments of [_read1] once [_read2] has returned [data]. *)
Definition account (data : bytes) `{Platform} (z : ZipExtFile) : ZipExtFile :=
  let z := ZipExtFile.set__eof (_compress_left z <=? 0) z in
  let z := ZipExtFile.set__left (_left z - len data) z in
  let z := if _left z <=? 0 then ZipExtFile.set__eof true z else z in
  match _expected_crc z with
  | Some _ => ZipExtFile.set__running_crc (crc32 data (_running_crc z)) z
  | None => z
  end.

(** What the specification says of one call on an Extraction Stream
    that starts in [w] and ends as [o]: the checksum error is raised
    exactly when this call is the one that sets end-of-stream and the
    sums differ, and then one of the two counts has run out. *)
Definition crc_law {A} (w : BinaryFile * ZipExtFile)
    (o : outcome (BinaryFile * ZipExtFile) A) : Prop :=
  let z' := (state_of o).2 in
  _expected_crc z' = _expected_crc w.2
  ∧ (raised o = Some (BadZipFile Bad_CRC32)
     ↔ _eof w.2 = false ∧ _eof z' = true ∧ crc_mismatch z' = true)
  ∧ (_eof w.2 = false → _eof z' = true →
     _compress_left z' ≤ 0 ∨ _left z' ≤ 0).

Inductive read2_outcome (w : BinaryFile * ZipExtFile)
    : outcome (BinaryFile * ZipExtFile) bytes → Prop :=
| read2_exhausted :
    _compress_left w.2 ≤ 0 → read2_outcome w (Return [] w)
| read2_failed e f h :
    0 < _compress_left w.2 →
    e ∈ [AttributeError; OSError; UnsupportedOperation] →
    read2_outcome w (Raise e (f, ZipExtFile.set__fileobj h w.2))
| read2_no_data f h :
    0 < _compress_left w.2 →
    read2_outcome w (Raise EOFError (f, ZipExtFile.set__fileobj h w.2))
| read2_data raw f h :
    0 < _compress_left w.2 → 0 < len raw ≤ _compress_left w.2 →
    read2_outcome w
      (Return (match _decrypter w.2 with
               | Some decrypt => decrypt raw
               | None => raw
               end)
         (f, ZipExtFile.set__compress_left (_compress_left w.2 - len raw)
               (ZipExtFile.set__fileobj h w.2))).

(** The bytes of the underlying stream from the position of the handle
    of [w] on. *)
Definition raw_ahead (w : BinaryFile * ZipExtFile) : bytes :=
  slice_from (_pos (_fileobj w.2)) (content w.1).

(** What is still to be pulled: the bytes ahead, as many as
    [_compress_left] allows, clipped to [_left]. *)
Definition ahead (w : BinaryFile * ZipExtFile) : bytes :=
  take (Z.to_nat (_left w.2))
    (take (Z.to_nat (_compress_left w.2)) (raw_ahead w)).

(** What the stream has still to deliver: the rest of its buffer, then
    what is still to be pulled. *)
Definition pending (w : BinaryFile * ZipExtFile) : bytes :=
  slice_from (_offset w.2) (_readbuffer w.2) ++ ahead w.

(** The states [open] and the methods leave: no decrypter is ever
    installed, the cursor is inside the buffer, and the end-of-stream
    flag is only set when a count has run out. *)
Record well_formed (w : BinaryFile * ZipExtFile) : Prop := {
  wf_decrypter : _decrypter w.2 = None;
  wf_offset : 0 ≤ _offset w.2 ≤ len (_readbuffer w.2);
  wf_left : 0 ≤ _left w.2;
  wf_eof : _eof w.2 = true → _compress_left w.2 ≤ 0 ∨ _left w.2 ≤ 0
}.

(** What [tell] computes. *)
Definition position_of (z : ZipExtFile) : Z :=
  _orig_file_size z - _left z - len (_readbuffer z) + _offset z.

(** The absolute position that [seek(offset, whence)] aims at, before it
    is clamped. *)
Definition seek_target (z : ZipExtFile) (offset whence : Z) : option Z :=
  if whence =? 0 then Some offset
  else if whence =? 1 then Some (position_of z + offset)
  else if whence =? 2 then Some (_orig_file_size z + offset)
  else None.

(** ... and clamped to [[0, file_size]], as [seek] does it. *)
Definition clamp (file_size new_pos : Z) : Z :=
  let new_pos := if new_pos >? file_size then file_size else new_pos in
  if new_pos <? 0 then 0 else new_pos.

(** The target lies in the buffer. *)
Definition in_buffer (z : ZipExtFile) (new_pos : Z) : bool :=
  let buff_offset := new_pos - position_of z + _offset z in
  (buff_offset >=? 0) && (buff_offset <? len (_readbuffer z)).



(** The attributes that [__init__] sets once and for all but
    [_orig_compress_start]. *)
Definition same_entry (z z' : ZipExtFile) : Prop :=
  _orig_file_size z' = _orig_file_size z
  ∧ _orig_compress_size z' = _orig_compress_size z
  ∧ _seekable z' = _seekable z ∧ closed z' = closed z.


(** Open [name] in the archive [bs], then run [m] on its stream. *)
Definition on_entry {A} (bs : list Z) (name : str)
    (m : M (BinaryFile * ZipExtFile) A)
    : option (outcome (BinaryFile * ZipExtFile) A) :=
  match entry name (opened bs) with
  | (inr zef, w) => Some (m (w.1, zef))
  | _ => None
  end.

(** The stream of [a.txt] in [two_entries] as [open] returns it, with
    the file under it. *)
Definition a_stream : BinaryFile * ZipExtFile :=
  (BinaryFile.set_position 35 (file_of two_entries),
   {| _fileobj := handle_at 35; _compress_left := 5; _left := 5;
      _eof := false; _readbuffer := []; _offset := 0; name := a_txt;
      _expected_crc := Some 907060870; _running_crc := 0;
      _seekable := true; _orig_compress_start := 35;
      _orig_compress_size := 5; _orig_file_size := 5;
      _orig_start_crc := 0; _orig_crc := Some 907060870;
      _decrypter := None; closed := false |}).

(** ... and after [seek(4)]. *)
Definition a_stream_at_4 : BinaryFile * ZipExtFile :=
  state_of (ZipExtFile.seek 4 0 a_stream).

(** [halts m]: whatever the state, [m] does not run out of turns. *)
Definition halts {S A} (m : M S A) : Prop :=
  ∀ s, raised (m s) ≠ Some Diverged.

(** [two_entries] with method 8 (deflate) written in both headers of
    [a.txt]. *)
Definition a_deflated : list Z := <[8%nat := 8]> (<[92%nat := 8]> two_entries).

(** A directory entry of 4 GiB with its zip64 record. *)
Definition zip64_header : bytes := byte_of <$> [1; 0; 8; 0].
Definition zip64_4GiB : bytes := byte_of <$> [0; 0; 0; 0; 1; 0; 0; 0].
Definition entry_4GiB : ZipInfo :=
  ZipInfo.set_file_size 0xFFFFFFFF (entry_a (zip64_header ++ zip64_4GiB)).

(** A Unicode-path record of version 1 that renames [a] to [b]. *)
Definition unicode_path_header : bytes := byte_of <$> [0x75; 0x70; 6; 0].
Definition unicode_path_a_to_b : bytes :=
  byte_of <$> [1; 67; 190; 183; 232; 98].

(** The first two bytes of [a.txt]. *)
Definition he : bytes := byte_of <$> [104; 101].

(** A record of an unknown type, and entries whose extra field holds
    it before a zip64 record and before a Unicode-path record. *)
Definition private_header : bytes := byte_of <$> [0xFE; 0xCA; 2; 0].
Definition private_data : bytes := byte_of <$> [7; 7].
Definition private_record : bytes := private_header ++ private_data ++ [].
Definition entry_private_4GiB : ZipInfo :=
  ZipInfo.set_file_size 0xFFFFFFFF
    (entry_a (private_header ++ private_data
              ++ (zip64_header ++ zip64_4GiB))).
Definition entry_private_renamed : ZipInfo :=
  entry_a (private_header ++ private_data
           ++ (unicode_path_header ++ unicode_path_a_to_b)).

(** [two_entries] with the header offset of [b.txt] in the directory
    set to 0, the header offset of [a.txt]. *)
Definition shared_offset : list Z := <[175%nat := 0]> two_entries.

(** The archive object of [bs] as the parsing of the directory leaves
    it, before the sweep: no entry has an end offset yet. *)
Definition unswept (bs : list Z) : ZipFile :=
  ZipFile.set_filelist
    (ZipInfo.set__end_offset None <$> filelist (opened bs).2) (opened bs).2.

(** The attributes of an entry that [_decodeExtra] has no business
    with. *)
Definition same_header (x x' : ZipInfo) : Prop :=
  orig_filename x' = orig_filename x ∧ comment x' = comment x
  ∧ extra x' = extra x ∧ extract_version x' = extract_version x
  ∧ flag_bits x' = flag_bits x ∧ CRC x' = CRC x
  ∧ _end_offset x' = _end_offset x.

(** An entry whose extra field announces 9 bytes and holds 2. *)
Definition entry_overrun : ZipInfo :=
  entry_a (byte_of <$> [1; 0; 9; 0; 7; 7]).

(** The twenty bytes where [_EndRecData64] looks for the locator in
    [f], and the fifty-six where it looks for the zip64 record. *)
Definition locator_bytes (offset : Z) (f : BinaryFile) : bytes :=
  let p := locator_at (len (content f)) offset in
  slice p (p + sizeEndCentDir64Locator) (content f).
Definition zip64_eocd_bytes (offset : Z) (f : BinaryFile) : bytes :=
  let p := zip64_eocd_at (len (content f)) offset in
  slice p (p + sizeEndCentDir64) (content f).

(** A zip64 end record that announces [n] entries in a directory of
    [size] bytes at [offset] (each below 256), a locator that names
    [disks] disks, and the record of an empty archive. *)
Definition zip64_eocd (n size offset : Z) : list Z :=
  [0x50; 0x4b; 0x06; 0x06; 44; 0; 0; 0; 0; 0; 0; 0; 45; 0; 45; 0;
   0; 0; 0; 0; 0; 0; 0; 0;
   n; 0; 0; 0; 0; 0; 0; 0; n; 0; 0; 0; 0; 0; 0; 0;
   size; 0; 0; 0; 0; 0; 0; 0; offset; 0; 0; 0; 0; 0; 0; 0].
Definition zip64_locator (disks : Z) : list Z :=
  [0x50; 0x4b; 0x06; 0x07; 0; 0; 0; 0;
   0; 0; 0; 0; 0; 0; 0; 0; disks; 0; 0; 0].
Definition zip64_empty : BinaryFile :=
  file_of (zip64_eocd 0 0 0 ++ zip64_locator 1 ++ empty_eocd).
Definition zip64_two_disks : BinaryFile :=
  file_of (zip64_eocd 0 0 0 ++ zip64_locator 2 ++ empty_eocd).

(** A single-disk locator after fifty-six bytes that do not bear the
    zip64 signature. *)
Definition zip64_unsigned : BinaryFile :=
  file_of (<[3%nat := 0x08]> (zip64_eocd 0 0 0) ++ zip64_locator 1
           ++ empty_eocd).

(** The unpacked [empty_eocd] found at 76. *)
Definition endrec_at_76 : EndRec :=
  unpack_EndArchive (byte_of <$> empty_eocd) [] 76.

(** What [_RealGetContents] has checked of an entry it lists. *)
Record listed (x : ZipInfo) : Prop := {
  listed_version : extract_version x ≤ 63;
  listed_CRC : is_Some (CRC x);
  listed_compress_size : 0 ≤ compress_size x;
  listed_file_size : 0 ≤ file_size x
}.

Definition sizes_nonneg (x : ZipInfo) : Prop :=
  0 ≤ compress_size x ∧ 0 ≤ file_size x.

(** [self.filelist.append(x); self.NameToInfo[x.filename] = x] *)
Definition append_entry (x : ZipInfo) (z : ZipFile) : ZipFile :=
  ZipFile.set_NameToInfo (<[filename x := length (filelist z)]> (NameToInfo z))
    (ZipFile.set_filelist (filelist z ++ [x]) z).

(** [NameToInfo] names, for every file name in [filelist], the last
    entry of that name, and names nothing else. *)
Definition names_last (z : ZipFile) : Prop :=
  ∀ name,
    match NameToInfo z !! name with
    | Some j =>
        (∃ x, filelist z !! j = Some x ∧ filename x = name)
        ∧ ∀ i y, filelist z !! i = Some y → filename y = name → (i ≤ j)%nat
    | None => ∀ y, y ∈ filelist z → filename y ≠ name
    end.

(** The archive object before [_RealGetContents]. *)
Definition fresh_ZipFile : ZipFile :=
  {| fp := Some the_stream; NameToInfo := ∅; filelist := [];
     _fileRefCnt := 1; start_dir := 0 |}.

(** The states that hold the underlying stream. *)
Class HasFile (S : Type) := the_file : S → BinaryFile.
#[global] Instance BinaryFile_HasFile : HasFile BinaryFile := λ f, f.
#[global] Instance pair_HasFile {T} : HasFile (BinaryFile * T) := fst.

(** The stream holds the same bytes, is as seekable and as open as it
    was: only its position may differ. *)
Definition untouched (f f' : BinaryFile) : Prop :=
  content f' = content f ∧ can_seek f' = can_seek f
  ∧ is_closed f' = is_closed f.

(** [m] only ever moves the stream. *)
Definition only_moves {S A} `{HasFile S} (m : M S A) : Prop :=
  ∀ s, untouched (the_file s) (the_file (state_of (m s))).

(** A stream that cannot seek, over the bytes of [two_entries]. *)
Definition a_pipe : BinaryFile :=
  {| content := byte_of <$> two_entries; position := 0;
     can_seek := false; is_closed := false |}.

(** The archive object still refers to [v] and counts [n]
    references. *)
Definition holds (v : option fileref) (n : Z) (w : BinaryFile * ZipFile)
    : Prop :=
  fp w.2 = v ∧ _fileRefCnt w.2 = n.

(** A file of 21 bytes. *)
Definition too_short : BinaryFile := file_of (take 21 empty_eocd).

(** Where the data of an entry starts, going by its local header in
    [data]: after the thirty bytes of the header, the name (as much of
    it as [data] holds) and the extra field. *)
Definition data_start (header_offset : Z) (data : bytes) : Z :=
  let fheader := slice header_offset (header_offset + sizeFileHeader) data in
  let fname :=
    slice (header_offset + sizeFileHeader)
          (header_offset + sizeFileHeader + field 26 2 fheader) data in
  header_offset + sizeFileHeader + len fname + field 28 2 fheader.

(** A name that [two_entries] does not list. *)
Definition c_txt : str := [99; 46; 116; 120; 116]%N.

(** The contents of [a.txt]. *)
Definition hello : bytes := byte_of <$> [104; 101; 108; 108; 111].

(** The assignments of the third case of [seek], which take the stream
    back to the start of the entry; [s] is the stream as it was when
    [seek] was called. *)
Definition rewound (s z : ZipExtFile) : ZipExtFile :=
  ZipExtFile.set__eof false
    (ZipExtFile.set__offset 0
       (ZipExtFile.set__readbuffer []
          (ZipExtFile.set__left (_orig_file_size s)
             (ZipExtFile.set__compress_left (_orig_compress_size s)
                (ZipExtFile.set__expected_crc (_orig_crc s)
                   (ZipExtFile.set__running_crc (_orig_start_crc s) z)))))).

(** The assignments of the second case, after the handle has skipped
    [skip] bytes. *)
Definition skipped (skip : Z) (z : ZipExtFile) : ZipExtFile :=
  ZipExtFile.set__offset 0
    (ZipExtFile.set__readbuffer []
       (ZipExtFile.set__left (_left z - skip) z)).

(** The stream of [a.txt] once [read()] has returned. *)
Definition a_stream_read : BinaryFile * ZipExtFile :=
  state_of (ZipExtFile.read (-1) a_stream).

(** The stream of [a.txt] over a file cut at the start of the data. *)
Definition a_stream_cut : BinaryFile * ZipExtFile :=
  (BinaryFile.set_position 35 (file_of (take 35 two_entries)), a_stream.2).

(** [pat] occurs in [data] at [i]. *)
Definition occurs_at (pat data : bytes) (i : nat) : Prop :=
  take (length pat) (drop i data) = pat.

(** Thirty bytes without the signature of an end record. *)
Definition no_signature : BinaryFile :=
  file_of [0x50; 0x4b; 0x05; 0x07; 0; 0; 0; 0; 0; 0; 0; 0; 0; 0; 0;
           0x50; 0x4b; 0x03; 0x04; 0; 0; 0; 0; 0; 0; 0; 0; 0; 0; 0].

(** * Properties *)

(** * Facts about the Python values *)

Lemma len_nonneg {A} (l : list A) : 0 ≤ len l.
Proof. unfold len. lia. Qed.

Lemma len_app {A} (l k : list A) : len (l ++ k) = len l + len k.
Proof. unfold len. rewrite length_app. lia. Qed.

Lemma len_nil_iff {A} (l : list A) : len l = 0 ↔ l = [].
Proof. unfold len. destruct l; simpl; split; intros; try done; lia. Qed.

Lemma slice_to_nonneg {A} (k : Z) (l : list A) :
  0 ≤ k → slice_to k l = take (Z.to_nat k) l.
Proof.
  intros Hk. unfold slice_to, norm_index, len.
  destruct (Z.ltb_spec k 0); [lia|].
  destruct (Z.le_gt_cases k (Z.of_nat (length l))).
  - by rewrite Z.min_l.
  - rewrite Z.min_r by lia. rewrite Nat2Z.id.
    rewrite !take_ge; [done | lia | lia].
Qed.

Lemma slice_from_nonneg {A} (k : Z) (l : list A) :
  0 ≤ k → slice_from k l = drop (Z.to_nat k) l.
Proof.
  intros Hk. unfold slice_from, norm_index, len.
  destruct (Z.ltb_spec k 0); [lia|].
  destruct (Z.le_gt_cases k (Z.of_nat (length l))).
  - by rewrite Z.min_l.
  - rewrite Z.min_r by lia. rewrite Nat2Z.id.
    rewrite !drop_ge; [done | lia | lia].
Qed.

Lemma slice_nonneg {A} (a b : Z) (l : list A) :
  0 ≤ a → a ≤ b → slice a b l = take (Z.to_nat (b - a)) (drop (Z.to_nat a) l).
Proof.
  intros Ha Hb. unfold slice, norm_index, len.
  destruct (Z.ltb_spec a 0); [lia|]. destruct (Z.ltb_spec b 0); [lia|].
  set (n := Z.of_nat (length l)).
  destruct (Z.le_gt_cases b n).
  - rewrite !Z.min_l by lia. done.
  - rewrite (Z.min_r b) by lia.
    destruct (Z.le_gt_cases a n).
    + rewrite Z.min_l by lia. subst n.
      rewrite (take_ge _ (Z.to_nat (_ - a))) by (rewrite length_drop; lia).
      rewrite (take_ge _ (Z.to_nat (b - a))) by (rewrite length_drop; lia).
      done.
    + rewrite Z.min_r by lia. rewrite Z.sub_diag. subst n. simpl.
      rewrite (drop_ge l (Z.to_nat a)) by lia. by rewrite take_nil.
Qed.

(** * The sweep *)

Section sorted_reverse.
Context {A : Type} (key : A → Z).

Lemma insert_sorted_perm x l : insert_sorted key x l ≡ₚ x :: l.
Proof.
  induction l as [|y l IH]; simpl; [done|].
  case_match; [done|]. rewrite IH. apply Permutation_swap.
Qed.

Lemma sorted_reverse_perm l : sorted_reverse key l ≡ₚ l.
Proof.
  induction l as [|x l IH]; simpl; [done|].
  by rewrite insert_sorted_perm, IH.
Qed.

Lemma insert_sorted_descending x l :
  descending key l → descending key (insert_sorted key x l).
Proof.
  induction 1 as [|y l Hl IH Hy]; simpl.
  - repeat constructor.
  - destruct (Z.leb_spec (key y) (key x)).
    + constructor; [by constructor|].
      constructor; [done|].
      eapply Forall_impl; [exact Hy|]. simpl. lia.
    + constructor; [done|].
      rewrite insert_sorted_perm. constructor; [lia | done].
Qed.

Lemma sorted_reverse_descending l : descending key (sorted_reverse key l).
Proof.
  induction l; simpl; [constructor | by apply insert_sorted_descending].
Qed.

Lemma descending_lookup l i j a b :
  descending key l → (i < j)%nat → l !! i = Some a → l !! j = Some b →
  key b ≤ key a.
Proof.
  intros Hl. revert i j. induction Hl as [|y l Hl IH Hy]; intros i j Hij Hi Hj.
  - done.
  - destruct j as [|j]; [lia|]. destruct i as [|i]; simpl in *.
    + simplify_eq. rewrite Forall_forall in Hy.
      apply Hy. by eapply list_elem_of_lookup_2.
    + eapply (IH i j); [lia|done..].
Qed.

End sorted_reverse.

Lemma assign_end_offsets_spec order : ∀ e objects,
  NoDup order →
  (∀ i, i ∈ order → (i < length objects)%nat) →
  let objects' := ZipFile.assign_end_offsets order e objects in
  ZipInfo.set__end_offset None <$> objects'
    = ZipInfo.set__end_offset None <$> objects ∧
  (∀ i, i ∉ order → objects' !! i = objects !! i) ∧
  (∀ i, order !! 0%nat = Some i → end_of objects' i = Some e) ∧
  (∀ k j i, order !! k = Some j → order !! S k = Some i →
     end_of objects' i = hdr_of objects j).
Proof.
  induction order as [|i0 order IH]; intros e objects Hnd Hlt; simpl.
  { repeat split; intros; simplify_eq; done. }
  apply NoDup_cons in Hnd as [Hi0 Hnd].
  destruct (lookup_lt_is_Some_2 objects i0) as [z0 Hz0].
  { apply Hlt. left. }
  rewrite Hz0.
  set (objects1 := <[i0 := ZipInfo.set__end_offset (Some e) z0]> objects).
  destruct (IH (header_offset z0) objects1 Hnd) as (Hsame & Hout & Hhd & Hnx).
  { intros i Hi. unfold objects1. rewrite length_insert. apply Hlt. by right. }
  assert (Hhdr : ∀ j, hdr_of objects1 j = hdr_of objects j).
  { intros j. unfold hdr_of, objects1.
    destruct (decide (j = i0)) as [->|Hne].
    - rewrite list_lookup_insert_eq by (by eapply lookup_lt_Some).
      by rewrite Hz0.
    - by rewrite list_lookup_insert_ne. }
  repeat split.
  - rewrite Hsame. unfold objects1. rewrite list_fmap_insert. simpl.
    apply list_eq. intros j. destruct (decide (j = i0)) as [->|Hne].
    + rewrite list_lookup_insert_eq
        by (rewrite length_fmap; by eapply lookup_lt_Some).
      by rewrite list_lookup_fmap, Hz0.
    + by rewrite list_lookup_insert_ne.
  - intros i Hi. apply not_elem_of_cons in Hi as [Hne Hi].
    rewrite Hout by done. unfold objects1. by rewrite list_lookup_insert_ne.
  - intros i [= <-]. unfold end_of. rewrite Hout by done.
    unfold objects1.
    rewrite list_lookup_insert_eq by (by eapply lookup_lt_Some). done.
  - intros k j i Hj Hi. destruct k as [|k]; simpl in *.
    + simplify_eq. rewrite (Hhd i Hi). unfold hdr_of. by rewrite Hz0.
    + rewrite (Hnx k j i Hj Hi). apply Hhdr.
Qed.

Lemma sorted_filelist_perm l :
  ZipFile.sorted_filelist l ≡ₚ seq 0 (length l).
Proof.
  unfold ZipFile.sorted_filelist. rewrite sorted_reverse_perm.
  rewrite fmap_imap.
  rewrite (imap_ext _ (λ j _, id j)) by done.
  by rewrite (imap_seq_0 l id), list_fmap_id.
Qed.

Lemma sorted_filelist_descending l i j a b x y :
  (i < j)%nat →
  ZipFile.sorted_filelist l !! i = Some a →
  ZipFile.sorted_filelist l !! j = Some b →
  l !! a = Some x → l !! b = Some y →
  header_offset y ≤ header_offset x.
Proof.
  unfold ZipFile.sorted_filelist. intros Hij Ha Hb Hx Hy.
  rewrite list_lookup_fmap in Ha, Hb.
  destruct (sorted_reverse _ _ !! i) as [[a' x']|] eqn:Ea; simplify_eq/=.
  destruct (sorted_reverse _ _ !! j) as [[b' y']|] eqn:Eb; simplify_eq/=.
  assert (Hin : ∀ k c z,
    sorted_reverse (λ iz : nat * ZipInfo, header_offset iz.2) (imap pair l)
      !! k = Some (c, z) → l !! c = Some z).
  { intros k c z Hk. apply list_elem_of_lookup_2 in Hk.
    rewrite sorted_reverse_perm in Hk.
    apply elem_of_lookup_imap in Hk as (c' & z' & [= -> ->] & Hl). done. }
  pose proof (Hin _ _ _ Ea). pose proof (Hin _ _ _ Eb). simplify_eq.
  eapply (descending_lookup (λ iz : nat * ZipInfo, header_offset iz.2)
            _ i j (a, x) (b, y)); eauto using sorted_reverse_descending.
Qed.

Lemma sorted_filelist_NoDup l : NoDup (ZipFile.sorted_filelist l).
Proof. rewrite sorted_filelist_perm. apply NoDup_seq. Qed.

Lemma sorted_filelist_elem l i :
  i ∈ ZipFile.sorted_filelist l ↔ (i < length l)%nat.
Proof. rewrite sorted_filelist_perm, elem_of_seq. lia. Qed.

Lemma same_header_offset (l l' : list ZipInfo) i x :
  ZipInfo.set__end_offset None <$> l' = ZipInfo.set__end_offset None <$> l →
  l' !! i = Some x →
  ∃ x0, l !! i = Some x0 ∧ header_offset x0 = header_offset x.
Proof.
  intros Hsame Hx.
  assert (Hi : (ZipInfo.set__end_offset None <$> l) !! i
               = Some (ZipInfo.set__end_offset None x)).
  { by rewrite <- Hsame, list_lookup_fmap, Hx. }
  rewrite list_lookup_fmap in Hi.
  destruct (l !! i) as [x0|]; simplify_eq/=.
  exists x0. split; [done|]. congruence.
Qed.

(** The entry that the sorted order meets right after position [k]
    ends where the entry at position [k] starts. *)
Lemma sweep_next (z : ZipFile) k m j y :
  let order := ZipFile.sorted_filelist (filelist z) in
  order !! k = Some m → order !! S k = Some j →
  filelist (ZipFile.sweep z) !! j = Some y →
  ∃ xm, filelist z !! m = Some xm ∧ _end_offset y = Some (header_offset xm).
Proof.
  intros order Hm Hj Hy. simpl in Hy. fold order in Hy.
  destruct (assign_end_offsets_spec order (start_dir z) (filelist z))
    as (_ & _ & _ & Hnx).
  { apply sorted_filelist_NoDup. }
  { intros ?. apply sorted_filelist_elem. }
  pose proof (Hnx k m j Hm Hj) as He.
  unfold end_of, hdr_of in He. rewrite Hy in He. simpl in He.
  assert (is_Some (filelist z !! m)) as [xm Hxm].
  { apply lookup_lt_is_Some_2, sorted_filelist_elem.
    by eapply list_elem_of_lookup_2. }
  rewrite Hxm in He. by exists xm.
Qed.

(** An entry met later in the sorted order ends at or below the start of
    every entry met before it. *)
Lemma sweep_later_below (z : ZipFile) ki kj i j x y ey :
  let order := ZipFile.sorted_filelist (filelist z) in
  (ki < kj)%nat → order !! ki = Some i → order !! kj = Some j →
  filelist z !! i = Some x →
  filelist (ZipFile.sweep z) !! j = Some y → _end_offset y = Some ey →
  ey ≤ header_offset x.
Proof.
  intros order Hk Hi Hj Hx Hy Hey.
  destruct kj as [|k]; [lia|].
  destruct (lookup_lt_is_Some_2 order k) as [m Hm].
  { apply lookup_lt_Some in Hj. lia. }
  destruct (sweep_next z k m j y Hm Hj Hy) as (xm & Hxm & He).
  assert (ey = header_offset xm) as -> by congruence.
  destruct (decide (k = ki)) as [->|Hne].
  - fold order in Hm. by simplify_eq.
  - eapply (sorted_filelist_descending (filelist z) ki k i m); eauto. lia.
Qed.

Lemma sweep_header_offsets (z : ZipFile) :
  header_offset <$> filelist (ZipFile.sweep z) = header_offset <$> filelist z.
Proof.
  destruct (assign_end_offsets_spec (ZipFile.sorted_filelist (filelist z))
              (start_dir z) (filelist z)) as (Hsame & _).
  { apply sorted_filelist_NoDup. }
  { intros ?. apply sorted_filelist_elem. }
  apply (f_equal (fmap header_offset)) in Hsame.
  by rewrite <- !list_fmap_compose in Hsame.
Qed.

Lemma sweep_start_dir (z : ZipFile) : start_dir (ZipFile.sweep z) = start_dir z.
Proof. done. Qed.

(** What the sweep leaves, for a directory whose header offsets are
    distinct and lie before the directory. *)
Lemma sweep_spec (z : ZipFile) :
  NoDup (header_offset <$> filelist z) →
  (∀ x, x ∈ filelist z → header_offset x < start_dir z) →
  let z' := ZipFile.sweep z in
  (∀ i x, filelist z' !! i = Some x →
     ∃ e, _end_offset x = Some e ∧ header_offset x < e
          ∧ (e = start_dir z ∨ e ∈ header_offset <$> filelist z)) ∧
  (∀ i j x y ex ey, i ≠ j →
     filelist z' !! i = Some x → filelist z' !! j = Some y →
     _end_offset x = Some ex → _end_offset y = Some ey →
     ey ≤ header_offset x ∨ ex ≤ header_offset y).
Proof.
  intros Hnd Hlt z'.
  set (order := ZipFile.sorted_filelist (filelist z)).
  destruct (assign_end_offsets_spec order (start_dir z) (filelist z))
    as (Hsame & _ & Hhd & _).
  { apply sorted_filelist_NoDup. }
  { intros ?. apply sorted_filelist_elem. }
  assert (Hpos : ∀ i x, filelist z' !! i = Some x →
            ∃ k x0, order !! k = Some i ∧ filelist z !! i = Some x0
                    ∧ header_offset x0 = header_offset x).
  { intros i x Hx.
    destruct (same_header_offset _ _ i x Hsame Hx) as (x0 & Hx0 & Hh).
    assert (i ∈ order) as [k Hk]%list_elem_of_lookup_1.
    { apply sorted_filelist_elem. by eapply lookup_lt_Some. }
    by exists k, x0. }
  split.
  - intros i x Hx.
    destruct (Hpos i x Hx) as (k & x0 & Hk & Hx0 & Hh).
    destruct k as [|k].
    + exists (start_dir z). split_and!; [| |by left].
      * pose proof (Hhd i Hk) as He. unfold end_of in He.
        simpl in Hx. fold order in Hx. by rewrite Hx in He.
      * rewrite <- Hh. apply Hlt. by eapply list_elem_of_lookup_2.
    + destruct (lookup_lt_is_Some_2 order k) as [m Hm].
      { apply lookup_lt_Some in Hk. lia. }
      destruct (sweep_next z k m i x Hm Hk Hx) as (xm & Hxm & He).
      exists (header_offset xm). split_and!; [done| |].
      2:{ right. rewrite list_elem_of_fmap. exists xm. split; [done|].
          by eapply list_elem_of_lookup_2. }
      assert (header_offset x0 ≤ header_offset xm).
      { eapply (sorted_filelist_descending (filelist z) k (S k) m i);
          eauto. }
      assert (header_offset x0 ≠ header_offset xm); [|lia].
      intros Heq.
      assert (i = m); [|subst m].
      { eapply (NoDup_lookup (header_offset <$> filelist z));
          [done| rewrite list_lookup_fmap ..].
        - by rewrite Hx0.
        - by rewrite Hxm, Heq. }
      pose proof (NoDup_lookup _ _ _ _ (sorted_filelist_NoDup (filelist z))
                    Hm Hk). lia.
  - intros i j x y ex ey Hij Hx Hy Hex Hey.
    destruct (Hpos i x Hx) as (ki & x0 & Hki & Hx0 & Hhx).
    destruct (Hpos j y Hy) as (kj & y0 & Hkj & Hy0 & Hhy).
    rewrite <- Hhx, <- Hhy.
    destruct (Nat.lt_total ki kj) as [Hlt'|[->|Hlt']].
    + left. by eapply (sweep_later_below z ki kj i j).
    + fold order in Hki. simplify_eq.
    + right. by eapply (sweep_later_below z kj ki j i).
Qed.

(** The sweep keeps every entry at its place in the list and changes
    nothing of it but the end offset, which it sets. *)
Lemma sweep_keeps (z : ZipFile) i x :
  filelist z !! i = Some x →
  ∃ e, filelist (ZipFile.sweep z) !! i
       = Some (ZipInfo.set__end_offset (Some e) x).
Proof.
  intros Hx. set (order := ZipFile.sorted_filelist (filelist z)).
  destruct (assign_end_offsets_spec order (start_dir z) (filelist z))
    as (Hsame & _ & Hhd & Hnx).
  { apply sorted_filelist_NoDup. }
  { intros ?. apply sorted_filelist_elem. }
  change (ZipFile.assign_end_offsets order (start_dir z) (filelist z))
    with (filelist (ZipFile.sweep z)) in *.
  assert (∃ x', filelist (ZipFile.sweep z) !! i = Some x'
                ∧ ZipInfo.set__end_offset None x'
                  = ZipInfo.set__end_offset None x) as (x' & Hx' & Heq).
  { apply (f_equal (λ l, l !! i)) in Hsame.
    rewrite !list_lookup_fmap, Hx in Hsame.
    destruct (filelist (ZipFile.sweep z) !! i) as [x'|]; [|done].
    exists x'. split; [done|]. by apply (inj Some). }
  assert (∃ e, _end_offset x' = Some e) as [e He].
  { assert (i ∈ order) as [k Hk]%list_elem_of_lookup_1.
    { apply sorted_filelist_elem. by eapply lookup_lt_Some. }
    destruct k as [|k].
    - pose proof (Hhd i Hk) as He. unfold end_of in He.
      rewrite Hx' in He. eauto.
    - destruct (lookup_lt_is_Some_2 order k) as [m Hm].
      { apply lookup_lt_Some in Hk. lia. }
      pose proof (Hnx k m i Hm Hk) as He. unfold end_of, hdr_of in He.
      rewrite Hx' in He.
      destruct (lookup_lt_is_Some_2 (filelist z) m) as [xm Hxm].
      { apply sorted_filelist_elem. by eapply list_elem_of_lookup_2. }
      rewrite Hxm in He. eauto. }
  exists e. rewrite Hx'. f_equal.
  destruct x', x. unfold ZipInfo.set__end_offset in *. simpl in *.
  congruence.
Qed.

Lemma sweep_length (z : ZipFile) :
  length (filelist (ZipFile.sweep z)) = length (filelist z).
Proof.
  destruct (assign_end_offsets_spec (ZipFile.sorted_filelist (filelist z))
              (start_dir z) (filelist z)) as (Hsame & _).
  { apply sorted_filelist_NoDup. }
  { intros ?. apply sorted_filelist_elem. }
  apply (f_equal length) in Hsame. by rewrite !length_fmap in Hsame.
Qed.

(** Where the sorted order meets an entry of the swept list. *)
Lemma sweep_position (z : ZipFile) i x :
  filelist (ZipFile.sweep z) !! i = Some x →
  ∃ k x0, ZipFile.sorted_filelist (filelist z) !! k = Some i
          ∧ filelist z !! i = Some x0
          ∧ header_offset x0 = header_offset x.
Proof.
  intros Hx.
  destruct (lookup_lt_is_Some_2 (filelist z) i) as [x0 Hx0].
  { rewrite <- sweep_length. by eapply lookup_lt_Some. }
  destruct (sweep_keeps z i x0 Hx0) as [e He].
  assert (i ∈ ZipFile.sorted_filelist (filelist z))
    as [k Hk]%list_elem_of_lookup_1.
  { apply sorted_filelist_elem. by eapply lookup_lt_Some. }
  exists k, x0. split_and!; [done|done|].
  rewrite Hx in He. by injection He as ->.
Qed.

(** The entry that the sorted order meets first ends where the
    directory starts. *)
Lemma sweep_first (z : ZipFile) i x :
  ZipFile.sorted_filelist (filelist z) !! 0%nat = Some i →
  filelist (ZipFile.sweep z) !! i = Some x →
  _end_offset x = Some (start_dir z).
Proof.
  intros Hi Hx.
  destruct (assign_end_offsets_spec (ZipFile.sorted_filelist (filelist z))
              (start_dir z) (filelist z)) as (_ & _ & Hhd & _).
  { apply sorted_filelist_NoDup. }
  { intros ?. apply sorted_filelist_elem. }
  pose proof (Hhd i Hi) as He. unfold end_of in He.
  change (ZipFile.assign_end_offsets _ _ _)
    with (filelist (ZipFile.sweep z)) in He.
  by rewrite Hx in He.
Qed.

(** The intervals from header offset to end offset of two entries of
    the swept list never overlap. *)
Lemma sweep_disjoint (z : ZipFile) i j x y ex ey :
  i ≠ j →
  filelist (ZipFile.sweep z) !! i = Some x →
  filelist (ZipFile.sweep z) !! j = Some y →
  _end_offset x = Some ex → _end_offset y = Some ey →
  ey ≤ header_offset x ∨ ex ≤ header_offset y.
Proof.
  intros Hij Hx Hy Hex Hey.
  destruct (sweep_position z i x Hx) as (ki & x0 & Hki & Hx0 & Hhx).
  destruct (sweep_position z j y Hy) as (kj & y0 & Hkj & Hy0 & Hhy).
  rewrite <- Hhx, <- Hhy.
  destruct (Nat.lt_total ki kj) as [Hlt'|[->|Hlt']].
  - left. by eapply (sweep_later_below z ki kj i j).
  - simplify_eq.
  - right. by eapply (sweep_later_below z kj ki j i).
Qed.

(** Every end offset lies above its header offset exactly when the
    header offsets are distinct and lie before the directory. *)
Lemma sweep_strict (z : ZipFile) :
  (∀ x e, x ∈ filelist (ZipFile.sweep z) → _end_offset x = Some e →
          header_offset x < e)
  ↔ NoDup (header_offset <$> filelist z)
    ∧ ∀ x, x ∈ filelist z → header_offset x < start_dir z.
Proof.
  split.
  - intros Hstrict.
    assert (Hswept : ∀ i x, filelist z !! i = Some x →
              ∃ e, filelist (ZipFile.sweep z) !! i
                   = Some (ZipInfo.set__end_offset (Some e) x)
                   ∧ header_offset x < e).
    { intros i x Hx. destruct (sweep_keeps z i x Hx) as [e He].
      exists e. split; [done|].
      apply (Hstrict (ZipInfo.set__end_offset (Some e) x) e);
        [by eapply list_elem_of_lookup_2|done]. }
    split.
    + apply NoDup_alt. intros i j h Hi Hj.
      rewrite list_lookup_fmap in Hi, Hj.
      destruct (filelist z !! i) as [x|] eqn:Hx; [|done].
      destruct (filelist z !! j) as [y|] eqn:Hy; [|done].
      simpl in Hi, Hj. simplify_eq.
      destruct (decide (i = j)) as [|Hij]; [done|exfalso].
      destruct (Hswept i x Hx) as (ex & Hx' & Hltx).
      destruct (Hswept j y Hy) as (ey & Hy' & Hlty).
      destruct (sweep_disjoint z i j _ _ ex ey Hij Hx' Hy' eq_refl eq_refl)
        as [Hle|Hle]; simpl in Hle; lia.
    + intros x [i Hx]%list_elem_of_lookup_1.
      set (order := ZipFile.sorted_filelist (filelist z)).
      assert (i ∈ order) as [k Hk]%list_elem_of_lookup_1.
      { apply sorted_filelist_elem. by eapply lookup_lt_Some. }
      destruct (lookup_lt_is_Some_2 order 0) as [i0 Hi0].
      { apply lookup_lt_Some in Hk. lia. }
      destruct (lookup_lt_is_Some_2 (filelist z) i0) as [x0 Hx0].
      { apply sorted_filelist_elem. by eapply list_elem_of_lookup_2. }
      destruct (Hswept i0 x0 Hx0) as (e0 & Hx0' & Hlt0).
      pose proof (sweep_first z i0 _ Hi0 Hx0') as He0. simpl in He0.
      injection He0 as ->.
      destruct k as [|k].
      * fold order in Hi0. by simplify_eq.
      * assert (header_offset x ≤ header_offset x0); [|lia].
        eapply (sorted_filelist_descending (filelist z) 0 (S k) i0 i);
          eauto. lia.
  - intros [Hnd Hlt] x e [i Hx]%list_elem_of_lookup_1 He.
    destruct (sweep_spec z Hnd Hlt) as [Hs _].
    destruct (Hs i x Hx) as (e' & He' & Hlt' & _). congruence.
Qed.

(** * Reasoning about computations *)

Lemma bind_Return {S A B} (m : M S A) (f : A → M S B) s b s' :
  (m ≫= f) s = Return b s' ↔ ∃ a s1, m s = Return a s1 ∧ f a s1 = Return b s'.
Proof.
  unfold mbind, M_bind. destruct (m s) as [a s1|e s1]; simpl; split.
  - eauto.
  - by intros (? & ? & [= <- <-] & ?).
  - done.
  - by intros (? & ? & ? & ?).
Qed.

Lemma bind_Raise {S A B} (m : M S A) (f : A → M S B) s e s' :
  (m ≫= f) s = Raise e s' ↔
  m s = Raise e s' ∨ ∃ a s1, m s = Return a s1 ∧ f a s1 = Raise e s'.
Proof.
  unfold mbind, M_bind. destruct (m s) as [a s1|e1 s1]; simpl; split.
  - intros. right. eauto.
  - by intros [?|(? & ? & [= <- <-] & ?)].
  - intros [= -> ->]. by left.
  - by intros [[= -> ->]|(? & ? & ? & ?)].
Qed.

Lemma bind_ext {S A B} (m : M S A) (f g : A → M S B) s :
  (∀ a s1, f a s1 = g a s1) → (m ≫= f) s = (m ≫= g) s.
Proof. intros Hfg. unfold mbind, M_bind. by destruct (m s). Qed.

Lemma byte_val_range (b : byte) : 0 ≤ byte_val b < 256.
Proof.
  unfold byte_val. pose proof (Byte.to_N_bounded b) as Hb. lia.
Qed.

Lemma le_uint_nonneg (bs : bytes) : 0 ≤ le_uint bs.
Proof.
  induction bs as [|b bs IH]; simpl; [done|].
  pose proof (byte_val_range b). lia.
Qed.

Lemma field_nonneg (lo n : Z) (data : bytes) : 0 ≤ field lo n data.
Proof. apply le_uint_nonneg. Qed.

Lemma stable_bind {S A B} (I : S → Prop) (m : M S A) (f : A → M S B) :
  stable I m → (∀ a, stable I (f a)) → stable I (m ≫= f).
Proof.
  intros Hm Hf s Hs. specialize (Hm s Hs). unfold mbind, M_bind.
  destruct (m s) as [a s1|e s1]; simpl in *; [by apply Hf | done].
Qed.

Lemma stable_mret {S A} (I : S → Prop) (a : A) : stable I (mret a).
Proof. by intros s Hs. Qed.

Lemma stable_raise {S A} (I : S → Prop) e : stable I (@raise S A e).
Proof. by intros s Hs. Qed.

Lemma stable_modify {S} (I : S → Prop) (f : S → S) :
  (∀ s, I s → I (f s)) → stable I (modify f).
Proof. intros Hf s Hs. by apply Hf. Qed.

(** Unfold the monad operations in the goal and in the hypotheses. *)
Ltac unfold_M :=
  cbv beta iota delta [mbind M_bind mret M_ret raise get modify zoom try_except
                  ZipExtFile.self ZipExtFile.update ZipExtFile.on_fileobj
                  _SharedFile.self _SharedFile.update _SharedFile.on_file
                  ZipFile.self ZipFile.update ZipFile.on_fp] in *.

Section RealGetContents.
Context `{Platform}.
Lemma RealGetContents_sweep w w' :
  ZipFile._RealGetContents w = Return () w' →
  ∃ z, w'.2 = ZipFile.sweep z ∧ start_dir z = start_dir w'.2.
Proof.
  unfold ZipFile._RealGetContents. intros Hr.
  apply bind_Return in Hr as (z & w1 & Hz & Hr).
  apply bind_Return in Hr as (endrec & w2 & He & Hr).
  destruct endrec as [endrec|]; [|done].
  apply bind_Return in Hr as ([] & w3 & H3 & Hr).
  case_match; [done|].
  apply bind_Return in Hr as (? & w4 & H4 & Hr).
  apply bind_Return in Hr as (data & w5 & H5 & Hr).
  apply bind_Return in Hr as ([] & w6 & H6 & Hr).
  unfold ZipFile.update, modify in Hr. simplify_eq/=. eauto.
Qed.
End RealGetContents.

Lemma len_take {A} (n : nat) (l : list A) :
  len (take n l) = Z.min (Z.of_nat n) (len l).
Proof. unfold len. rewrite length_take. lia. Qed.

Lemma len_drop {A} (n : nat) (l : list A) :
  len (drop n l) = Z.max 0 (len l - Z.of_nat n).
Proof. unfold len. rewrite length_drop. lia. Qed.

Lemma len_slice_to {A} (k : Z) (l : list A) :
  0 ≤ k → len (slice_to k l) = Z.min k (len l).
Proof. intros. rewrite slice_to_nonneg, len_take by done. lia. Qed.

Lemma len_slice_from {A} (k : Z) (l : list A) :
  0 ≤ k → len (slice_from k l) = Z.max 0 (len l - k).
Proof. intros. rewrite slice_from_nonneg, len_drop by done. lia. Qed.

Lemma len_slice {A} (a b : Z) (l : list A) :
  0 ≤ a → a ≤ b → len (slice a b l) = Z.max 0 (Z.min b (len l) - a).
Proof.
  intros. rewrite slice_nonneg, len_take, len_drop by done. lia.
Qed.

Lemma slice_to_slice {A} (k : Z) (l : list A) :
  0 ≤ k → slice_to k l = slice 0 k l.
Proof.
  intros. rewrite slice_to_nonneg, slice_nonneg by lia.
  by rewrite Z.sub_0_r.
Qed.

Lemma slice_to_from {A} (a k : Z) (l : list A) :
  0 ≤ a → 0 ≤ k → slice_to k (slice_from a l) = slice a (a + k) l.
Proof.
  intros. rewrite slice_to_nonneg, slice_from_nonneg, slice_nonneg by lia.
  do 2 f_equal. lia.
Qed.

Lemma slice_from_from {A} (a b : Z) (l : list A) :
  0 ≤ a → 0 ≤ b → slice_from a (slice_from b l) = slice_from (b + a) l.
Proof.
  intros. rewrite !slice_from_nonneg by lia. rewrite drop_drop.
  f_equal. lia.
Qed.

Lemma slice_to_app_len {A} (k : Z) (l t : list A) :
  len l = k → slice_to k (l ++ t) = l.
Proof.
  intros <-. rewrite slice_to_nonneg by apply len_nonneg.
  apply take_app_length'. unfold len. lia.
Qed.

Lemma slice_from_app_len {A} (k : Z) (l t : list A) :
  len l = k → slice_from k (l ++ t) = t.
Proof.
  intros <-. rewrite slice_from_nonneg by apply len_nonneg.
  apply drop_app_length'. unfold len. lia.
Qed.

Lemma slice_app_mid {A} (a b : Z) (h l t : list A) :
  len h = a → a + len l = b → slice a b (h ++ l ++ t) = l.
Proof.
  intros <- <-. pose proof (len_nonneg h). pose proof (len_nonneg l).
  rewrite slice_nonneg by lia.
  rewrite drop_app_length' by (unfold len; lia).
  apply take_app_length'. unfold len. lia.
Qed.

Section decodeExtra.
Context `{Platform}.

Lemma decode_zip64_spec (data : bytes) (x : ZipInfo) :
  match zip64_missing x data with
  | Some fld =>
      raised (ZipInfo.decode_zip64 data x)
      = Some (BadZipFile (Corrupt_zip64_extra_field fld))
  | None => ZipInfo.decode_zip64 data x = Return () (zip64_override x data)
  end.
Proof.
  pose proof (len_nonneg data) as Hlen.
  unfold zip64_missing, ZipInfo.decode_zip64, zip64_override, zip64_value.
  destruct x as [on fn cm ex ev fb crc cs fs ho eo].
  unfold_M. unfold ZipInfo.unpack_Q. unfold_M.
  unfold zip64_present, zip64_flagged, zip64_at, flagged_file_size,
    flagged_compress_size, flagged_header_offset,
    ZipInfo.set_file_size, ZipInfo.set_compress_size,
    ZipInfo.set_header_offset. simpl.
  destruct (bool_decide (fs = 18446744073709551615)) eqn:E1,
    (bool_decide (fs = 4294967295)) eqn:E2,
    (bool_decide (cs = 4294967295)) eqn:E3,
    (bool_decide (ho = 4294967295)) eqn:E4; simpl;
  repeat (first
    [ progress (rewrite ?E1, ?E2, ?E3, ?E4)
    | progress (rewrite ?slice_to_from, ?slice_from_from,
                  ?(slice_to_slice 8), ?len_slice by lia)
    | match goal with
      | |- context [?a <=? ?b] => destruct (Z.leb_spec a b); try lia
      | |- context [?a =? ?b] => destruct (Z.eqb_spec a b); try lia
      end
    | progress simpl ]); done.
Qed.

Lemma decodeExtra_loop_fuel filename_crc : ∀ n m extra x,
  (length extra ≤ n)%nat → (length extra ≤ m)%nat →
  ZipInfo._decodeExtra_loop n filename_crc extra x
  = ZipInfo._decodeExtra_loop m filename_crc extra x.
Proof.
  induction n as [|n IH]; intros m extra x Hn Hm.
  - destruct extra; [|simpl in Hn; lia]. by destruct m.
  - simpl. destruct (Z.geb_spec (len extra) 4) as [H4|H4].
    2:{ destruct m; simpl; destruct (Z.geb_spec (len extra) 4); done || lia. }
    destruct m as [|m]; [unfold len in H4; lia|]. simpl.
    destruct (Z.geb_spec (len extra) 4); [|lia].
    case_match; [done|].
    apply bind_ext. intros [] x'.
    set (ln := field 2 2 (slice_to 4 extra)) in *.
    assert (0 ≤ ln) by apply field_nonneg.
    assert (len (slice_from (ln + 4) extra) ≤ len extra - 4)
      by (rewrite len_slice_from; lia).
    unfold len in *. apply IH; lia.
Qed.

Lemma decodeExtra_loop_terminates filename_crc : ∀ n extra x,
  (length extra ≤ n)%nat →
  raised (ZipInfo._decodeExtra_loop n filename_crc extra x) ≠ Some Diverged.
Proof.
  induction n as [|n IH]; intros extra x Hn.
  - destruct extra; [done|simpl in Hn; lia].
  - simpl. destruct (Z.geb_spec (len extra) 4) as [H4|H4]; [|done].
    case_match; [done|].
    set (ln := field 2 2 (slice_to 4 extra)) in *.
    assert (0 ≤ ln) by apply field_nonneg.
    assert (len (slice_from (ln + 4) extra) ≤ len extra - 4)
      by (rewrite len_slice_from; lia).
    unfold mbind at 1, M_bind at 1.
    destruct (_ x) as [[] x'|e x'] eqn:Hbranch.
    + apply IH. unfold len in *. lia.
    + simpl. intros [= ->]. revert Hbranch.
      repeat case_match; try done.
      * pose proof (decode_zip64_spec (slice 4 (ln + 4) extra) x) as Hs.
        intros Hb. rewrite Hb in Hs. by case_match.
      * unfold ZipInfo.decode_unicode_path. unfold_M.
        by repeat case_match.
Qed.

Theorem decodeExtra_terminates filename_crc x :
  raised (ZipInfo._decodeExtra filename_crc x) ≠ Some Diverged.
Proof. by apply decodeExtra_loop_terminates. Qed.

(** One turn of the loop, on a whole record. *)
Lemma decodeExtra_loop_record filename_crc tp h data rest n x :
  extra_record tp h data → (length (h ++ data ++ rest) ≤ n)%nat →
  ZipInfo._decodeExtra_loop n filename_crc (h ++ data ++ rest) x
  = ((if tp =? 1 then ZipInfo.decode_zip64 data
      else if tp =? 0x7075
      then ZipInfo.decode_unicode_path filename_crc data
      else mret ());;
     ZipInfo._decodeExtra_loop (length rest) filename_crc rest) x.
Proof.
  intros (Hh & Htp & Hln) Hn.
  pose proof (len_nonneg data). pose proof (len_nonneg rest).
  assert (Hlen : len (h ++ data ++ rest) = 4 + len data + len rest).
  { rewrite !len_app. lia. }
  destruct n as [|n]; [unfold len in Hlen; lia|].
  simpl. destruct (Z.geb_spec (len (h ++ data ++ rest)) 4); [|lia].
  assert (length rest ≤ n)%nat.
  { rewrite !length_app in Hn. unfold len in Hh. lia. }
  rewrite (slice_to_app_len 4 h (data ++ rest)) in * by done.
  rewrite Htp, Hln.
  destruct (Z.gtb_spec (len data + 4) (len (h ++ data ++ rest))); [lia|].
  rewrite (slice_app_mid 4 (len data + 4)) by lia.
  rewrite (app_assoc h data rest).
  rewrite (slice_from_app_len (len data + 4)) by (rewrite len_app; lia).
  apply bind_ext. intros [] x'. by apply decodeExtra_loop_fuel.
Qed.

Lemma decodeExtra_record filename_crc tp h data rest x :
  extra x = h ++ data ++ rest → extra_record tp h data →
  ZipInfo._decodeExtra filename_crc x
  = ((if tp =? 1 then ZipInfo.decode_zip64 data
      else if tp =? 0x7075
      then ZipInfo.decode_unicode_path filename_crc data
      else mret ());;
     ZipInfo._decodeExtra_loop (length rest) filename_crc rest) x.
Proof.
  intros Hex Hrec. unfold ZipInfo._decodeExtra.
  unfold get, mbind at 1, M_bind at 1. rewrite Hex.
  by apply decodeExtra_loop_record.
Qed.

(** The loop on whole records followed by more bytes is the loop on
    the records, then the loop on the bytes that follow. *)
Lemma decodeExtra_loop_app filename_crc pre :
  whole_records pre → ∀ tail n x,
  (length (pre ++ tail) ≤ n)%nat →
  ZipInfo._decodeExtra_loop n filename_crc (pre ++ tail) x
  = (ZipInfo._decodeExtra_loop (length pre) filename_crc pre;;
     ZipInfo._decodeExtra_loop (length tail) filename_crc tail) x.
Proof.
  induction 1 as [|tp h data rest Hrec _ IH]; intros tail n x Hn.
  - simpl in *. unfold mbind, M_bind. simpl.
    by apply decodeExtra_loop_fuel.
  - rewrite <- !app_assoc in *.
    rewrite (decodeExtra_loop_record _ tp h data (rest ++ tail)) by done.
    unfold mbind, M_bind.
    rewrite (decodeExtra_loop_record _ tp h data rest) by done.
    unfold mbind, M_bind.
    match goal with
    | |- match ?b with _ => _ end = _ => destruct b as [[] x'|e x']
    end; [|done].
    by apply IH.
Qed.

(** [_decodeExtra] on an extra field that holds the record [h ++ data]
    after whole records [pre], which the loop decodes without error and
    which leave the entry as [x1]. *)
Lemma decodeExtra_meets filename_crc tp pre h data rest x x1 :
  extra x = pre ++ h ++ data ++ rest → whole_records pre →
  ZipInfo._decodeExtra_loop (length pre) filename_crc pre x = Return () x1 →
  extra_record tp h data →
  ZipInfo._decodeExtra filename_crc x
  = ((if tp =? 1 then ZipInfo.decode_zip64 data
      else if tp =? 0x7075
      then ZipInfo.decode_unicode_path filename_crc data
      else mret ());;
     ZipInfo._decodeExtra_loop (length rest) filename_crc rest) x1.
Proof.
  intros Hex Hpre Hx1 Hrec. unfold ZipInfo._decodeExtra.
  unfold get, mbind at 1, M_bind at 1. rewrite Hex.
  rewrite decodeExtra_loop_app by done.
  unfold mbind at 1, M_bind at 1. rewrite Hx1.
  by apply decodeExtra_loop_record.
Qed.


Lemma field_slice_to (lo n k : Z) (data : bytes) :
  0 ≤ lo → 0 ≤ n → lo + n ≤ k →
  field lo n (slice_to k data) = field lo n data.
Proof.
  intros. unfold field. f_equal.
  rewrite slice_to_nonneg, !slice_nonneg by lia.
  rewrite Z.add_simpl_l.
  rewrite !take_drop_commute, take_take. f_equal. f_equal. lia.
Qed.

Lemma decode_unicode_path_spec filename_crc data x :
  match unicode_path_outcome filename_crc data with
  | Up_corrupt =>
      ZipInfo.decode_unicode_path filename_crc data x
      = Raise (BadZipFile Corrupt_unicode_path) x
  | Up_invalid_utf8 =>
      ZipInfo.decode_unicode_path filename_crc data x
      = Raise (BadZipFile Corrupt_unicode_path_invalid_utf8) x
  | Up_replace name =>
      ZipInfo.decode_unicode_path filename_crc data x
      = Return () (ZipInfo.set_filename (_sanitize_filename name) x)
  | Up_keep => ZipInfo.decode_unicode_path filename_crc data x = Return () x
  end.
Proof.
  pose proof (len_nonneg data).
  unfold unicode_path_outcome, ZipInfo.decode_unicode_path.
  rewrite len_slice_to by lia.
  destruct (Z.ltb_spec (len data) 5).
  { rewrite bool_decide_true by lia. done. }
  rewrite bool_decide_false by lia.
  rewrite !field_slice_to by lia.
  destruct (Z.eqb_spec (field 0 1 data) 1) as [->|];
    [rewrite bool_decide_true by done | by rewrite bool_decide_false].
  destruct (Z.eqb_spec (field 1 4 data) filename_crc) as [->|];
    [rewrite bool_decide_true by done | by rewrite bool_decide_false].
  simpl. destruct (decode_utf8 _) as [name|]; [|done].
  destruct (decide (name = [])) as [->|].
  - by rewrite bool_decide_true, bool_decide_false by auto.
  - by rewrite bool_decide_false, bool_decide_true.
Qed.

(** Claim C10, amended.  Wherever the loop of [_decodeExtra] meets a
    Unicode-path record (type 0x7075) in the extra field, after whole
    records [pre] that it has decoded without error and that leave the
    entry as [x1]: shorter than 5 bytes, the record is corrupt; with
    version byte 1 and a CRC equal to that of the name in the header,
    its name is decoded as UTF-8, an invalid encoding is an error, and
    a name that is not empty replaces the file name after sanitizing;
    in every other case (another version, another CRC, an empty name)
    the file name is kept and nothing is raised, and the loop goes on
    with the rest of the extra field. *)
Theorem unicode_path_record filename_crc pre h data rest x x1 :
  extra x = pre ++ h ++ data ++ rest → whole_records pre →
  ZipInfo._decodeExtra_loop (length pre) filename_crc pre x = Return () x1 →
  extra_record 0x7075 h data →
  match unicode_path_outcome filename_crc data with
  | Up_corrupt =>
      raised (ZipInfo._decodeExtra filename_crc x)
      = Some (BadZipFile Corrupt_unicode_path)
  | Up_invalid_utf8 =>
      raised (ZipInfo._decodeExtra filename_crc x)
      = Some (BadZipFile Corrupt_unicode_path_invalid_utf8)
  | Up_replace name =>
      ZipInfo._decodeExtra filename_crc x
      = ZipInfo._decodeExtra_loop (length rest) filename_crc rest
          (ZipInfo.set_filename (_sanitize_filename name) x1)
  | Up_keep =>
      ZipInfo._decodeExtra filename_crc x
      = ZipInfo._decodeExtra_loop (length rest) filename_crc rest x1
  end.
Proof.
  intros Hex Hpre Hx1 Hrec.
  rewrite (decodeExtra_meets _ 0x7075 pre h data rest x x1) by done.
  simpl. pose proof (decode_unicode_path_spec filename_crc data x1) as Hs.
  unfold mbind, M_bind.
  destruct (unicode_path_outcome filename_crc data); by rewrite Hs.
Qed.

End decodeExtra.

(** Claim C10 as stated fails: a record of version 2 with the right CRC
    and a valid name leaves the file name as it was; and a record with
    a stale CRC whose name is not valid UTF-8 raises nothing. *)
Lemma unicode_path_needs_version_1 :
  let crc := CPython.zlib_crc32 name_a 0 in
  (field 1 4 (slice_from 4 unicode_path_v2) = crc
   ∧ CPython.utf8 (slice_from 9 unicode_path_v2) = Some [98%N]
   ∧ ZipInfo._decodeExtra crc (entry_a unicode_path_v2)
     = Return () (entry_a unicode_path_v2)
   ∧ filename (entry_a unicode_path_v2) ≠ _sanitize_filename [98%N])
  ∧ (field 1 4 (slice_from 4 unicode_path_stale) ≠ crc
     ∧ CPython.utf8 (slice_from 9 unicode_path_stale) = None
     ∧ ZipInfo._decodeExtra crc (entry_a unicode_path_stale)
       = Return () (entry_a unicode_path_stale)).
Proof. vm_compute. split_and!; done. Qed.

#[local] Set Warnings "-clear-no-such-hyp".

Lemma BinaryFile_seek_end f offset :
  can_seek f = true →
  BinaryFile.seek offset 2 f =
    if len (content f) + offset <? 0 then Raise OSError f
    else Return (len (content f) + offset)
           (BinaryFile.set_position (len (content f) + offset) f).
Proof. intros Hs. unfold BinaryFile.seek. by rewrite Hs. Qed.

Lemma BinaryFile_read_at f p n :
  0 ≤ p → 0 ≤ n →
  BinaryFile.read n (BinaryFile.set_position p f) =
    Return (slice p (p + n) (content f))
      (BinaryFile.set_position (p + len (slice p (p + n) (content f))) f).
Proof.
  intros Hp Hn. unfold BinaryFile.read. simpl.
  destruct (Z.ltb_spec n 0); [lia|].
  by rewrite slice_to_from by done.
Qed.

(** Case analysis on every test of a computation, then arithmetic. *)
(** Reduce the reads of a record of fixed size. *)
Ltac reduce_read :=
  cbv beta iota delta [negb BinaryFile.read];
  change (sizeEndCentDir64Locator <? 0) with false;
  change (sizeEndCentDir64 <? 0) with false;
  cbv beta iota;
  cbn [position content BinaryFile.set_position can_seek is_closed].

Ltac settle :=
  repeat (case_match || case_bool_decide); simplify_eq/=;
  rewrite ?orb_true_iff, ?orb_false_iff, ?andb_true_iff, ?andb_false_iff,
    ?bool_decide_eq_true, ?bool_decide_eq_false,
    ?Z.gtb_gt, ?Z.ltb_lt, ?Z.ltb_ge, ?Z.leb_le, ?Z.leb_gt,
    ?Z.eqb_eq, ?Z.eqb_neq in *;
  try done; try lia; try (by eauto); try (naive_solver lia).

Section EndRecData64.

Variables (f : BinaryFile) (offset : Z) (endrec : EndRec).
Hypothesis seekable : can_seek f = true.

Let p1 := locator_at (len (content f)) offset.
Let p2 := zip64_eocd_at (len (content f)) offset.
Let loc := slice p1 (p1 + sizeEndCentDir64Locator) (content f).
Let rec64 := slice p2 (p2 + sizeEndCentDir64) (content f).

Lemma EndRecData64_unfold :
  _EndRecData64 offset endrec f =
    if p1 <? 0 then Return endrec f else
    let f1 := BinaryFile.set_position (p1 + len loc) f in
    if bool_decide (len loc ≠ sizeEndCentDir64Locator)
    then Return endrec f1 else
    if bool_decide (slice 0 4 loc ≠ stringEndArchive64Locator)
    then Return endrec f1 else
    if bool_decide (field 4 4 loc ≠ 0) || (field 16 4 loc >? 1)
    then Raise (BadZipFile Multiple_disks) f1 else
    if p2 <? 0 then Raise OSError f1 else
    let f2 := BinaryFile.set_position (p2 + len rec64) f in
    if bool_decide (len rec64 ≠ sizeEndCentDir64) then Return endrec f2 else
    if bool_decide (slice 0 4 rec64 ≠ stringEndArchive64)
    then Return endrec f2 else
    Return (overwrite_endrec (slice 0 4 rec64) (field 16 4 rec64)
              (field 20 4 rec64) (field 24 8 rec64) (field 32 8 rec64)
              (field 40 8 rec64) (field 48 8 rec64) endrec) f2.
Proof.
  unfold _EndRecData64. unfold_M.
  rewrite BinaryFile_seek_end by done.
  replace (len (content f) + (offset - sizeEndCentDir64Locator)) with p1
    by (unfold p1, locator_at; lia).
  destruct (Z.ltb_spec p1 0) as [Hp1|Hp1]; [done|]. reduce_read.
  rewrite !(slice_to_from p1) by (done || unfold sizeEndCentDir64Locator; lia).
  fold loc.
  case_bool_decide; [done|]. case_bool_decide; [done|].
  case_match; [done|].
  rewrite BinaryFile_seek_end by done. reduce_read.
  replace (len (content f)
           + (offset - sizeEndCentDir64Locator - sizeEndCentDir64)) with p2
    by (unfold p2, zip64_eocd_at; lia).
  destruct (Z.ltb_spec p2 0) as [Hp2|Hp2]; [done|]. reduce_read.
  rewrite !(slice_to_from p2) by (done || unfold sizeEndCentDir64; lia).
  fold rec64.
  repeat case_bool_decide; by unfold BinaryFile.set_position.
Qed.

(** The three outcomes the specification names. *)
Lemma EndRecData64_falls_back :
  p1 < 0 ∨ len loc ≠ sizeEndCentDir64Locator
  ∨ slice 0 4 loc ≠ stringEndArchive64Locator
  ∨ (single_disk_locator p1 f ∧ 0 ≤ p2
     ∧ (len rec64 ≠ sizeEndCentDir64
        ∨ slice 0 4 rec64 ≠ stringEndArchive64)) →
  ∃ f', _EndRecData64 offset endrec f = Return endrec f'.
Proof.
  rewrite EndRecData64_unfold. unfold single_disk_locator. fold loc.
  intros [?|[?|[?|((_ & ? & ? & ? & ?) & ? & ?)]]]; settle.
Qed.

Lemma EndRecData64_multiple_disks :
  0 ≤ p1 → len loc = sizeEndCentDir64Locator →
  slice 0 4 loc = stringEndArchive64Locator →
  field 4 4 loc ≠ 0 ∨ field 16 4 loc > 1 →
  raised (_EndRecData64 offset endrec f) = Some (BadZipFile Multiple_disks).
Proof.
  rewrite EndRecData64_unfold. intros ? ? ? Hd. settle.
Qed.

Lemma EndRecData64_overrides :
  single_disk_locator p1 f → 0 ≤ p2 →
  len rec64 = sizeEndCentDir64 → slice 0 4 rec64 = stringEndArchive64 →
  ∃ f', _EndRecData64 offset endrec f =
    Return (overwrite_endrec stringEndArchive64 (field 16 4 rec64)
              (field 20 4 rec64) (field 24 8 rec64) (field 32 8 rec64)
              (field 40 8 rec64) (field 48 8 rec64) endrec) f'.
Proof.
  rewrite EndRecData64_unfold. unfold single_disk_locator. fold loc.
  intros (? & ? & ? & ? & ?) ? ? Hsig. rewrite Hsig. settle.
Qed.

(** The outcome it does not name: a locator in a stream too short to
    hold a zip64 record before it. *)
Lemma EndRecData64_seek_fails :
  single_disk_locator p1 f → p2 < 0 →
  raised (_EndRecData64 offset endrec f) = Some OSError.
Proof.
  rewrite EndRecData64_unfold. unfold single_disk_locator. fold loc.
  intros (? & ? & ? & ? & ?) ?. settle.
Qed.

End EndRecData64.

(** Claim C9 fails in the code.  In a file of 42 bytes made of a
    single-disk zip64 locator and an empty end-of-central-directory
    record, the seek to the zip64 record that the locator announces
    aims before the start of the file; that second seek is not guarded,
    [_EndRecData64] raises [OSError], and [ZipFile(file)] answers that
    the file is not a zip file instead of falling back to the 32-bit
    record, as it does when the 20 bytes before the record are not a
    locator. *)
Theorem EndRecData64_locator_in_short_file :
  (∀ endrec,
     raised (_EndRecData64 (- sizeEndCentDir) endrec
               (BinaryFile.set_position 42 locator_only)) = Some OSError)
  ∧ raised (ZipFile.__init__ (locator_only, new_ZipFile))
    = Some (BadZipFile Not_a_zip_file)
  ∧ raised (ZipFile.__init__ (junk_only, new_ZipFile)) = None.
Proof.
  split; [|by vm_compute].
  intros endrec. apply EndRecData64_seek_fails; [done| |by vm_compute].
  by vm_compute.
Qed.

Ltac elem_cases H :=
  rewrite ?elem_of_cons, ?elem_of_nil in H; destruct_or! H; simplify_eq.

(** ** Shared handles *)

Lemma SharedFile_read_at f h n :
  can_seek f = true → _file h = Some the_stream → 0 ≤ _pos h → 0 ≤ n →
  let data := slice (_pos h) (_pos h + n) (content f) in
  _SharedFile.read n (f, h) =
    Return data (BinaryFile.set_position (_pos h + len data) f,
                 _SharedFile.set__pos (_pos h + len data) h).
Proof.
  intros Hs Hf Hp Hn data. unfold _SharedFile.read. unfold_M. simpl.
  rewrite Hf. simpl. unfold BinaryFile.seek. rewrite Hs. simpl.
  destruct (Z.ltb_spec (_pos h) 0); [lia|]. simpl. rewrite Hf. simpl.
  destruct (Z.ltb_spec n 0); [lia|].
  rewrite slice_to_from by done. fold data. by rewrite Hf.
Qed.

Lemma SharedFile_seek_cur f h offset :
  can_seek f = true → _file h = Some the_stream → 0 ≤ position f + offset →
  _SharedFile.seek offset 1 (f, h) =
    Return (position f + offset)
      (BinaryFile.set_position (position f + offset) f,
       _SharedFile.set__pos (position f + offset) h).
Proof.
  intros Hs Hf Hp. unfold _SharedFile.seek. unfold_M. simpl.
  rewrite Hf. simpl. unfold BinaryFile.seek. rewrite Hs. simpl.
  destruct (Z.ltb_spec (position f + offset) 0); [lia|]. simpl.
  by rewrite Hf.
Qed.

(** ** [open] *)

Section open.
Context `{Platform}.

Lemma SharedFile_read_raises n w e w' :
  _SharedFile.read n w = Raise e w' →
  e ∈ [AttributeError; OSError; UnsupportedOperation].
Proof.
  unfold _SharedFile.read, BinaryFile.seek, BinaryFile.read, BinaryFile.tell.
  unfold_M. intros Hr. settle; repeat constructor.
Qed.

Lemma SharedFile_seek_raises offset whence w e w' :
  _SharedFile.seek offset whence w = Raise e w' →
  e ∈ [AttributeError; OSError; UnsupportedOperation; ValueError Bad_whence].
Proof.
  unfold _SharedFile.seek, BinaryFile.seek, BinaryFile.tell.
  unfold_M. intros Hr. settle; repeat constructor.
Qed.

Lemma check_local_header_raises zinfo w e w' :
  ZipFile.check_local_header zinfo w = Raise e w' →
  e ≠ BadZipFile Overlapped_entries ∧ e ≠ Diverged.
Proof.
  unfold ZipFile.check_local_header, raise. intros Hr.
  apply bind_Raise in Hr as [Hr|(fheader & w1 & _ & Hr)].
  { apply SharedFile_read_raises in Hr. by elem_cases Hr. }
  case_bool_decide; [by simplify_eq|].
  case_bool_decide; [by simplify_eq|].
  apply bind_Raise in Hr as [Hr|(fname & w2 & _ & Hr)].
  { apply SharedFile_read_raises in Hr. by elem_cases Hr. }
  apply bind_Raise in Hr as [Hr|([] & w3 & _ & Hr)].
  { case_bool_decide; [|done].
    apply bind_Raise in Hr as [Hr|(? & ? & _ & Hr)]; [|done].
    apply SharedFile_seek_raises in Hr. by elem_cases Hr. }
  case_bool_decide; [by simplify_eq|].
  case_bool_decide; [by simplify_eq|].
  apply bind_Raise in Hr as [Hr|(fname_str & w4 & _ & Hr)].
  { unfold ZipFile.decode_name, raise in Hr.
    repeat case_match; by simplify_eq. }
  case_bool_decide; by simplify_eq.
Qed.

(** What the body of the [try] does once the local header is
    accepted. *)
Lemma open_entry_after_header zinfo w f h :
  ZipFile.check_local_header zinfo w = Return () (f, h) →
  ZipFile.open_entry zinfo w =
    if overlaps zinfo (_pos h)
    then Raise (BadZipFile Overlapped_entries) (f, h)
    else if bool_decide (Z.land (flag_bits zinfo) 1 ≠ 0)
    then Raise (BadZipFile No_message) (f, h)
    else match ZipExtFile.__init__ h zinfo f with
         | Return zef f' => Return zef (f', h)
         | Raise e f' => Raise e (f', h)
         end.
Proof.
  intros Hc. unfold ZipFile.open_entry, overlaps. unfold_M.
  rewrite Hc. simpl.
  destruct (_end_offset zinfo) as [end_offset|];
    [destruct (Z.gtb_spec (_pos h + compress_size zinfo) end_offset)|];
    try done; by case_bool_decide.
Qed.

Lemma open_entry_header_fails zinfo w e w' :
  ZipFile.check_local_header zinfo w = Raise e w' →
  ZipFile.open_entry zinfo w = Raise e w'.
Proof. intros Hc. unfold ZipFile.open_entry. unfold_M. by rewrite Hc. Qed.

Lemma on_file_attached {A} (m : M BinaryFile A) :
  stable attached (_SharedFile.on_file m).
Proof.
  intros [f h] Hw. unfold attached in *. simpl in *.
  unfold _SharedFile.on_file. unfold_M. simpl. rewrite Hw. simpl.
  by destruct (m f).
Qed.

Lemma set__pos_attached p :
  stable attached (_SharedFile.update (_SharedFile.set__pos p)).
Proof. by intros [f h] Hw. Qed.

Lemma self_attached : stable attached _SharedFile.self.
Proof. by intros [f h] Hw. Qed.

Lemma SharedFile_read_attached n : stable attached (_SharedFile.read n).
Proof.
  unfold _SharedFile.read.
  repeat first [ apply on_file_attached | apply set__pos_attached
               | apply self_attached | apply stable_mret
               | apply stable_bind; [|intros ?] ].
Qed.

Lemma SharedFile_seek_attached offset whence :
  stable attached (_SharedFile.seek offset whence).
Proof.
  unfold _SharedFile.seek.
  repeat first [ apply on_file_attached | apply set__pos_attached
               | apply self_attached | apply stable_mret
               | apply stable_bind; [|intros ?] ].
Qed.

Lemma decode_name_stable {S} (I : S → Prop) flags raw :
  stable I (ZipFile.decode_name flags raw).
Proof.
  unfold ZipFile.decode_name.
  repeat first [ apply stable_mret | apply stable_raise
               | case_bool_decide | case_match ].
Qed.

Ltac stable_step :=
  first [ apply SharedFile_read_attached | apply SharedFile_seek_attached
        | apply self_attached | apply stable_mret | apply stable_raise
        | apply decode_name_stable
        | apply stable_bind; [|intros ?]
        | case_bool_decide | case_match ].

Lemma check_local_header_attached zinfo :
  stable attached (ZipFile.check_local_header zinfo).
Proof.
  unfold ZipFile.check_local_header. repeat stable_step.
Qed.

Lemma open_entry_attached zinfo :
  stable attached (ZipFile.open_entry zinfo).
Proof.
  unfold ZipFile.open_entry. repeat stable_step; try done.
  all: by intros [f h] Hw.
Qed.

(** [open] of an entry of the directory, on an archive whose stream is
    still attached. *)
Lemma open_unfold name w zinfo :
  ZipFile.getinfo name w.2 = Some zinfo → fp w.2 = Some the_stream →
  0 ≤ _fileRefCnt w.2 →
  ZipFile.open name w =
    match ZipFile.open_entry zinfo (w.1, handle_at (header_offset zinfo)) with
    | Return zef (f, _) =>
        Return zef (f, ZipFile.set__fileRefCnt (_fileRefCnt w.2 + 1) w.2)
    | Raise e (f, _) => Raise e (f, ZipFile.set_fp None w.2)
    end.
Proof.
  destruct w as [f z]. simpl. intros Hg Hfp Hcnt.
  unfold ZipFile.open. unfold_M. simpl. rewrite Hg, Hfp. simpl.
  unfold ZipFile.try_open_entry. simpl. unfold handle_at.
  destruct (ZipFile.open_entry _ _) as [zef [f' h']|e [f' h']] eqn:Heqo;
    [done|].
  unfold _SharedFile.close, ZipFile._fpclose. unfold_M. simpl.
  destruct (_file h') eqn:Hfile; simpl.
  - destruct (Z.gtb_spec (_fileRefCnt z + 1) 0); [|lia].
    unfold ZipFile.set_fp, ZipFile.set__fileRefCnt. simpl.
    do 3 f_equal. lia.
  - pose proof (open_entry_attached zinfo
        (f, {| _file := Some the_stream; _pos := header_offset zinfo |})
        eq_refl) as Ha.
    rewrite Heqo in Ha. unfold attached in Ha. simpl in Ha. congruence.
Qed.

(** Where the handle stands once the local header is accepted: past
    the thirty bytes of the header, the name and the extra field. *)
Lemma check_local_header_pos zinfo f f' h' :
  can_seek f = true → 0 ≤ header_offset zinfo →
  ZipFile.check_local_header zinfo (f, handle_at (header_offset zinfo))
    = Return () (f', h') →
  let start := header_offset zinfo in
  let fheader := slice start (start + sizeFileHeader) (content f) in
  let fname :=
    slice (start + sizeFileHeader)
          (start + sizeFileHeader + field 26 2 fheader) (content f) in
  _pos h' = start + sizeFileHeader + len fname + field 28 2 fheader.
Proof.
  intros Hs Hho Hc start fheader fname.
  unfold ZipFile.check_local_header in Hc.
  apply bind_Return in Hc as (fheader' & [f1 h1] & Hr1 & Hc).
  rewrite SharedFile_read_at in Hr1 by (done || unfold sizeFileHeader; lia).
  simpl in Hr1. fold start in Hr1. fold fheader in Hr1.
  injection Hr1 as <- <- <-.
  case_bool_decide as Hlen; [done|].
  case_bool_decide; [done|].
  apply bind_Return in Hc as (fname' & [f2 h2] & Hr2 & Hc).
  pose proof (field_nonneg 26 2 fheader). pose proof (field_nonneg 28 2 fheader).
  rewrite SharedFile_read_at in Hr2
    by (simpl; done || unfold sizeFileHeader in *; lia).
  simpl in Hr2. rewrite Hlen in Hr2. fold fname in Hr2.
  injection Hr2 as <- <- <-.
  pose proof (len_nonneg fname).
  apply bind_Return in Hc as ([] & [f3 h3] & Hr3 & Hc).
  assert (_pos h3 = start + sizeFileHeader + len fname + field 28 2 fheader)
    as Hpos.
  { destruct (decide (field 28 2 fheader = 0)) as [Hx|Hx].
    - rewrite bool_decide_false in Hr3 by (by intros ?).
      unfold mret, M_ret in Hr3. simplify_eq/=. lia.
    - rewrite bool_decide_true in Hr3 by done.
      apply bind_Return in Hr3 as (p & w3 & Hr3 & Hret).
      rewrite SharedFile_seek_cur in Hr3
        by (simpl; done || unfold sizeFileHeader in *; lia).
      simpl in Hr3. unfold mret, M_ret in Hret. by simplify_eq/=. }
  case_bool_decide; [done|]. case_bool_decide; [done|].
  apply bind_Return in Hc as (fname_str & w4 & Hd & Hc).
  unfold ZipFile.decode_name in Hd. unfold_M.
  repeat case_match; by simplify_eq/=.
Qed.

(** Claim C2, amended.  For an entry with a computed end offset,
    [open(name)] first runs the checks of the local header (its length,
    its magic, the patched-data and strong-encryption flags, the name).
    If one of them raises, [open] raises that exception and not the
    overlapped-entries error.  If they pass, [open] raises the
    overlapped-entries error if and only if the position of the handle
    after the name and the extra field plus [compress_size] exceeds the
    end offset. *)
Theorem open_overlap name w zinfo end_offset :
  ZipFile.getinfo name w.2 = Some zinfo → fp w.2 = Some the_stream →
  0 ≤ _fileRefCnt w.2 → _end_offset zinfo = Some end_offset →
  match ZipFile.check_local_header zinfo
          (w.1, handle_at (header_offset zinfo)) with
  | Return _ (_, zef_file) =>
      raised (ZipFile.open name w) = Some (BadZipFile Overlapped_entries)
      ↔ _pos zef_file + compress_size zinfo > end_offset
  | Raise e _ =>
      raised (ZipFile.open name w) = Some e
      ∧ e ≠ BadZipFile Overlapped_entries
  end.
Proof.
  intros Hg Hfp Hcnt Hend. rewrite (open_unfold name w zinfo) by done.
  destruct (ZipFile.check_local_header _ _) as [[] [f h]|e [f h]] eqn:Hc.
  - rewrite (open_entry_after_header _ _ f h Hc).
    unfold overlaps. rewrite Hend.
    destruct (Z.gtb_spec (_pos h + compress_size zinfo) end_offset).
    { simpl. split; [lia|done]. }
    split; [|lia]. by repeat (case_bool_decide || case_match).
  - rewrite (open_entry_header_fails _ _ e (f, h) Hc). simpl.
    split; [done|]. by eapply check_local_header_raises.
Qed.

End open.

Lemma open_overlap_witness :
  (ZipFile.getinfo a_txt (opened a_oversized).2 = Some (a_info 0 100)
   ∧ fp (opened a_oversized).2 = Some the_stream
   ∧ 0 ≤ _fileRefCnt (opened a_oversized).2
   ∧ _end_offset (a_info 0 100) = Some 40)
  ∧ match ZipFile.check_local_header (a_info 0 100)
            ((opened a_oversized).1, handle_at (header_offset (a_info 0 100)))
    with
    | Return _ (_, zef_file) =>
        raised (ZipFile.open a_txt (opened a_oversized))
          = Some (BadZipFile Overlapped_entries)
        ↔ _pos zef_file + compress_size (a_info 0 100) > 40
    | Raise e _ =>
        raised (ZipFile.open a_txt (opened a_oversized)) = Some e
        ∧ e ≠ BadZipFile Overlapped_entries
    end.
Proof.
  split.
  - split_and!; [vm_compute; reflexivity.. | vm_compute; discriminate
                | reflexivity].
  - apply (open_overlap a_txt (opened a_oversized) (a_info 0 100) 40);
      [vm_compute; reflexivity.. | vm_compute; discriminate | reflexivity].
Defined.

Example open_oversized :
  ZipFile.check_local_header (a_info 0 100)
    ((opened a_oversized).1, handle_at 0)
  = Return () (BinaryFile.set_position 35 (opened a_oversized).1,
               handle_at 35)
  ∧ raised (ZipFile.open a_txt (opened a_oversized))
    = Some (BadZipFile Overlapped_entries).
Proof. split; vm_compute; reflexivity. Qed.

(** Claim C2 as stated fails: in [a_patched_oversized] the position
    after the header of [a.txt] plus its [compress_size] exceeds its end
    offset, and [open] raises the patched-data error, which is checked
    before the overlap. *)
Lemma open_patched_before_overlap :
  ZipFile.getinfo a_txt (opened a_patched_oversized).2
    = Some (a_info 0x20 100)
  ∧ (_SharedFile.read sizeFileHeader;; _SharedFile.read 5;;
     _SharedFile.tell) ((opened a_patched_oversized).1, handle_at 0)
    = Return 35 (BinaryFile.set_position 35 (opened a_patched_oversized).1,
                 handle_at 35)
  ∧ 35 + compress_size (a_info 0x20 100) > 40
  ∧ raised (ZipFile.open a_txt (opened a_patched_oversized))
    = Some (NotImplementedError Patched_data).
Proof. split_and!; vm_compute; reflexivity. Qed.

(** Claim C5 fails in the code.  A failed [open] does not only release
    the handle it had acquired: [_fpclose] sets [self.fp] to [None]
    whatever the count, so that with the count still at 1 and the
    stream not closed, the next [open] raises [AttributeError], while it
    succeeds on the archive as [ZipFile(file)] left it. *)
Theorem failed_open_detaches_stream :
  let w := state_of (ZipFile.open a_txt (opened a_encrypted)) in
  raised (ZipFile.open a_txt (opened a_encrypted))
    = Some (BadZipFile No_message)
  ∧ _fileRefCnt w.2 = 1 ∧ is_closed w.1 = false ∧ fp w.2 = None
  ∧ raised (ZipFile.open b_txt w) = Some AttributeError
  ∧ raised (ZipFile.open b_txt (opened a_encrypted)) = None.
Proof. split_and!; vm_compute; reflexivity. Qed.

(** Claim C6 fails in the code.  [_SharedFile.read] moves the stream to
    the position of the handle before it reads; [_SharedFile.seek] does
    not, so that a relative seek is resolved against where the stream
    happens to be.  With the stream at 75 and the handle at 35, a seek
    by 2 lands at 77; on the stream of [a.txt], [seek(2); read(1)]
    yields the third byte of [a.txt] when no other entry was opened,
    and a byte of [b.txt] when [b.txt] was opened in between. *)
Theorem shared_seek_from_stream_position :
  let f := file_of two_entries in
  _SharedFile.read 1 (BinaryFile.set_position 75 f, handle_at 35)
    = Return [byte_of 104]
        (BinaryFile.set_position 36 f, handle_at 36)
  ∧ _SharedFile.seek 2 1 (BinaryFile.set_position 75 f, handle_at 35)
    = Return 77 (BinaryFile.set_position 77 f, handle_at 77)
  ∧ returned (after_opening_a (ZipExtFile.seek 2 0;; ZipExtFile.read 1))
    = Some [byte_of 108]
  ∧ returned (after_opening_both (ZipExtFile.seek 2 0;; ZipExtFile.read 1))
    = Some [byte_of 114].
Proof. split_and!; vm_compute; reflexivity. Qed.

Ltac case_if :=
  match goal with
  | |- context [if ?c then _ else _] => destruct c eqn:?
  end.

Section ZipExtFile.
Context `{Platform}.

(** *** [_read2] *)

(** A read through the handle touches nothing of the stream object but
    the handle. *)
Lemma fileobj_read_frame k w :
  ∃ h f', state_of (ZipExtFile.on_fileobj (_SharedFile.read k) w)
          = (f', ZipExtFile.set__fileobj h w.2)
          ∧ content f' = content w.1.
Proof.
  destruct w as [f z].
  unfold ZipExtFile.on_fileobj, _SharedFile.read, BinaryFile.seek,
    BinaryFile.read, BinaryFile.tell. unfold_M. simpl.
  repeat (case_match; simplify_eq/=); eauto.
Qed.

Lemma fileobj_read_raises k w e w' :
  ZipExtFile.on_fileobj (_SharedFile.read k) w = Raise e w' →
  e ∈ [AttributeError; OSError; UnsupportedOperation].
Proof.
  unfold ZipExtFile.on_fileobj, zoom. intros Hr.
  destruct (_SharedFile.read _ _) as [|e' t] eqn:Hh; simplify_eq.
  by eapply SharedFile_read_raises.
Qed.

Lemma fileobj_read_len k w data w' :
  0 ≤ k →
  ZipExtFile.on_fileobj (_SharedFile.read k) w = Return data w' →
  len data ≤ k.
Proof.
  destruct w as [f z]. intros Hk.
  unfold ZipExtFile.on_fileobj, _SharedFile.read, BinaryFile.seek,
    BinaryFile.read, BinaryFile.tell. unfold_M. simpl. intros Hr.
  repeat (case_match; simplify_eq/=); try lia.
  rewrite len_slice_to by lia. lia.
Qed.

Lemma read2_cases n w : read2_outcome w (ZipExtFile._read2 n w).
Proof.
  unfold ZipExtFile._read2. unfold mbind at 1, M_bind at 1.
  unfold ZipExtFile.self at 1.
  destruct (Z.leb_spec (_compress_left w.2) 0) as [Hcl|Hcl].
  { by constructor. }
  set (k := Z.min _ _).
  assert (0 ≤ k ≤ _compress_left w.2)
    by (unfold k, ZipExtFile.MIN_READ_SIZE; lia).
  unfold mbind at 1, M_bind at 1.
  destruct (fileobj_read_frame k w) as (h & f' & Hst & _).
  destruct (ZipExtFile.on_fileobj _ _) as [raw w1|e w1] eqn:Hr;
    simpl in Hst; subst w1.
  2:{ apply read2_failed; [done|]. by eapply fileobj_read_raises. }
  pose proof (fileobj_read_len k w raw _ ltac:(lia) Hr).
  pose proof (len_nonneg raw).
  unfold_M. simpl.
  case_bool_decide as Hraw.
  - subst raw.
    replace (_compress_left w.2 - len []) with (_compress_left w.2)
      by (unfold len; simpl; lia).
    assert (ZipExtFile.set__compress_left (_compress_left w.2)
              (ZipExtFile.set__fileobj h w.2) = ZipExtFile.set__fileobj h w.2)
      as -> by by destruct w as [? []].
    by apply read2_no_data.
  - assert (0 < len raw).
    { destruct raw; [done|]. unfold len. simpl. lia. }
    pose proof (read2_data w raw f' h Hcl ltac:(lia)) as Hd.
    by destruct (_decrypter w.2).
Qed.

(** *** [_read1] *)

Lemma update_crc_unfold newdata f z :
  ZipExtFile._update_crc newdata (f, z) =
    let z' := match _expected_crc z with
              | Some _ =>
                  ZipExtFile.set__running_crc
                    (crc32 newdata (_running_crc z)) z
              | None => z
              end in
    if _eof z' && crc_mismatch z'
    then Raise (BadZipFile Bad_CRC32) (f, z') else Return () (f, z').
Proof.
  unfold ZipExtFile._update_crc, crc_mismatch. unfold_M. simpl.
  destruct (_expected_crc z) as [c|] eqn:Hc; simpl; rewrite Hc.
  - destruct (_eof z); simpl; [|done].
    destruct (decide (crc32 newdata (_running_crc z) = c)).
    + by rewrite bool_decide_false, bool_decide_true by auto.
    + by rewrite bool_decide_true, bool_decide_false.
  - by rewrite andb_false_r.
Qed.

Lemma read1_unfold n f z :
  _eof z = false → 0 < n →
  ZipExtFile._read1 n (f, z) =
    match ZipExtFile._read2 n (f, z) with
    | Raise e w1 => Raise e w1
    | Return data (f1, z1) =>
        let data := slice_to (_left z1) data in
        let z2 := account data z1 in
        if _eof z2 && crc_mismatch z2
        then Raise (BadZipFile Bad_CRC32) (f1, z2)
        else Return data (f1, z2)
    end.
Proof.
  intros Heof Hn. unfold ZipExtFile._read1.
  unfold mbind at 1, M_bind at 1. unfold ZipExtFile.self at 1.
  simpl. rewrite Heof. destruct (Z.leb_spec n 0); [lia|]. simpl.
  unfold mbind at 1, M_bind at 1.
  destruct (ZipExtFile._read2 n (f, z)) as [data [f1 z1]|e w1]; [|done].
  unfold_M. simpl. unfold account. simpl.
  set (data' := slice_to (_left z1) data).
  destruct (Z.leb_spec (_left z1 - len data') 0); simpl;
    rewrite update_crc_unfold; simpl;
    destruct (_expected_crc z1) eqn:Hc; simpl;
    repeat (match goal with
            | |- context [if ?c then _ else _] => destruct c eqn:?
            end; simpl); done.
Qed.

Lemma account_eof data z :
  _eof (account data z)
  = (_compress_left z <=? 0) || (_left z - len data <=? 0).
Proof.
  unfold account. simpl.
  destruct (_left z - len data <=? 0) eqn:Hl, (_expected_crc z) eqn:Hc;
    simpl; rewrite ?Hl, ?Hc; simpl;
    by rewrite ?orb_true_r, ?orb_false_r.
Qed.

Lemma account_left data z : _left (account data z) = _left z - len data.
Proof. unfold account. simpl. by repeat case_match. Qed.

Lemma account_compress_left data z :
  _compress_left (account data z) = _compress_left z.
Proof. unfold account. simpl. by repeat case_match. Qed.

Lemma account_expected_crc data z :
  _expected_crc (account data z) = _expected_crc z.
Proof. unfold account. simpl. by repeat case_match. Qed.

(** One call of [_read1] on a stream that is not at its end: the law
    of the checksum, and the progress it makes. *)
Lemma read1_law n w :
  _eof w.2 = false → 0 < n →
  let o := ZipExtFile._read1 n w in
  crc_law w o
  ∧ (raised o = None →
     _eof (state_of o).2 = true
     ∨ 0 < _compress_left w.2
       ∧ _compress_left (state_of o).2 < _compress_left w.2).
Proof.
  destruct w as [f z]. simpl. intros Heof Hn.
  rewrite read1_unfold by done. unfold crc_law. cbn [fst snd].
  rewrite Heof.
  pose proof (read2_cases n (f, z)) as Hc.
  inversion Hc as [Hcl Ho|e f1 h Hcl He Ho|f1 h Hcl Ho|raw f1 h Hcl Hraw Ho];
    cbn [fst snd state_of raised] in *; clear Hc.
  - set (data := slice_to _ _). set (z2 := account data z).
    assert (_eof z2 = true) as He.
    { unfold z2. rewrite account_eof. apply orb_true_iff. left.
      by apply Z.leb_le. }
    assert (_compress_left z2 ≤ 0)
      by (unfold z2; by rewrite account_compress_left).
    assert (_expected_crc z2 = _expected_crc z)
      by apply account_expected_crc.
    rewrite He. simpl.
    destruct (crc_mismatch z2) eqn:Hm; simpl; rewrite ?He, ?Hm;
      naive_solver.
  - simpl. rewrite Heof. split_and!; try done.
    split; [intros [= ->]; by elem_cases He|naive_solver].
  - simpl. rewrite Heof. split_and!; try done. naive_solver.
  - set (data := slice_to _ _).
    set (z1 := ZipExtFile.set__compress_left _ _).
    set (z2 := account data z1).
    assert (_compress_left z2 = _compress_left z - len raw)
      by (unfold z2; by rewrite account_compress_left).
    assert (_left z2 = _left z1 - len data)
      by (unfold z2; by rewrite account_left).
    assert (_expected_crc z2 = _expected_crc z)
      by (unfold z2; by rewrite account_expected_crc).
    assert (_eof z2 = true → _compress_left z2 ≤ 0 ∨ _left z2 ≤ 0).
    { unfold z2 at 1. rewrite account_eof, orb_true_iff, !Z.leb_le.
      replace (_compress_left z1) with (_compress_left z - len raw) by done.
      lia. }
    destruct (_eof z2) eqn:He; simpl.
    + destruct (crc_mismatch z2) eqn:Hm; simpl; rewrite ?He, ?Hm;
        naive_solver.
    + rewrite He. split; [naive_solver|]. intros _. right. lia.
Qed.

(** *** The loops of [read] *)

Lemma crc_law_trivial {A} w (o : outcome (BinaryFile * ZipExtFile) A) :
  raised o ≠ Some (BadZipFile Bad_CRC32) →
  _expected_crc (state_of o).2 = _expected_crc w.2 →
  _eof (state_of o).2 = _eof w.2 →
  crc_law w o.
Proof.
  intros Hr He Heof. unfold crc_law. rewrite Heof.
  split_and!; [done| |congruence].
  split; [done|]. intros (? & ? & _). congruence.
Qed.

(** The law of a call that starts where another, which returned,
    ended. *)
Lemma crc_law_after {A B} w (o1 : outcome (BinaryFile * ZipExtFile) A)
    (o : outcome (BinaryFile * ZipExtFile) B) :
  _eof w.2 = false → crc_law w o1 → raised o1 = None →
  crc_law (state_of o1) o →
  (_eof (state_of o1).2 = true →
   raised o = None ∧ _eof (state_of o).2 = true
   ∧ crc_mismatch (state_of o).2 = crc_mismatch (state_of o1).2
   ∧ _compress_left (state_of o).2 = _compress_left (state_of o1).2
   ∧ _left (state_of o).2 = _left (state_of o1).2) →
  crc_law w o.
Proof.
  unfold crc_law. intros Heof (He1 & Hc1 & Hz1) Hr1 (He & Hc & Hz) Hstay.
  rewrite Hr1 in Hc1. rewrite Heof in *.
  destruct (_eof (state_of o1).2) eqn:Heof1.
  - destruct (Hstay eq_refl) as (Hr & Heof2 & Hm & Hcl & Hl).
    rewrite Hr, Heof2, Hm, Hcl, Hl.
    split_and!; [congruence| |auto]. naive_solver.
  - split_and!; [congruence| |auto]. naive_solver.
Qed.

Lemma read_some_eof fuel n acc w :
  _eof w.2 = true → ZipExtFile.read_some fuel n acc w = Return acc w.
Proof.
  destruct w as [f z]. simpl. intros Heof.
  destruct fuel; simpl; unfold_M; simpl; rewrite Heof;
    by rewrite andb_false_r.
Qed.

Lemma read_all_eof fuel acc w :
  _eof w.2 = true → ZipExtFile.read_all fuel acc w = Return acc w.
Proof.
  destruct w as [f z]. simpl. intros Heof.
  destruct fuel; simpl; unfold_M; simpl; by rewrite Heof.
Qed.

Lemma read_some_unfold fuel n acc w :
  ZipExtFile.read_some (S fuel) n acc w =
    if (n >? 0) && negb (_eof w.2) then
      match ZipExtFile._read1 n w with
      | Raise e w1 => Raise e w1
      | Return data w1 =>
          if n <? len data
          then Return (acc ++ slice_to n data)
                 (w1.1, ZipExtFile.set__offset n
                          (ZipExtFile.set__readbuffer data w1.2))
          else ZipExtFile.read_some fuel (n - len data) (acc ++ data) w1
      end
    else Return acc w.
Proof.
  simpl. unfold_M. case_if; [|done].
  destruct (ZipExtFile._read1 n w) as [data [f1 z1]|]; [|done].
  by case_if.
Qed.

Lemma read_all_unfold fuel acc w :
  ZipExtFile.read_all (S fuel) acc w =
    if negb (_eof w.2) then
      match ZipExtFile._read1 ZipExtFile.MAX_N w with
      | Raise e w1 => Raise e w1
      | Return data w1 => ZipExtFile.read_all fuel (acc ++ data) w1
      end
    else Return acc w.
Proof.
  simpl. unfold_M. case_if; [|done].
  by destruct (ZipExtFile._read1 _ w).
Qed.

Lemma read1_not_diverged n w : raised (ZipExtFile._read1 n w) ≠ Some Diverged.
Proof.
  destruct w as [f z]. destruct (_eof z) eqn:Heof.
  { unfold ZipExtFile._read1. unfold_M. simpl. by rewrite Heof. }
  destruct (Z.leb_spec n 0).
  { unfold ZipExtFile._read1. unfold_M. simpl. rewrite Heof. simpl.
    by destruct (Z.leb_spec n 0); [|lia]. }
  rewrite read1_unfold by (done || lia).
  pose proof (read2_cases n (f, z)) as Hc2.
  inversion Hc2 as [? Ho|? ? ? ? He Ho|? ? ? Ho|? ? ? ? ? Ho]; simpl;
    try done; try by case_if.
  intros [= ->]. by elem_cases He.
Qed.

Lemma read_some_law fuel : ∀ n acc w,
  crc_law w (ZipExtFile.read_some fuel n acc w)
  ∧ ((Z.to_nat (_compress_left w.2) < fuel)%nat →
     raised (ZipExtFile.read_some fuel n acc w) ≠ Some Diverged).
Proof.
  induction fuel as [|fuel IH]; intros n acc w.
  - split; [|lia]. simpl. unfold_M. case_if; by apply crc_law_trivial.
  - rewrite read_some_unfold.
    destruct (Z.gtb_spec n 0) as [Hn|Hn]; simpl;
      [|split; [by apply crc_law_trivial|done]].
    destruct (_eof w.2) eqn:Heof; simpl;
      [split; [by apply crc_law_trivial|done]|].
    destruct (read1_law n w Heof ltac:(lia)) as [Hlaw Hprog].
    pose proof (read1_not_diverged n w) as Hnd.
    destruct (ZipExtFile._read1 n w) as [data w1|e w1] eqn:H1; simpl in *;
      [|done].
    specialize (Hprog eq_refl).
    destruct (Z.ltb_spec n (len data)).
    + split; [|done].
      eapply (crc_law_after w (Return data w1)
                (Return (acc ++ slice_to n data) _)); eauto.
      by apply crc_law_trivial.
    + destruct (IH (n - len data) (acc ++ data) w1) as [Hlaw' Hfuel'].
      split.
      * eapply (crc_law_after w (Return data w1)); eauto.
        intros Heof1. by rewrite read_some_eof.
      * intros Hf. destruct Hprog as [Heof1|Hcl].
        { by rewrite read_some_eof. }
        apply Hfuel'. lia.
Qed.

Lemma read_all_law fuel : ∀ acc w,
  crc_law w (ZipExtFile.read_all fuel acc w)
  ∧ ((Z.to_nat (_compress_left w.2) < fuel)%nat →
     raised (ZipExtFile.read_all fuel acc w) ≠ Some Diverged).
Proof.
  induction fuel as [|fuel IH]; intros acc w.
  - split; [|lia]. simpl. unfold_M. case_if; by apply crc_law_trivial.
  - rewrite read_all_unfold.
    destruct (_eof w.2) eqn:Heof; simpl;
      [split; [by apply crc_law_trivial|done]|].
    destruct (read1_law ZipExtFile.MAX_N w Heof ltac:(done))
      as [Hlaw Hprog].
    pose proof (read1_not_diverged ZipExtFile.MAX_N w) as Hnd.
    destruct (ZipExtFile._read1 _ w) as [data w1|e w1] eqn:H1; simpl in *;
      [|done].
    specialize (Hprog eq_refl).
    destruct (IH (acc ++ data) w1) as [Hlaw' Hfuel'].
    split.
    + eapply (crc_law_after w (Return data w1)); eauto.
      intros Heof1. by rewrite read_all_eof.
    + intros Hf. destruct Hprog as [Heof1|Hcl].
      { by rewrite read_all_eof. }
      apply Hfuel'. lia.
Qed.

(** *** [read] *)

(** A change of the buffer alone leaves the law as it is. *)
Lemma crc_law_start {A} w w0 (o : outcome (BinaryFile * ZipExtFile) A) :
  _eof w0.2 = _eof w.2 → _expected_crc w0.2 = _expected_crc w.2 →
  crc_law w0 o → crc_law w o.
Proof. unfold crc_law. intros -> ->. done. Qed.

Lemma read_unfold n f z :
  ZipExtFile.read n (f, z) =
    if closed z then Raise (ValueError Read_from_closed_file) (f, z) else
    let start := ZipExtFile.set__offset 0 (ZipExtFile.set__readbuffer [] z) in
    let fuel := S (Z.to_nat (_compress_left z)) in
    if n <? 0 then
      ZipExtFile.read_all fuel (slice_from (_offset z) (_readbuffer z))
        (f, start)
    else if n + _offset z <? len (_readbuffer z) then
      Return (slice (_offset z) (n + _offset z) (_readbuffer z))
        (f, ZipExtFile.set__offset (n + _offset z) z)
    else
      ZipExtFile.read_some fuel (n + _offset z - len (_readbuffer z))
        (slice_from (_offset z) (_readbuffer z)) (f, start).
Proof.
  unfold ZipExtFile.read. unfold_M. cbn [fst snd].
  by repeat case_if.
Qed.

Lemma read_law n w :
  crc_law w (ZipExtFile.read n w)
  ∧ raised (ZipExtFile.read n w) ≠ Some Diverged.
Proof.
  destruct w as [f z]. rewrite read_unfold.
  destruct (closed z); [split; [by apply crc_law_trivial|done]|].
  cbv zeta. destruct (Z.ltb_spec n 0).
  { edestruct read_all_law as [Hlaw Hfuel]. split.
    - eapply crc_law_start; [| |apply Hlaw]; done.
    - apply Hfuel. simpl. lia. }
  case_if; [split; [by apply crc_law_trivial|done]|].
  edestruct read_some_law as [Hlaw Hfuel]. split.
  - eapply crc_law_start; [| |apply Hlaw]; done.
  - apply Hfuel. simpl. lia.
Qed.

(** Claim C3.  [read] raises the bad-CRC error exactly when it is the
    read during which the end of the stream is first detected (the flag
    [_eof] goes from unset to set) and the running CRC differs from the
    expected one, checking being active.  Whenever it raises that
    error, and whenever it sets the flag, one of the two counts has run
    out: a read that leaves both counts positive never raises it. *)
Theorem checksum_deferred n w :
  let o := ZipExtFile.read n w in
  let z' := (state_of o).2 in
  (raised o = Some (BadZipFile Bad_CRC32)
   ↔ _eof w.2 = false ∧ _eof z' = true ∧ crc_mismatch z' = true)
  ∧ (raised o = Some (BadZipFile Bad_CRC32) →
     _compress_left z' ≤ 0 ∨ _left z' ≤ 0)
  ∧ (_eof w.2 = false → _eof z' = true →
     _compress_left z' ≤ 0 ∨ _left z' ≤ 0).
Proof.
  destruct (read_law n w) as [(_ & Hc & Hz) _]. simpl.
  split_and!; [done| |done].
  intros (? & ? & _)%Hc. auto.
Qed.

Theorem read_terminates n w : raised (ZipExtFile.read n w) ≠ Some Diverged.
Proof. apply read_law. Qed.

End ZipExtFile.

Section verbatim.
Context `{Platform}.

Lemma take_split_prefix {A} (k c : nat) (l : list A) :
  (k ≤ c)%nat →
  take c l = take k l
             ++ take (c - length (take k l)) (drop (length (take k l)) l).
Proof.
  intros Hk. set (m := length (take k l)).
  assert (m = Nat.min k (length l)) as Hm by apply length_take.
  assert (take k l = take m l) as ->.
  { rewrite Hm. destruct (Nat.le_gt_cases k (length l)).
    - by rewrite Nat.min_l.
    - rewrite Nat.min_r by lia. by rewrite !take_ge by lia. }
  rewrite take_take_drop. f_equal. lia.
Qed.

(** A read through the handle that returns: where the bytes are from,
    and where the handle then stands. *)
Lemma fileobj_read_returns k f z raw w1 :
  0 ≤ k →
  ZipExtFile.on_fileobj (_SharedFile.read k) (f, z) = Return raw w1 →
  let pos := _pos (_fileobj z) in
  0 ≤ pos ∧ raw = slice pos (pos + k) (content f)
  ∧ w1 = (BinaryFile.set_position (pos + len raw) f,
          ZipExtFile.set__fileobj
            (_SharedFile.set__pos (pos + len raw) (_fileobj z)) z).
Proof.
  intros Hk. unfold ZipExtFile.on_fileobj, _SharedFile.read, BinaryFile.seek,
    BinaryFile.read, BinaryFile.tell. unfold_M. cbn [fst snd].
  intros Hr. repeat (case_match; simplify_eq/=); try lia.
  assert (0 ≤ _pos (_fileobj z)) by lia.
  rewrite slice_to_from by done. split_and!; [done..|].
  by unfold BinaryFile.set_position.
Qed.

Lemma read2_returns n f z data w1 :
  _decrypter z = None →
  ZipExtFile._read2 n (f, z) = Return data w1 →
  (_compress_left z ≤ 0 ∧ data = [] ∧ w1 = (f, z))
  ∨ (let pos := _pos (_fileobj z) in
     let k := Z.min (Z.max n ZipExtFile.MIN_READ_SIZE) (_compress_left z) in
     0 < _compress_left z ∧ 0 ≤ pos ∧ 0 < k ≤ _compress_left z
     ∧ data = slice pos (pos + k) (content f) ∧ data ≠ []
     ∧ w1 = (BinaryFile.set_position (pos + len data) f,
             ZipExtFile.set__compress_left (_compress_left z - len data)
               (ZipExtFile.set__fileobj
                  (_SharedFile.set__pos (pos + len data) (_fileobj z)) z))).
Proof.
  intros Hd. unfold ZipExtFile._read2.
  unfold mbind at 1, M_bind at 1. unfold ZipExtFile.self at 1.
  cbn [fst snd].
  destruct (Z.leb_spec (_compress_left z) 0) as [Hcl|Hcl].
  { intros [= <- <-]. by left. }
  set (k := Z.min _ _).
  assert (0 < k ≤ _compress_left z)
    by (unfold k, ZipExtFile.MIN_READ_SIZE; lia).
  unfold mbind at 1, M_bind at 1.
  destruct (ZipExtFile.on_fileobj _ _) as [raw w2|] eqn:Hr; [|done].
  apply fileobj_read_returns in Hr as (Hpos & -> & ->); [|lia].
  set (raw := slice _ _ _). unfold_M. cbn [fst snd]. rewrite Hd.
  case_bool_decide; [done|]. intros [= <- <-]. right.
  split_and!; try done; lia.
Qed.

Lemma account_readbuffer data z :
  _readbuffer (account data z) = _readbuffer z.
Proof. unfold account. simpl. by repeat case_match. Qed.

Lemma account_offset data z : _offset (account data z) = _offset z.
Proof. unfold account. simpl. by repeat case_match. Qed.

Lemma account_decrypter data z : _decrypter (account data z) = _decrypter z.
Proof. unfold account. simpl. by repeat case_match. Qed.

Lemma account_fileobj data z : _fileobj (account data z) = _fileobj z.
Proof. unfold account. simpl. by repeat case_match. Qed.

Lemma account_well_formed data f z :
  _decrypter z = None → 0 ≤ _offset z ≤ len (_readbuffer z) →
  0 ≤ _left z - len data →
  well_formed (f, account data z).
Proof.
  intros Hd Ho Hl. split; cbn [fst snd].
  - by rewrite account_decrypter.
  - by rewrite account_offset, account_readbuffer.
  - by rewrite account_left.
  - rewrite account_eof, account_left, account_compress_left.
    rewrite orb_true_iff, !Z.leb_le. lia.
Qed.

(** One pull: what [_read1] returns is the head of what was still to
    be pulled. *)
Lemma read1_ahead n w data w1 :
  well_formed w → ZipExtFile._read1 n w = Return data w1 →
  ahead w = data ++ ahead w1 ∧ well_formed w1
  ∧ _readbuffer w1.2 = _readbuffer w.2 ∧ _offset w1.2 = _offset w.2.
Proof.
  destruct w as [f z]. intros Hwf.
  pose proof Hwf as [Hd Ho Hl He]; cbn [fst snd] in *.
  destruct (_eof z) eqn:Heof.
  { unfold ZipExtFile._read1. unfold_M. cbn [fst snd]. rewrite Heof.
    intros [= <- <-]. by split_and!. }
  destruct (Z.leb_spec n 0).
  { unfold ZipExtFile._read1. unfold_M. cbn [fst snd]. rewrite Heof.
    destruct (Z.leb_spec n 0); [|lia]. intros [= <- <-]. by split_and!. }
  rewrite read1_unfold by (done || lia).
  destruct (ZipExtFile._read2 n (f, z)) as [raw [f1 z1]|] eqn:H2; [|done].
  cbv zeta. case_if; [done|]. intros [= <- <-].
  apply read2_returns in H2
    as [(Hcl & -> & [= -> ->])
       |(Hcl & Hpos & Hk & Hraw & Hne & [= -> ->])]; [| |done].
  - assert (slice_to (_left z) (@nil byte) = []) as ->.
    { by rewrite slice_to_nonneg, take_nil. }
    cbn [fst snd]. split_and!.
    + unfold ahead, raw_ahead. cbn [fst snd].
      rewrite account_left, account_compress_left, account_fileobj.
      replace (Z.to_nat (_compress_left z)) with 0%nat by lia.
      by rewrite !take_0, !take_nil.
    + apply account_well_formed; try done. unfold len. simpl. lia.
    + apply account_readbuffer.
    + apply account_offset.
  - set (pos := _pos (_fileobj z)) in *.
    set (z1 := ZipExtFile.set__compress_left _ _).
    set (data := slice_to (_left z1) raw).
    assert (_left z1 = _left z) as Hl1 by done.
    assert (data = take (Z.to_nat (_left z)) raw) as Hdata.
    { unfold data. rewrite Hl1. by apply slice_to_nonneg. }
    assert (len data ≤ _left z).
    { rewrite Hdata, len_take. lia. }
    cbn [fst snd]. split_and!.
    + unfold ahead, raw_ahead. cbn [fst snd].
      rewrite account_left, account_compress_left, account_fileobj.
      cbn [_pos _fileobj z1 ZipExtFile.set__compress_left
           ZipExtFile.set__fileobj _SharedFile.set__pos _left
           _compress_left content BinaryFile.set_position].
      fold pos. pose proof (len_nonneg raw).
      rewrite !slice_from_nonneg by lia.
      set (R := drop (Z.to_nat pos) (content f)).
      assert (raw = take (Z.to_nat (Z.min (Z.max n ZipExtFile.MIN_READ_SIZE)
                                      (_compress_left z))) R) as Hraw'.
      { rewrite Hraw. rewrite slice_nonneg by lia. do 2 f_equal. lia. }
      rewrite (take_split_prefix
                 (Z.to_nat (Z.min (Z.max n ZipExtFile.MIN_READ_SIZE)
                              (_compress_left z)))
                 (Z.to_nat (_compress_left z)) R) by lia.
      rewrite <- Hraw'. rewrite take_app, <- Hdata.
      f_equal.
      replace (Z.to_nat (pos + len raw)) with (Z.to_nat pos + length raw)%nat
        by (unfold len; lia).
      rewrite <- drop_drop. fold R.
      replace (Z.to_nat (_compress_left z - len raw))
        with (Z.to_nat (_compress_left z) - length raw)%nat
        by (unfold len; lia).
      f_equal. rewrite Hdata, len_take. unfold len. lia.
    + apply account_well_formed; try done. lia.
    + by rewrite account_readbuffer.
    + by rewrite account_offset.
Qed.

Lemma ahead_buffer f z buffer offset :
  ahead (f, ZipExtFile.set__offset offset
              (ZipExtFile.set__readbuffer buffer z)) = ahead (f, z).
Proof. done. Qed.

Lemma read_some_pending fuel : ∀ n acc w buf w',
  well_formed w → _readbuffer w.2 = [] → _offset w.2 = 0 →
  ZipExtFile.read_some fuel n acc w = Return buf w' →
  acc ++ ahead w = buf ++ pending w' ∧ well_formed w'.
Proof.
  induction fuel as [|fuel IH]; intros n acc w buf w' Hwf Hb Ho.
  - simpl. unfold_M. case_if; [done|]. intros [= <- <-].
    unfold pending. rewrite Hb, Ho. by rewrite slice_from_nonneg.
  - rewrite read_some_unfold.
    case_if; [|intros [= <- <-]; unfold pending; rewrite Hb, Ho;
               by rewrite slice_from_nonneg].
    destruct (ZipExtFile._read1 n w) as [data [f1 z1]|] eqn:H1; [|done].
    apply read1_ahead in H1 as (Ha & Hwf1 & Hb1 & Ho1); [|done].
    cbn [fst snd] in *.
    destruct (Z.ltb_spec n (len data)).
    + intros [= <- <-].
      assert (0 < n) by (apply andb_true_iff in Heqb as [?%Z.gtb_gt _]; lia).
      split.
      * unfold pending. cbn [fst snd]. rewrite ahead_buffer.
        cbn [_offset _readbuffer ZipExtFile.set__offset
             ZipExtFile.set__readbuffer].
        rewrite slice_to_nonneg, slice_from_nonneg by lia.
        rewrite Ha, <- !app_assoc. f_equal.
        by rewrite (app_assoc (take _ _)), take_drop.
      * destruct Hwf1 as [Hd _ Hl He]. split; cbn [fst snd] in *; try done.
        simpl. lia.
    + intros Hr. apply IH in Hr as [Hp Hwf']; try done;
        [|cbn [fst snd]; congruence..].
      split; [|done]. by rewrite Ha, app_assoc.
Qed.

Lemma read_all_pending fuel : ∀ acc w buf w',
  well_formed w → _readbuffer w.2 = [] → _offset w.2 = 0 →
  ZipExtFile.read_all fuel acc w = Return buf w' →
  acc ++ ahead w = buf ++ pending w' ∧ well_formed w'.
Proof.
  induction fuel as [|fuel IH]; intros acc w buf w' Hwf Hb Ho.
  - simpl. unfold_M. case_if; [done|]. intros [= <- <-].
    unfold pending. rewrite Hb, Ho. by rewrite slice_from_nonneg.
  - rewrite read_all_unfold.
    case_if; [|intros [= <- <-]; unfold pending; rewrite Hb, Ho;
               by rewrite slice_from_nonneg].
    destruct (ZipExtFile._read1 _ w) as [data [f1 z1]|] eqn:H1; [|done].
    apply read1_ahead in H1 as (Ha & Hwf1 & Hb1 & Ho1); [|done].
    cbn [fst snd] in *.
    intros Hr. apply IH in Hr as [Hp Hwf']; try done;
      [|cbn [fst snd]; congruence..].
    split; [|done]. by rewrite Ha, app_assoc.
Qed.

Lemma slice_then_rest {A} (a b : Z) (l : list A) :
  0 ≤ a → a ≤ b → b ≤ len l →
  slice a b l ++ slice_from b l = slice_from a l.
Proof.
  intros. rewrite slice_nonneg, !slice_from_nonneg by lia.
  replace (Z.to_nat b) with (Z.to_nat a + Z.to_nat (b - a))%nat by lia.
  rewrite <- drop_drop. apply take_drop.
Qed.

Lemma read_pending n w buf w' :
  well_formed w → ZipExtFile.read n w = Return buf w' →
  pending w = buf ++ pending w' ∧ well_formed w'.
Proof.
  destruct w as [f z]. intros Hwf. rewrite read_unfold. cbv zeta.
  pose proof Hwf as [Hd Ho Hl He]; cbn [fst snd] in *.
  destruct (closed z); [done|].
  assert (well_formed
            (f, ZipExtFile.set__offset 0 (ZipExtFile.set__readbuffer [] z))).
  { split; cbn [fst snd]; try done; simpl; unfold len; simpl; lia. }
  destruct (Z.ltb_spec n 0).
  { intros Hr. by apply read_all_pending in Hr as [Hp Hwf']. }
  destruct (Z.ltb_spec (n + _offset z) (len (_readbuffer z))).
  - intros [= <- <-]. split.
    + unfold pending. cbn [fst snd]. simpl. rewrite app_assoc.
      rewrite slice_then_rest by lia. done.
    + split; cbn [fst snd]; try done. simpl. lia.
  - intros Hr. by apply read_some_pending in Hr as [Hp Hwf'].
Qed.

Lemma read_all_frame fuel : ∀ acc w buf w',
  _readbuffer w.2 = [] ∧ _offset w.2 = 0 →
  ZipExtFile.read_all fuel acc w = Return buf w' →
  _readbuffer w'.2 = [] ∧ _offset w'.2 = 0.
Proof.
  induction fuel as [|fuel IH]; intros acc [f z] buf w' Hw;
    cbn [fst snd] in *.
  - simpl. unfold_M. case_if; [done|]. by intros [= <- <-].
  - rewrite read_all_unfold. cbn [fst snd].
    destruct (_eof z) eqn:Heof; cbn [negb]; [by intros [= <- <-]|].
    rewrite read1_unfold by done.
    pose proof (read2_cases ZipExtFile.MAX_N (f, z)) as Hc2.
    inversion Hc2 as [? Ho|? ? ? ? He Ho|? ? ? Ho|? ? ? ? ? Ho];
      cbn [fst snd] in *; cbv zeta; try done; case_if; try done;
      apply IH; cbn [fst snd];
      by rewrite account_readbuffer, account_offset.
Qed.

Lemma read_all_eof_after fuel : ∀ acc w buf w',
  ZipExtFile.read_all fuel acc w = Return buf w' → _eof w'.2 = true.
Proof.
  induction fuel as [|fuel IH]; intros acc w buf w'.
  - simpl. unfold_M. case_if; [done|]. intros [= <- <-].
    by destruct (_eof w.2).
  - rewrite read_all_unfold. case_if.
    + destruct (ZipExtFile._read1 _ w); [|done]. apply IH.
    + intros [= <- <-]. by destruct (_eof w.2).
Qed.

(** [read(-1)] returns all that was pending: for a stream just opened,
    [file_size] bytes at most of the [compress_size] bytes that follow
    the local header, as they are in the archive. *)
Corollary read_to_end w buf w' :
  well_formed w → ZipExtFile.read (-1) w = Return buf w' →
  buf = pending w.
Proof.
  intros Hwf Hr. destruct (read_pending _ _ _ _ Hwf Hr) as [-> Hwf'].
  assert (_eof w'.2 = true ∧ _readbuffer w'.2 = [] ∧ _offset w'.2 = 0)
    as (Heof & Hb & Ho).
  { destruct w as [f z]. rewrite read_unfold in Hr. cbv zeta in Hr.
    destruct (closed z); [done|].
    destruct (Z.ltb_spec (-1) 0); [|lia].
    split; [by eapply read_all_eof_after|].
    eapply (read_all_frame _ _ (f, _)); [|exact Hr]. done. }
  assert (pending w' = []) as ->; [|by rewrite app_nil_r].
  unfold pending. rewrite Hb, Ho.
  destruct Hwf' as [_ _ Hl He]. unfold ahead.
  destruct (He Heof).
  - replace (Z.to_nat (_compress_left w'.2)) with 0%nat by lia.
    by rewrite take_0, take_nil.
  - replace (Z.to_nat (_left w'.2)) with 0%nat by lia.
    by rewrite take_0.
Qed.

Lemma init_well_formed fileobj zipinfo f zef f' :
  0 ≤ file_size zipinfo →
  ZipExtFile.__init__ fileobj zipinfo f = Return zef f' →
  well_formed (f', zef)
  ∧ pending (f', zef)
    = take (Z.to_nat (file_size zipinfo))
        (take (Z.to_nat (compress_size zipinfo))
           (slice_from (_pos fileobj) (content f))).
Proof.
  intros Hfs [= <- <-]. split; [by split|].
  unfold pending, ahead, raw_ahead. done.
Qed.

(** Claim C4.  [read] returns bytes of the underlying stream as they
    are: what the stream had still to deliver before the call (the rest
    of its buffer, then the bytes of the file at the position of the
    handle, as many as [_compress_left] allows, clipped to [_left]) is
    what the call returns followed by what the stream has still to
    deliver after it.  No codec takes part; the method recorded in the
    headers is not even read. *)
Theorem read_verbatim n w buf w' :
  well_formed w → ZipExtFile.read n w = Return buf w' →
  pending w = buf ++ pending w' ∧ well_formed w'.
Proof. apply read_pending. Qed.

End verbatim.

Section seek.
Context `{Platform}.

Lemma tell_unfold f z :
  closed z = false → _seekable z = true →
  ZipExtFile.tell (f, z) = Return (position_of z) (f, z).
Proof.
  intros Hc Hs. unfold ZipExtFile.tell. unfold_M. cbn [fst snd].
  by rewrite Hc, Hs.
Qed.


Lemma same_entry_refl z : same_entry z z.
Proof. by unfold same_entry. Qed.

Lemma same_entry_trans z1 z2 z3 :
  same_entry z1 z2 → same_entry z2 z3 → same_entry z1 z3.
Proof. unfold same_entry. naive_solver congruence. Qed.





Lemma seek_skip_not_diverged fuel : ∀ read_offset w,
  read_offset ≤ Z.of_nat fuel →
  raised (ZipExtFile.seek_skip fuel read_offset w) ≠ Some Diverged.
Proof.
  induction fuel as [|fuel IH]; intros ro w Hro; simpl;
    destruct (Z.gtb_spec ro 0); try done; [lia|].
  unfold_M.
  pose proof (read_law (Z.min ZipExtFile.MAX_SEEK_READ ro) w) as [_ Hnd].
  destruct (ZipExtFile.read _ w) as [buf w1|]; [|done].
  apply IH. assert (0 < ZipExtFile.MAX_SEEK_READ) by done. lia.
Qed.

Lemma fileobj_seek_frame a b f z p f1 z1 :
  ZipExtFile.on_fileobj (_SharedFile.seek a b) (f, z) = Return p (f1, z1) →
  ∃ h, z1 = ZipExtFile.set__fileobj h z.
Proof.
  unfold ZipExtFile.on_fileobj, _SharedFile.seek, BinaryFile.seek,
    BinaryFile.tell. unfold_M. simpl.
  repeat (case_match; simplify_eq/=); intros; simplify_eq; eauto.
Qed.


Lemma seek_skip_0 fuel w : ZipExtFile.seek_skip fuel 0 w = Return () w.
Proof. by destruct fuel. Qed.




End seek.

Example a_stream_opened :
  on_entry two_entries a_txt (λ w, Return () w) = Some (Return () a_stream).
Proof. vm_compute. reflexivity. Qed.



Lemma halts_mret {S A} (a : A) : halts (mret a : M S A).
Proof. by intros s. Qed.

Lemma halts_raise {S A} e : e ≠ Diverged → halts (@raise S A e).
Proof. intros He s. simpl. congruence. Qed.

Lemma halts_get {S} : halts (@get S).
Proof. by intros s. Qed.

Lemma halts_modify {S} (f : S → S) : halts (modify f).
Proof. by intros s. Qed.

Lemma halts_bind {S A B} (m : M S A) (f : A → M S B) :
  halts m → (∀ a, halts (f a)) → halts (m ≫= f).
Proof.
  intros Hm Hf s. specialize (Hm s). unfold mbind, M_bind.
  destruct (m s) as [a s1|e s1]; [apply Hf | done].
Qed.

Lemma halts_fmap {S A B} (f : A → B) (m : M S A) : halts m → halts (f <$> m).
Proof.
  intros Hm s. specialize (Hm s). unfold fmap, M_fmap. by destruct (m s).
Qed.

Lemma halts_try_except {S A} (m : M S A) catches h :
  halts m → (∀ e, e ≠ Diverged → halts (h e)) →
  halts (try_except m catches h).
Proof.
  intros Hm Hh s. specialize (Hm s). unfold try_except.
  destruct (m s) as [a s1|e s1]; [done|].
  destruct (catches e); [apply Hh; simpl in Hm; congruence | done].
Qed.

Lemma halts_zoom {S T A} (view : S → T) (update : T → S → S) (m : M T A) :
  halts m → halts (zoom view update m).
Proof.
  intros Hm s. specialize (Hm (view s)). unfold zoom.
  by destruct (m (view s)).
Qed.

Create HintDb halts.
#[local] Hint Resolve halts_mret halts_get halts_modify halts_fmap
  halts_zoom : halts.
#[local] Hint Extern 1 (halts (raise _)) =>
  apply halts_raise; first [assumption | discriminate] : halts.
#[local] Hint Extern 2 (halts (try_except _ _ _)) =>
  apply halts_try_except; [|intros ? ?] : halts.
#[local] Hint Extern 2 (halts (_ ≫= _)) =>
  apply halts_bind; [|intros ?] : halts.
#[local] Hint Extern 3 (halts (if ?b then _ else _)) => destruct b : halts.
#[local] Hint Extern 4 (halts _) => progress case_match : halts.

Ltac halts := unfold_M; auto 40 with halts.

Lemma BinaryFile_read_halts n : halts (BinaryFile.read n).
Proof. by intros f. Qed.
Lemma BinaryFile_tell_halts : halts BinaryFile.tell.
Proof. by intros f. Qed.
Lemma BinaryFile_seek_halts offset whence :
  halts (BinaryFile.seek offset whence).
Proof. intros f. unfold BinaryFile.seek. by repeat case_match. Qed.
Lemma BinaryFile_seekable_halts : halts BinaryFile.seekable.
Proof. by intros f. Qed.
#[local] Hint Resolve BinaryFile_read_halts BinaryFile_tell_halts
  BinaryFile_seek_halts BinaryFile_seekable_halts : halts.

Lemma EndRecData64_halts offset endrec : halts (_EndRecData64 offset endrec).
Proof. unfold _EndRecData64. auto 40 with halts. Qed.
#[local] Hint Resolve EndRecData64_halts : halts.

Lemma EndRecData_halts : halts _EndRecData.
Proof. unfold _EndRecData. auto 40 with halts. Qed.
#[local] Hint Resolve EndRecData_halts : halts.

Section halts.
Context `{Platform}.

Lemma SharedFile_self_halts : halts _SharedFile.self.
Proof. by intros s. Qed.
Lemma ZipFile_self_halts : halts ZipFile.self.
Proof. by intros s. Qed.
Lemma ZipExtFile_self_halts : halts ZipExtFile.self.
Proof. by intros s. Qed.
#[local] Hint Resolve SharedFile_self_halts ZipFile_self_halts
  ZipExtFile_self_halts : halts.

Lemma on_file_halts {A} (m : M BinaryFile A) :
  halts m → halts (_SharedFile.on_file m).
Proof. intros. unfold _SharedFile.on_file, _SharedFile.self. auto 40 with halts. Qed.
#[local] Hint Resolve on_file_halts : halts.

Lemma SharedFile_read_halts n : halts (_SharedFile.read n).
Proof.
  unfold _SharedFile.read, _SharedFile.self, _SharedFile.update.
  auto 40 with halts.
Qed.
Lemma SharedFile_seek_halts offset whence :
  halts (_SharedFile.seek offset whence).
Proof.
  unfold _SharedFile.seek, _SharedFile.self, _SharedFile.update.
  auto 40 with halts.
Qed.
Lemma SharedFile_init_halts {S} file pos :
  halts (@_SharedFile.__init__ S file pos).
Proof. unfold _SharedFile.__init__. auto with halts. Qed.
Lemma SharedFile_close_halts {S} (_close : option fileref → M S unit) :
  (∀ f, halts (_close f)) → halts (_SharedFile.close _close).
Proof.
  intros. unfold _SharedFile.close.
  apply halts_bind; [by intros ?|intros h]. auto 40 with halts.
Qed.
#[local] Hint Resolve SharedFile_read_halts SharedFile_seek_halts
  SharedFile_init_halts SharedFile_close_halts : halts.

Lemma fpclose_halts f : halts (ZipFile._fpclose f).
Proof. unfold ZipFile._fpclose. auto 40 with halts. Qed.
#[local] Hint Resolve fpclose_halts : halts.

Lemma on_fp_halts {A} file (m : M BinaryFile A) :
  halts m → halts (ZipFile.on_fp file m).
Proof. intros. unfold ZipFile.on_fp. auto 40 with halts. Qed.
#[local] Hint Resolve on_fp_halts : halts.

Lemma decode_name_halts {S} flags raw : halts (@ZipFile.decode_name _ flags raw S).
Proof. unfold ZipFile.decode_name. auto 40 with halts. Qed.
#[local] Hint Resolve decode_name_halts : halts.

Lemma read_centdir_halts concat : halts (ZipFile.read_centdir concat).
Proof.
  unfold ZipFile.read_centdir.
  repeat first
    [ apply halts_bind; [auto with halts|intros ?]
    | match goal with
      | |- halts (if ?b then _ else _) =>
          destruct b; [by auto with halts|]
      end ].
  cbv zeta.
  match goal with
  | |- context [ZipInfo._decodeExtra ?c ?x] =>
      pose proof (decodeExtra_terminates c x);
      destruct (ZipInfo._decodeExtra c x)
  end; [auto with halts|].
  apply halts_raise. simpl in *. congruence.
Qed.

Lemma read_centdir_size concat bio x size bio' :
  ZipFile.read_centdir concat bio = Return (x, size) bio' →
  sizeCentralDir ≤ size.
Proof.
  unfold ZipFile.read_centdir. unfold_M.
  repeat (case_match; try done). intros [= <- <- <-].
  repeat match goal with
         | |- context [field ?a ?b ?c] =>
             pose proof (field_nonneg a b c); generalize dependent (field a b c)
         end.
  intros. lia.
Qed.

Lemma read_directory_halts fuel : ∀ concat size_cd total bio,
  size_cd - total ≤ Z.of_nat fuel →
  halts (ZipFile.read_directory fuel concat size_cd total bio).
Proof.
  induction fuel as [|fuel IH]; intros concat size_cd total bio Hf; simpl;
    destruct (Z.ltb_spec total size_cd); auto with halts; [lia|].
  pose proof (read_centdir_halts concat bio) as Hh.
  pose proof (read_centdir_size concat bio) as Hs.
  destruct (ZipFile.read_centdir concat bio) as [[x size] bio'|e bio'].
  - unfold ZipFile.update. apply halts_bind; [auto with halts|intros _].
    apply IH. specialize (Hs _ _ _ eq_refl). unfold sizeCentralDir in Hs. lia.
  - apply halts_raise. simpl in Hh. congruence.
Qed.

Theorem RealGetContents_terminates : halts ZipFile._RealGetContents.
Proof.
  unfold ZipFile._RealGetContents, ZipFile.self, ZipFile.update.
  apply halts_bind; [by intros ?|intros z].
  apply halts_bind; [auto 40 with halts|intros [endrec|]];
    [|auto with halts].
  cbv zeta.
  repeat first
    [ apply halts_bind; [auto with halts|intros ?]
    | match goal with
      | |- halts (if ?b then _ else _) =>
          destruct b; [by auto with halts|]
      end ].
  all: first [apply read_directory_halts; lia | auto with halts].
Qed.

Theorem init_terminates : halts ZipFile.__init__.
Proof.
  unfold ZipFile.__init__, ZipFile.update.
  apply halts_bind; [auto with halts|intros _].
  apply halts_try_except; [apply RealGetContents_terminates|intros e He].
  auto 40 with halts.
Qed.

Lemma check_local_header_halts zinfo :
  halts (ZipFile.check_local_header zinfo).
Proof. unfold ZipFile.check_local_header. auto 40 with halts. Qed.

Lemma ZipExtFile_init_halts fileobj zipinfo :
  halts (ZipExtFile.__init__ fileobj zipinfo).
Proof. by intros f. Qed.
#[local] Hint Resolve check_local_header_halts ZipExtFile_init_halts : halts.

Lemma open_entry_halts zinfo : halts (ZipFile.open_entry zinfo).
Proof. unfold ZipFile.open_entry. auto 40 with halts. Qed.

Lemma try_open_entry_halts zinfo zef_file :
  halts (ZipFile.try_open_entry zinfo zef_file).
Proof.
  intros w. unfold ZipFile.try_open_entry.
  pose proof (open_entry_halts zinfo (w.1, zef_file)) as Ho.
  destruct (ZipFile.open_entry _ _) as [zef [f h]|e [f h]]; [done|].
  pose proof (SharedFile_close_halts ZipFile._fpclose fpclose_halts
                (w.2, h)) as Hc.
  by destruct (_SharedFile.close _ _) as [[] [z h']|e' [z h']].
Qed.
#[local] Hint Resolve try_open_entry_halts : halts.

Theorem open_terminates name : halts (ZipFile.open name).
Proof. unfold ZipFile.open, ZipFile.update. auto 40 with halts. Qed.

Lemma read_halts n : halts (ZipExtFile.read n).
Proof. intros w. apply read_terminates. Qed.

Lemma tell_halts : halts ZipExtFile.tell.
Proof. unfold ZipExtFile.tell. auto 40 with halts. Qed.
#[local] Hint Resolve read_halts tell_halts : halts.

Lemma seek_skip_halts fuel read_offset :
  read_offset ≤ Z.of_nat fuel →
  halts (ZipExtFile.seek_skip fuel read_offset).
Proof. intros ? w. by apply seek_skip_not_diverged. Qed.

Lemma on_fileobj_halts {A} (m : M (BinaryFile * _SharedFile) A) :
  halts m → halts (ZipExtFile.on_fileobj m).
Proof. intros. unfold ZipExtFile.on_fileobj. auto with halts. Qed.
#[local] Hint Resolve on_fileobj_halts : halts.

Theorem seek_terminates offset whence : halts (ZipExtFile.seek offset whence).
Proof.
  unfold ZipExtFile.seek, ZipExtFile.update.
  apply halts_bind; [auto with halts|intros z].
  destruct (closed z); [auto with halts|].
  destruct (negb (_seekable z)); [auto with halts|].
  apply halts_bind; [auto with halts|intros curr_pos].
  apply halts_bind; [auto 10 with halts|intros new_pos]. cbv zeta.
  apply halts_bind.
  - auto 40 with halts.
  - intros read_offset. apply halts_bind; [|auto with halts].
    apply seek_skip_halts. lia.
Qed.

End halts.

Section accepted.
Context `{Platform}.

Lemma init_sweep w w' :
  ZipFile.__init__ w = Return () w' →
  ∃ z, w'.2 = ZipFile.sweep z ∧ start_dir z = start_dir w'.2.
Proof.
  unfold ZipFile.__init__. intros Hr.
  apply bind_Return in Hr as ([] & w1 & _ & Hr).
  unfold try_except in Hr.
  destruct (ZipFile._RealGetContents w1) as [[] w2|e w2] eqn:Hg.
  - simplify_eq. by eapply RealGetContents_sweep.
  - cbv beta iota in Hr.
    apply bind_Return in Hr as (? & ? & _ & Hr).
    by apply bind_Return in Hr as (? & ? & _ & Hr).
Qed.

End accepted.

Lemma read_verbatim_witness :
  (well_formed a_stream
   ∧ ZipExtFile.read 2 a_stream
     = Return he (state_of (ZipExtFile.read 2 a_stream)))
  ∧ pending a_stream = he ++ pending (state_of (ZipExtFile.read 2 a_stream))
  ∧ well_formed (state_of (ZipExtFile.read 2 a_stream)).
Proof.
  assert (well_formed a_stream) as Hwf.
  { split; vm_compute; first [reflexivity | split; discriminate
                             | discriminate]. }
  assert (ZipExtFile.read 2 a_stream
          = Return he (state_of (ZipExtFile.read 2 a_stream))) as Hr
    by (vm_compute; reflexivity).
  split; [exact (conj Hwf Hr)|].
  exact (read_verbatim 2 a_stream he _ Hwf Hr).
Defined.

(** The method written in the headers plays no part: with method 8 in
    both headers of [a.txt], [read()] returns the same five bytes, those
    of the archive. *)
Example method_is_ignored :
  returned (on_entry a_deflated a_txt (ZipExtFile.read (-1)))
    = Some (byte_of <$> [104; 101; 108; 108; 111])
  ∧ returned (on_entry two_entries a_txt (ZipExtFile.read (-1)))
    = Some (byte_of <$> [104; 101; 108; 108; 111])
  ∧ slice 35 40 (byte_of <$> a_deflated)
    = byte_of <$> [104; 101; 108; 108; 111].
Proof. split_and!; vm_compute; reflexivity. Qed.


Example zip64_4GiB_size :
  zip64_missing entry_4GiB zip64_4GiB = None
  ∧ file_size (zip64_override entry_4GiB zip64_4GiB) = 2 ^ 32
  ∧ ZipInfo._decodeExtra 0 entry_4GiB
    = Return () (zip64_override entry_4GiB zip64_4GiB).
Proof. split_and!; vm_compute; reflexivity. Qed.

Lemma unicode_path_record_witness :
  (extra entry_private_renamed
     = private_record ++ unicode_path_header ++ unicode_path_a_to_b ++ []
   ∧ whole_records private_record
   ∧ ZipInfo._decodeExtra_loop (length private_record)
       (CPython.zlib_crc32 name_a 0) private_record entry_private_renamed
     = Return () entry_private_renamed
   ∧ extra_record 0x7075 unicode_path_header unicode_path_a_to_b)
  ∧ match unicode_path_outcome (CPython.zlib_crc32 name_a 0)
            unicode_path_a_to_b with
    | Up_corrupt =>
        raised (ZipInfo._decodeExtra (CPython.zlib_crc32 name_a 0)
                  entry_private_renamed)
        = Some (BadZipFile Corrupt_unicode_path)
    | Up_invalid_utf8 =>
        raised (ZipInfo._decodeExtra (CPython.zlib_crc32 name_a 0)
                  entry_private_renamed)
        = Some (BadZipFile Corrupt_unicode_path_invalid_utf8)
    | Up_replace name =>
        ZipInfo._decodeExtra (CPython.zlib_crc32 name_a 0)
          entry_private_renamed
        = ZipInfo._decodeExtra_loop (length (@nil byte))
            (CPython.zlib_crc32 name_a 0) []
            (ZipInfo.set_filename (_sanitize_filename name)
               entry_private_renamed)
    | Up_keep =>
        ZipInfo._decodeExtra (CPython.zlib_crc32 name_a 0)
          entry_private_renamed
        = ZipInfo._decodeExtra_loop (length (@nil byte))
            (CPython.zlib_crc32 name_a 0) [] entry_private_renamed
    end.
Proof.
  assert (extra entry_private_renamed
          = private_record ++ unicode_path_header ++ unicode_path_a_to_b
            ++ []) as Hex
    by (vm_compute; reflexivity).
  assert (whole_records private_record) as Hpre.
  { apply (one_more_record 0xCAFE); [|apply no_record].
    split_and!; vm_compute; reflexivity. }
  assert (ZipInfo._decodeExtra_loop (length private_record)
            (CPython.zlib_crc32 name_a 0) private_record
            entry_private_renamed
          = Return () entry_private_renamed) as Hx1
    by (vm_compute; reflexivity).
  assert (extra_record 0x7075 unicode_path_header unicode_path_a_to_b)
    as Hrec by (split_and!; vm_compute; reflexivity).
  split; [exact (conj Hex (conj Hpre (conj Hx1 Hrec)))|].
  exact (unicode_path_record (CPython.zlib_crc32 name_a 0) private_record
           unicode_path_header unicode_path_a_to_b []
           entry_private_renamed entry_private_renamed Hex Hpre Hx1 Hrec).
Defined.

Example unicode_path_renames :
  unicode_path_outcome (CPython.zlib_crc32 name_a 0) unicode_path_a_to_b
    = Up_replace [98%N]
  ∧ filename
      (state_of (ZipInfo._decodeExtra (CPython.zlib_crc32 name_a 0)
                   (entry_a (unicode_path_header ++ unicode_path_a_to_b))))
    = [98%N]
  ∧ filename
      (state_of (ZipInfo._decodeExtra (CPython.zlib_crc32 name_a 0)
                   entry_private_renamed))
    = [98%N].
Proof. split_and!; vm_compute; reflexivity. Qed.

(** * [_sanitize_filename] *)

Lemma find_spec c s :
  if find c s <? 0 then c ∉ s
  else 0 ≤ find c s < len s ∧ s !! Z.to_nat (find c s) = Some c
       ∧ c ∉ take (Z.to_nat (find c s)) s.
Proof.
  induction s as [|d s IH]; simpl; [by apply not_elem_of_nil|].
  case_bool_decide as Hd; simpl.
  - subst d. split_and!; [lia|unfold len; simpl; lia|done|].
    apply not_elem_of_nil.
  - destruct (Z.ltb_spec (find c s) 0) as [Hn|Hn]; simpl.
    + rewrite not_elem_of_cons. done.
    + destruct (Z.ltb_spec (find c s + 1) 0); [lia|].
      destruct IH as (Hr & Hl & Ht).
      replace (Z.to_nat (find c s + 1)) with (S (Z.to_nat (find c s)))
        by lia.
      split_and!; [lia|unfold len in *; simpl; lia|done|].
      simpl. rewrite not_elem_of_cons. done.
Qed.

Lemma replace_not_elem c d e s : e ≠ d → e ∉ s → e ∉ replace c d s.
Proof.
  intros Hd Hs. unfold replace. rewrite list_elem_of_fmap.
  intros (y & Hy & Hin). case_bool_decide; subst; done.
Qed.

Lemma replace_removes c d s : c ≠ d → c ∉ replace c d s.
Proof.
  intros Hd. unfold replace. rewrite list_elem_of_fmap.
  intros (y & Hy & Hin). case_bool_decide; subst; done.
Qed.

Lemma replace_absent c d s : c ∉ s → replace c d s = s.
Proof.
  intros Hc. unfold replace. induction s as [|e s IH]; simpl; [done|].
  apply not_elem_of_cons in Hc as [? ?].
  rewrite bool_decide_false by done. f_equal. by apply IH.
Qed.

Section sanitize.
Context `{Platform}.

(** The steps of [_sanitize_filename], one at a time. *)
Lemma sanitize_filename_unfold s :
  _sanitize_filename s =
    let s1 := if find 0%N s >=? 0 then slice 0 (find 0%N s) s else s in
    let s2 := if bool_decide (os_sep ≠ slash) && contains os_sep s1
              then replace os_sep slash s1 else s1 in
    match os_altsep with
    | Some altsep =>
        if bool_decide (altsep ≠ slash) && contains altsep s2
        then replace altsep slash s2 else s2
    | None => s2
    end.
Proof. done. Qed.

Lemma truncate_no_nul s :
  0%N ∉ (if find 0%N s >=? 0 then slice 0 (find 0%N s) s else s).
Proof.
  pose proof (find_spec 0%N s) as Hf.
  destruct (Z.ltb_spec (find 0%N s) 0) as [Hn|Hn].
  - destruct (Z.geb_spec (find 0%N s) 0); [lia|done].
  - destruct (Z.geb_spec (find 0%N s) 0); [|lia].
    destruct Hf as (Hr & _ & Ht).
    rewrite slice_nonneg by lia. rewrite drop_0.
    by replace (Z.to_nat (find 0%N s - 0)) with (Z.to_nat (find 0%N s))
      by lia.
Qed.

Lemma maybe_replace_not_elem c e s :
  e ≠ slash → e ∉ s →
  e ∉ (if bool_decide (c ≠ slash) && contains c s
       then replace c slash s else s).
Proof. intros. case_match; [by apply replace_not_elem|done]. Qed.

Lemma maybe_replace_removes c s :
  c ≠ slash →
  c ∉ (if bool_decide (c ≠ slash) && contains c s
       then replace c slash s else s).
Proof.
  intros Hc. rewrite bool_decide_true by done. simpl. unfold contains.
  case_bool_decide; [by apply replace_removes|done].
Qed.

Lemma maybe_replace_absent c s :
  (c ≠ slash → c ∉ s) →
  (if bool_decide (c ≠ slash) && contains c s
   then replace c slash s else s) = s.
Proof.
  intros Hc. case_bool_decide; simpl; [|done].
  unfold contains. case_bool_decide; [|done]. by destruct Hc.
Qed.

(** A string that holds no NUL and no separator other than ["/"]. *)
Lemma sanitize_filename_clean_aux s :
  let r := _sanitize_filename s in
  (0%N ∉ r) ∧ (os_sep ≠ slash → os_sep ∉ r)
  ∧ (∀ altsep, os_altsep = Some altsep → altsep ≠ slash → altsep ∉ r).
Proof.
  rewrite sanitize_filename_unfold. cbv zeta.
  pose proof (truncate_no_nul s) as H0.
  set (s1 := if find 0%N s >=? 0 then _ else _) in *.
  assert (0%N ≠ slash) as Hz by done.
  pose proof (maybe_replace_not_elem os_sep 0%N s1 Hz H0) as H1.
  set (s2 := if bool_decide (os_sep ≠ slash) && _ then _ else _) in *.
  assert (os_sep ≠ slash → os_sep ∉ s2) as Hsep
    by (intros; by apply maybe_replace_removes).
  destruct os_altsep as [altsep|]; [|by split_and!].
  split_and!.
  - by apply maybe_replace_not_elem.
  - intros Hs. apply maybe_replace_not_elem; [done|by apply Hsep].
  - intros ? [= <-] Ha. by apply maybe_replace_removes.
Qed.

Lemma sanitize_filename_fixed s :
  0%N ∉ s → (os_sep ≠ slash → os_sep ∉ s) →
  (∀ altsep, os_altsep = Some altsep → altsep ≠ slash → altsep ∉ s) →
  _sanitize_filename s = s.
Proof.
  intros H0 Hsep Halt. rewrite sanitize_filename_unfold. cbv zeta.
  pose proof (find_spec 0%N s) as Hf.
  destruct (Z.ltb_spec (find 0%N s) 0) as [Hn|Hn].
  2:{ destruct Hf as (_ & Hl & _). by apply list_elem_of_lookup_2 in Hl. }
  destruct (Z.geb_spec (find 0%N s) 0); [lia|].
  rewrite (maybe_replace_absent os_sep s) by done.
  destruct os_altsep as [altsep|]; [|done].
  apply maybe_replace_absent. by apply Halt.
Qed.

(** What [_sanitize_filename] returns holds no NUL character and no
    separator of the platform other than ["/"]. *)
Theorem sanitize_filename_clean s :
  (0%N ∉ _sanitize_filename s)
  ∧ (os_sep ≠ slash → os_sep ∉ _sanitize_filename s)
  ∧ (∀ altsep, os_altsep = Some altsep → altsep ≠ slash →
       altsep ∉ _sanitize_filename s).
Proof. apply sanitize_filename_clean_aux. Qed.

(** Sanitizing twice is sanitizing once. *)
Theorem sanitize_filename_idempotent s :
  _sanitize_filename (_sanitize_filename s) = _sanitize_filename s.
Proof.
  destruct (sanitize_filename_clean_aux s) as (H0 & Hsep & Halt).
  by apply sanitize_filename_fixed.
Qed.

End sanitize.

(** On a POSIX system the sanitized name is the name up to its first
    NUL character, and the whole name when it has none. *)
Theorem sanitize_filename_posix s :
  _sanitize_filename s
  = if bool_decide (0%N ∈ s) then take (Z.to_nat (find 0%N s)) s else s.
Proof.
  rewrite sanitize_filename_unfold. cbv zeta. simpl.
  pose proof (find_spec 0%N s) as Hf.
  destruct (Z.ltb_spec (find 0%N s) 0) as [Hn|Hn].
  - destruct (Z.geb_spec (find 0%N s) 0); [lia|].
    by rewrite bool_decide_false.
  - destruct (Z.geb_spec (find 0%N s) 0); [|lia].
    destruct Hf as (_ & Hl & _). apply list_elem_of_lookup_2 in Hl.
    rewrite bool_decide_true by done.
    rewrite slice_nonneg by lia. rewrite drop_0. f_equal. lia.
Qed.

(** * [ZipInfo._decodeExtra] *)

Lemma stable_get {S} (I : S → Prop) : stable I get.
Proof. by intros s Hs. Qed.

(** [stable_bind], with what is known of the value. *)
Lemma stable_bind_with {S A B} (I : S → Prop) (Q : A → Prop)
    (m : M S A) (f : A → M S B) :
  stable I m → (∀ s a s', m s = Return a s' → Q a) →
  (∀ a, Q a → stable I (f a)) → stable I (m ≫= f).
Proof.
  intros Hm HQ Hf s Hs. specialize (Hm s Hs). unfold mbind, M_bind.
  destruct (m s) as [a s1|e s1] eqn:Hms; simpl in *; [|done].
  by eapply Hf; [eapply HQ|].
Qed.

Section decodeExtra_more.
Context `{Platform}.

Lemma unpack_Q_stable (I : ZipInfo → Prop) fld b :
  stable I (ZipInfo.unpack_Q fld b).
Proof. intros x Hx. unfold ZipInfo.unpack_Q. by case_match. Qed.

Lemma unpack_Q_nonneg fld b x v x' :
  ZipInfo.unpack_Q fld b x = Return v x' → 0 ≤ v.
Proof.
  unfold ZipInfo.unpack_Q. case_match; [|done].
  intros [= <- <-]. apply le_uint_nonneg.
Qed.

(** [decode_zip64] keeps what the three assignments keep when they
    assign a value that is not negative. *)
Lemma decode_zip64_stable (I : ZipInfo → Prop) data :
  (∀ v x, 0 ≤ v → I x → I (ZipInfo.set_file_size v x)) →
  (∀ v x, 0 ≤ v → I x → I (ZipInfo.set_compress_size v x)) →
  (∀ v x, 0 ≤ v → I x → I (ZipInfo.set_header_offset v x)) →
  stable I (ZipInfo.decode_zip64 data).
Proof.
  intros Hfs Hcs Hho. unfold ZipInfo.decode_zip64.
  repeat first
    [ apply stable_get | apply stable_mret | apply unpack_Q_stable
    | apply stable_modify; by auto
    | apply (stable_bind_with I (λ v, 0 ≤ v));
        [apply unpack_Q_stable|apply unpack_Q_nonneg|intros ? ?]
    | apply stable_bind; [|intros ?]
    | match goal with
      | |- stable _ (if ?b then _ else _) => destruct b
      end ].
Qed.

(** [decode_unicode_path] keeps what a change of file name keeps. *)
Lemma decode_unicode_path_stable (I : ZipInfo → Prop) filename_crc data :
  (∀ name x, I x → I (ZipInfo.set_filename name x)) →
  stable I (ZipInfo.decode_unicode_path filename_crc data).
Proof.
  intros Hfn. unfold ZipInfo.decode_unicode_path. cbv zeta.
  repeat first
    [ apply stable_mret | apply stable_raise
    | apply stable_modify; by auto
    | match goal with
      | |- stable _ (if ?b then _ else _) => destruct b
      | |- stable _ (match ?o with Some _ => _ | None => _ end) =>
          destruct o
      end ].
Qed.

Lemma decode_zip64_same_header x0 data :
  stable (same_header x0) (ZipInfo.decode_zip64 data).
Proof. apply decode_zip64_stable; by intros v x _. Qed.

Lemma decode_unicode_path_same_header x0 filename_crc data :
  stable (same_header x0) (ZipInfo.decode_unicode_path filename_crc data).
Proof. by apply decode_unicode_path_stable. Qed.

Lemma decodeExtra_loop_same_header x0 filename_crc fuel : ∀ extra_,
  stable (same_header x0)
    (ZipInfo._decodeExtra_loop fuel filename_crc extra_).
Proof.
  induction fuel as [|fuel IH]; intros extra_; simpl.
  - case_match; [apply stable_raise|apply stable_mret].
  - case_match; [|apply stable_mret].
    case_match; [apply stable_raise|].
    apply stable_bind; [|intros []; apply IH].
    repeat case_match;
      [apply decode_zip64_same_header
      |apply decode_unicode_path_same_header|apply stable_mret].
Qed.

Lemma decodeExtra_keeps_header filename_crc x :
  same_header x (state_of (ZipInfo._decodeExtra filename_crc x)).
Proof.
  unfold ZipInfo._decodeExtra. unfold get, mbind, M_bind.
  apply decodeExtra_loop_same_header. by unfold same_header.
Qed.

(** Whatever it meets, and whether it returns or raises,
    [_decodeExtra] leaves the names of the header, the comment, the
    extra field itself, the version, the flags, the CRC and the end
    offset as they were: only the two sizes, the header offset and the
    file name can change. *)
Theorem decodeExtra_same_header filename_crc x :
  same_header x (state_of (ZipInfo._decodeExtra filename_crc x)).
Proof. apply decodeExtra_keeps_header. Qed.

(** A record that announces more bytes than the extra field holds is an
    error that names its type and the length it announces; the entry is
    left as it was. *)
Theorem decodeExtra_overrun filename_crc x :
  4 ≤ len (extra x) →
  field 2 2 (extra x) + 4 > len (extra x) →
  ZipInfo._decodeExtra filename_crc x
  = Raise (BadZipFile (Corrupt_extra_field (field 0 2 (extra x))
                         (field 2 2 (extra x)))) x.
Proof.
  intros H4 Hln. unfold ZipInfo._decodeExtra. unfold get, mbind, M_bind.
  destruct (length (extra x)) as [|n] eqn:Hn; [unfold len in H4; lia|].
  simpl. destruct (Z.geb_spec (len (extra x)) 4); [|lia].
  rewrite !field_slice_to by lia.
  by destruct (Z.gtb_spec (field 2 2 (extra x) + 4) (len (extra x)));
    [|lia].
Qed.

(** A record of a type other than 1 and 0x7075 is passed over. *)
Theorem decodeExtra_skips_unknown filename_crc tp h data rest x :
  extra x = h ++ data ++ rest → extra_record tp h data →
  tp ≠ 1 → tp ≠ 0x7075 →
  ZipInfo._decodeExtra filename_crc x
  = ZipInfo._decodeExtra_loop (length rest) filename_crc rest x.
Proof.
  intros Hex Hrec H1 H2.
  rewrite (decodeExtra_record _ tp h data rest) by done.
  destruct (Z.eqb_spec tp 1); [done|].
  by destruct (Z.eqb_spec tp 0x7075).
Qed.

End decodeExtra_more.

Lemma decodeExtra_overrun_witness :
  (4 ≤ len (extra entry_overrun)
   ∧ field 2 2 (extra entry_overrun) + 4 > len (extra entry_overrun))
  ∧ ZipInfo._decodeExtra 0 entry_overrun
    = Raise (BadZipFile (Corrupt_extra_field
                           (field 0 2 (extra entry_overrun))
                           (field 2 2 (extra entry_overrun))))
        entry_overrun.
Proof.
  assert (4 ≤ len (extra entry_overrun)) as H4
    by (vm_compute; discriminate).
  assert (field 2 2 (extra entry_overrun) + 4 > len (extra entry_overrun))
    as Hln by (vm_compute; reflexivity).
  split; [exact (conj H4 Hln)|].
  exact (decodeExtra_overrun 0 entry_overrun H4 Hln).
Defined.

Lemma decodeExtra_skips_unknown_witness :
  (extra entry_private_4GiB
     = private_header ++ private_data ++ (zip64_header ++ zip64_4GiB)
   ∧ extra_record 0xCAFE private_header private_data
   ∧ 0xCAFE ≠ 1 ∧ 0xCAFE ≠ 0x7075)
  ∧ ZipInfo._decodeExtra 0 entry_private_4GiB
    = ZipInfo._decodeExtra_loop (length (zip64_header ++ zip64_4GiB)) 0
        (zip64_header ++ zip64_4GiB) entry_private_4GiB.
Proof.
  assert (extra entry_private_4GiB
          = private_header ++ private_data ++ (zip64_header ++ zip64_4GiB))
    as Hex by (vm_compute; reflexivity).
  assert (extra_record 0xCAFE private_header private_data) as Hrec
    by (split_and!; vm_compute; reflexivity).
  assert (0xCAFE ≠ 1) as H1 by discriminate.
  assert (0xCAFE ≠ 0x7075) as H2 by discriminate.
  split; [exact (conj Hex (conj Hrec (conj H1 H2)))|].
  exact (decodeExtra_skips_unknown 0 0xCAFE private_header private_data
           (zip64_header ++ zip64_4GiB) entry_private_4GiB Hex Hrec H1 H2).
Defined.

Example private_then_zip64 :
  file_size (state_of (ZipInfo._decodeExtra 0 entry_private_4GiB)) = 2 ^ 32.
Proof. vm_compute. reflexivity. Qed.

(** * [_EndRecData64] *)

(** With a locator that names a single disk and, fifty-six bytes before
    it, a record with the zip64 signature, [_EndRecData64] returns the
    record it was given with the signature, the two disk numbers, the
    two entry counts, the size and the offset of the directory replaced
    by those of the zip64 record; the length of the comment, the
    comment and the location are kept. *)
Theorem EndRecData64_zip64 f offset endrec :
  can_seek f = true →
  single_disk_locator (locator_at (len (content f)) offset) f →
  0 ≤ zip64_eocd_at (len (content f)) offset →
  len (zip64_eocd_bytes offset f) = sizeEndCentDir64 →
  slice 0 4 (zip64_eocd_bytes offset f) = stringEndArchive64 →
  ∃ f', _EndRecData64 offset endrec f =
    Return
      {| endrec0 := stringEndArchive64;
         endrec1 := field 16 4 (zip64_eocd_bytes offset f);
         endrec2 := field 20 4 (zip64_eocd_bytes offset f);
         endrec3 := field 24 8 (zip64_eocd_bytes offset f);
         endrec4 := field 32 8 (zip64_eocd_bytes offset f);
         endrec5 := field 40 8 (zip64_eocd_bytes offset f);
         endrec6 := field 48 8 (zip64_eocd_bytes offset f);
         endrec7 := endrec7 endrec; endrec8 := endrec8 endrec;
         endrec9 := endrec9 endrec |} f'.
Proof. intros. by apply EndRecData64_overrides. Qed.

(** A locator that names another disk than 0, or more than one disk, is
    an error. *)
Theorem EndRecData64_spans_disks f offset endrec :
  can_seek f = true →
  0 ≤ locator_at (len (content f)) offset →
  len (locator_bytes offset f) = sizeEndCentDir64Locator →
  slice 0 4 (locator_bytes offset f) = stringEndArchive64Locator →
  field 4 4 (locator_bytes offset f) ≠ 0
  ∨ field 16 4 (locator_bytes offset f) > 1 →
  raised (_EndRecData64 offset endrec f) = Some (BadZipFile Multiple_disks).
Proof. intros. by apply EndRecData64_multiple_disks. Qed.

(** When there is no room for a locator, when the twenty bytes are cut
    short or do not bear the signature of a locator, and when the
    locator names a single disk and the fifty-six bytes before it do
    not bear the zip64 signature, [_EndRecData64] returns the record it
    was given, and raises nothing. *)
Theorem EndRecData64_keeps f offset endrec :
  can_seek f = true →
  locator_at (len (content f)) offset < 0
  ∨ len (locator_bytes offset f) ≠ sizeEndCentDir64Locator
  ∨ slice 0 4 (locator_bytes offset f) ≠ stringEndArchive64Locator
  ∨ (single_disk_locator (locator_at (len (content f)) offset) f
     ∧ 0 ≤ zip64_eocd_at (len (content f)) offset
     ∧ slice 0 4 (zip64_eocd_bytes offset f) ≠ stringEndArchive64) →
  ∃ f', _EndRecData64 offset endrec f = Return endrec f'.
Proof.
  intros Hs Hcase. apply EndRecData64_falls_back; [done|].
  destruct Hcase as [?|[?|[?|(? & ? & ?)]]]; auto 10.
Qed.

Lemma EndRecData64_zip64_witness :
  (can_seek zip64_empty = true
   ∧ single_disk_locator (locator_at (len (content zip64_empty)) (-22))
       zip64_empty
   ∧ 0 ≤ zip64_eocd_at (len (content zip64_empty)) (-22)
   ∧ len (zip64_eocd_bytes (-22) zip64_empty) = sizeEndCentDir64
   ∧ slice 0 4 (zip64_eocd_bytes (-22) zip64_empty) = stringEndArchive64)
  ∧ ∃ f', _EndRecData64 (-22) endrec_at_76 zip64_empty =
      Return
        {| endrec0 := stringEndArchive64;
           endrec1 := field 16 4 (zip64_eocd_bytes (-22) zip64_empty);
           endrec2 := field 20 4 (zip64_eocd_bytes (-22) zip64_empty);
           endrec3 := field 24 8 (zip64_eocd_bytes (-22) zip64_empty);
           endrec4 := field 32 8 (zip64_eocd_bytes (-22) zip64_empty);
           endrec5 := field 40 8 (zip64_eocd_bytes (-22) zip64_empty);
           endrec6 := field 48 8 (zip64_eocd_bytes (-22) zip64_empty);
           endrec7 := endrec7 endrec_at_76;
           endrec8 := endrec8 endrec_at_76;
           endrec9 := endrec9 endrec_at_76 |} f'.
Proof.
  assert (can_seek zip64_empty = true) as H1 by reflexivity.
  assert (single_disk_locator (locator_at (len (content zip64_empty)) (-22))
            zip64_empty) as H2.
  { unfold single_disk_locator.
    split_and!; vm_compute; first [reflexivity | discriminate]. }
  assert (0 ≤ zip64_eocd_at (len (content zip64_empty)) (-22)) as H3
    by (vm_compute; discriminate).
  assert (len (zip64_eocd_bytes (-22) zip64_empty) = sizeEndCentDir64)
    as H4 by (vm_compute; reflexivity).
  assert (slice 0 4 (zip64_eocd_bytes (-22) zip64_empty)
          = stringEndArchive64) as H5 by (vm_compute; reflexivity).
  split; [exact (conj H1 (conj H2 (conj H3 (conj H4 H5))))|].
  exact (EndRecData64_zip64 zip64_empty (-22) endrec_at_76 H1 H2 H3 H4 H5).
Defined.

Lemma EndRecData64_spans_disks_witness :
  (can_seek zip64_two_disks = true
   ∧ 0 ≤ locator_at (len (content zip64_two_disks)) (-22)
   ∧ len (locator_bytes (-22) zip64_two_disks) = sizeEndCentDir64Locator
   ∧ slice 0 4 (locator_bytes (-22) zip64_two_disks)
     = stringEndArchive64Locator
   ∧ field 16 4 (locator_bytes (-22) zip64_two_disks) > 1)
  ∧ raised (_EndRecData64 (-22) endrec_at_76 zip64_two_disks)
    = Some (BadZipFile Multiple_disks).
Proof.
  assert (can_seek zip64_two_disks = true) as H1 by reflexivity.
  assert (0 ≤ locator_at (len (content zip64_two_disks)) (-22)) as H2
    by (vm_compute; discriminate).
  assert (len (locator_bytes (-22) zip64_two_disks)
          = sizeEndCentDir64Locator) as H3 by (vm_compute; reflexivity).
  assert (slice 0 4 (locator_bytes (-22) zip64_two_disks)
          = stringEndArchive64Locator) as H4 by (vm_compute; reflexivity).
  assert (field 16 4 (locator_bytes (-22) zip64_two_disks) > 1) as H5
    by (vm_compute; reflexivity).
  split; [exact (conj H1 (conj H2 (conj H3 (conj H4 H5))))|].
  exact (EndRecData64_spans_disks zip64_two_disks (-22) endrec_at_76
           H1 H2 H3 H4 (or_intror H5)).
Defined.

Lemma EndRecData64_keeps_witness :
  ((can_seek (file_of empty_eocd) = true
    ∧ locator_at (len (content (file_of empty_eocd))) (-22) < 0)
   ∧ ∃ f', _EndRecData64 (-22) endrec_at_76 (file_of empty_eocd)
           = Return endrec_at_76 f')
  ∧ ((can_seek junk_only = true
      ∧ len (locator_bytes 10 junk_only) ≠ sizeEndCentDir64Locator)
     ∧ ∃ f', _EndRecData64 10 endrec_at_76 junk_only
             = Return endrec_at_76 f')
  ∧ ((can_seek junk_only = true
      ∧ slice 0 4 (locator_bytes (-22) junk_only)
        ≠ stringEndArchive64Locator)
     ∧ ∃ f', _EndRecData64 (-22) endrec_at_76 junk_only
             = Return endrec_at_76 f')
  ∧ ((can_seek zip64_unsigned = true
      ∧ single_disk_locator
          (locator_at (len (content zip64_unsigned)) (-22)) zip64_unsigned
      ∧ 0 ≤ zip64_eocd_at (len (content zip64_unsigned)) (-22)
      ∧ slice 0 4 (zip64_eocd_bytes (-22) zip64_unsigned)
        ≠ stringEndArchive64)
     ∧ ∃ f', _EndRecData64 (-22) endrec_at_76 zip64_unsigned
             = Return endrec_at_76 f').
Proof.
  assert (can_seek (file_of empty_eocd) = true) as Ha by reflexivity.
  assert (locator_at (len (content (file_of empty_eocd))) (-22) < 0)
    as Ha' by (vm_compute; reflexivity).
  assert (can_seek junk_only = true) as Hb by reflexivity.
  assert (len (locator_bytes 10 junk_only) ≠ sizeEndCentDir64Locator)
    as Hb' by (vm_compute; discriminate).
  assert (slice 0 4 (locator_bytes (-22) junk_only)
          ≠ stringEndArchive64Locator) as Hc by (vm_compute; discriminate).
  assert (can_seek zip64_unsigned = true) as Hd by reflexivity.
  assert (single_disk_locator
            (locator_at (len (content zip64_unsigned)) (-22))
            zip64_unsigned) as Hd1.
  { unfold single_disk_locator.
    split_and!; vm_compute; first [reflexivity | discriminate]. }
  assert (0 ≤ zip64_eocd_at (len (content zip64_unsigned)) (-22)) as Hd2
    by (vm_compute; discriminate).
  assert (slice 0 4 (zip64_eocd_bytes (-22) zip64_unsigned)
          ≠ stringEndArchive64) as Hd3 by (vm_compute; discriminate).
  split; [|split; [|split]].
  - split; [exact (conj Ha Ha')|].
    exact (EndRecData64_keeps (file_of empty_eocd) (-22) endrec_at_76 Ha
             (or_introl Ha')).
  - split; [exact (conj Hb Hb')|].
    exact (EndRecData64_keeps junk_only 10 endrec_at_76 Hb
             (or_intror (or_introl Hb'))).
  - split; [exact (conj Hb Hc)|].
    exact (EndRecData64_keeps junk_only (-22) endrec_at_76 Hb
             (or_intror (or_intror (or_introl Hc)))).
  - split; [exact (conj Hd (conj Hd1 (conj Hd2 Hd3)))|].
    exact (EndRecData64_keeps zip64_unsigned (-22) endrec_at_76 Hd
             (or_intror (or_intror (or_intror
                (conj Hd1 (conj Hd2 Hd3)))))).
Defined.

Example zip64_empty_accepted :
  raised (ZipFile.__init__ (zip64_empty, new_ZipFile)) = None
  ∧ raised (ZipFile.__init__ (zip64_two_disks, new_ZipFile))
    = Some (BadZipFile Multiple_disks).
Proof. split; vm_compute; reflexivity. Qed.

(** * [ZipFile.__init__] and [_RealGetContents] *)

Lemma names_last_append x z : names_last z → names_last (append_entry x z).
Proof.
  intros Hz name. specialize (Hz name). unfold append_entry. simpl.
  destruct (decide (filename x = name)) as [<-|Hne].
  - rewrite lookup_insert_eq. split.
    + exists x. by rewrite lookup_app_r, Nat.sub_diag.
    + intros i y Hy _. apply lookup_lt_Some in Hy.
      rewrite length_app in Hy. simpl in Hy. lia.
  - rewrite lookup_insert_ne by done.
    destruct (NameToInfo z !! name) as [j|].
    + destruct Hz as [(x0 & Hx0 & Hn) Hlast]. split.
      * exists x0. split; [|done]. by apply lookup_app_l_Some.
      * intros i y Hy Hname.
        apply lookup_app_Some in Hy as [Hy|[_ Hy]]; [by eapply Hlast|].
        apply list_lookup_singleton_Some in Hy as [_ <-]. done.
    + intros y [Hy|Hy%list_elem_of_singleton]%elem_of_app; [by apply Hz|].
      by subst.
Qed.

Lemma sweep_unswept (z : ZipFile) :
  ZipInfo.set__end_offset None <$> filelist (ZipFile.sweep z)
  = ZipInfo.set__end_offset None <$> filelist z.
Proof.
  destruct (assign_end_offsets_spec (ZipFile.sorted_filelist (filelist z))
              (start_dir z) (filelist z)) as (Hsame & _); [| |done].
  - apply sorted_filelist_NoDup.
  - intros ?. apply sorted_filelist_elem.
Qed.

Lemma sweep_filename (z : ZipFile) i :
  filename <$> filelist (ZipFile.sweep z) !! i = filename <$> filelist z !! i.
Proof.
  assert (ZipInfo.set__end_offset None <$> filelist (ZipFile.sweep z) !! i
          = ZipInfo.set__end_offset None <$> filelist z !! i) as Hi
    by (by rewrite <- !list_lookup_fmap, sweep_unswept).
  destruct (filelist (ZipFile.sweep z) !! i) as [x|],
    (filelist z !! i) as [y|]; simpl in *; try done.
  unfold ZipInfo.set__end_offset in Hi. congruence.
Qed.

Lemma names_last_sweep z : names_last z → names_last (ZipFile.sweep z).
Proof.
  intros Hz name. specialize (Hz name).
  change (NameToInfo (ZipFile.sweep z)) with (NameToInfo z).
  destruct (NameToInfo z !! name) as [j|].
  - destruct Hz as [(x0 & Hx0 & Hn) Hlast]. split.
    + pose proof (sweep_filename z j) as Hj. rewrite Hx0 in Hj.
      destruct (filelist (ZipFile.sweep z) !! j) as [x|]; [|done].
      exists x. split; [done|]. simpl in Hj. congruence.
    + intros i y Hy Hname. pose proof (sweep_filename z i) as Hi.
      rewrite Hy in Hi.
      destruct (filelist z !! i) as [y0|] eqn:Hy0; [|done].
      apply (Hlast i y0); [done|]. simpl in Hi. congruence.
  - intros y [i Hy]%list_elem_of_lookup_1.
    pose proof (sweep_filename z i) as Hi. rewrite Hy in Hi.
    destruct (filelist z !! i) as [y0|] eqn:Hy0; [|done].
    simpl in Hi. injection Hi as ->.
    apply Hz. by eapply list_elem_of_lookup_2.
Qed.

Section directory.
Context `{Platform}.

Lemma decode_zip64_sizes data :
  stable sizes_nonneg (ZipInfo.decode_zip64 data).
Proof.
  apply decode_zip64_stable; intros v x Hv [Hc Hf]; by split.
Qed.

Lemma decode_unicode_path_sizes filename_crc data :
  stable sizes_nonneg (ZipInfo.decode_unicode_path filename_crc data).
Proof. by apply decode_unicode_path_stable. Qed.

Lemma decodeExtra_loop_sizes filename_crc fuel : ∀ extra_,
  stable sizes_nonneg (ZipInfo._decodeExtra_loop fuel filename_crc extra_).
Proof.
  induction fuel as [|fuel IH]; intros extra_; simpl.
  - case_match; [apply stable_raise|apply stable_mret].
  - case_match; [|apply stable_mret].
    case_match; [apply stable_raise|].
    apply stable_bind; [|intros []; apply IH].
    repeat case_match;
      [apply decode_zip64_sizes
      |apply decode_unicode_path_sizes|apply stable_mret].
Qed.

Lemma decodeExtra_sizes filename_crc :
  stable sizes_nonneg (ZipInfo._decodeExtra filename_crc).
Proof.
  intros x Hx. unfold ZipInfo._decodeExtra. unfold get, mbind, M_bind.
  by apply decodeExtra_loop_sizes.
Qed.

Lemma read_centdir_listed concat bio x size bio' :
  ZipFile.read_centdir concat bio = Return (x, size) bio' → listed x.
Proof.
  unfold ZipFile.read_centdir.
  intros Hr.
  apply bind_Return in Hr as (centdir & b1 & _ & Hr).
  case_bool_decide; [done|]. case_bool_decide; [done|].
  apply bind_Return in Hr as (raw & b2 & _ & Hr).
  apply bind_Return in Hr as (decoded & b3 & _ & Hr).
  apply bind_Return in Hr as (extra_ & b4 & _ & Hr).
  apply bind_Return in Hr as (comment_ & b5 & _ & Hr).
  cbv zeta in Hr. cbn [extract_version] in Hr.
  destruct (Z.gtb_spec (field 6 1 centdir) 63) as [|Hv]; [done|].
  match type of Hr with
  | context [ZipInfo._decodeExtra ?c ?x0] =>
      pose proof (decodeExtra_keeps_header c x0) as Hsame;
      pose proof (decodeExtra_sizes c x0) as Hsizes;
      destruct (ZipInfo._decodeExtra c x0) as [[] x1|e x1]
  end; [|done].
  unfold mret, M_ret in Hr. injection Hr as <- _ _.
  destruct Hsame as (_ & _ & _ & Hver & _ & Hcrc & _).
  destruct Hsizes as [Hc Hf].
  { split; simpl; apply field_nonneg. }
  simpl in *. split; simpl; [lia|by rewrite Hcrc|done|done].
Qed.

Lemma read_directory_entries fuel : ∀ concat size_cd total bio w w',
  ZipFile.read_directory fuel concat size_cd total bio w = Return () w' →
  w'.1 = w.1
  ∧ ∃ xs, Forall listed xs ∧ w'.2 = foldl (flip append_entry) w.2 xs.
Proof.
  induction fuel as [|fuel IH]; intros concat size_cd total bio w w'; simpl.
  - case_match; [done|]. intros [= <-]. split; [done|]. by exists [].
  - case_match; [|intros [= <-]; split; [done|]; by exists []].
    destruct (ZipFile.read_centdir concat bio) as [[x size] bio'|] eqn:Hc;
      [|done].
    apply read_centdir_listed in Hc.
    unfold ZipFile.update, modify, mbind, M_bind.
    intros Hr. apply IH in Hr as (Hf & xs & Hxs & Hz). simpl in *.
    split; [done|]. exists (x :: xs). split; [by constructor|done].
Qed.

(** What [_RealGetContents] leaves when it returns: the archive object
    it started from, with the entries it has listed appended one by one
    and then swept, and the directory at an offset that is not
    negative. *)
Lemma RealGetContents_entries w w' :
  ZipFile._RealGetContents w = Return () w' →
  ∃ start xs,
    0 ≤ start ∧ Forall listed xs
    ∧ w'.2 = ZipFile.sweep
               (foldl (flip append_entry)
                  (ZipFile.set_start_dir start w.2) xs).
Proof.
  unfold ZipFile._RealGetContents. intros Hr.
  apply bind_Return in Hr as (z & w1 & [= <- <-] & Hr).
  apply bind_Return in Hr as (endrec & w2 & He & Hr).
  assert (w2.2 = w.2) as H2.
  { unfold try_except, ZipFile.on_fp, zoom in He.
    destruct (fp w.2) as [[]|]; [|done].
    destruct (_EndRecData w.1); repeat case_match; by simplify_eq/=. }
  destruct endrec as [endrec|]; [|done].
  apply bind_Return in Hr as ([] & w3 & [= <-] & Hr).
  cbv zeta in Hr. cbn [fst snd] in Hr.
  match type of Hr with
  | context [if ?s <? 0 then _ else _] =>
      destruct (Z.ltb_spec s 0) as [|Hs]; [done|]; set (start := s) in *
  end.
  apply bind_Return in Hr as (? & w4 & H4 & Hr).
  apply bind_Return in Hr as (data & w5 & H5 & Hr).
  assert (w5.2 = ZipFile.set_start_dir start w.2) as Hw5.
  { unfold ZipFile.on_fp, zoom in H4, H5.
    destruct (fp w.2) as [[]|]; [|done].
    destruct (BinaryFile.seek _ _ _); [|done].
    unfold BinaryFile.read in *. simplify_eq/=. by rewrite ?H2. }
  apply bind_Return in Hr as ([] & w6 & H6 & Hr).
  apply read_directory_entries in H6 as (_ & xs & Hxs & H6).
  unfold ZipFile.update, modify in Hr. injection Hr as <-.
  exists start, xs. split_and!; [done|done|]. simpl.
  by rewrite H6, Hw5.
Qed.

End directory.

Lemma foldl_append_filelist xs : ∀ z,
  filelist (foldl (flip append_entry) z xs) = filelist z ++ xs.
Proof.
  induction xs as [|x xs IH]; intros z; simpl; [by rewrite app_nil_r|].
  rewrite IH. simpl. by rewrite <- app_assoc.
Qed.

Lemma foldl_append_names_last xs : ∀ z,
  names_last z → names_last (foldl (flip append_entry) z xs).
Proof.
  induction xs as [|x xs IH]; intros z Hz; simpl; [done|].
  by apply IH, names_last_append.
Qed.

Lemma foldl_append_frame xs : ∀ z,
  fp (foldl (flip append_entry) z xs) = fp z
  ∧ _fileRefCnt (foldl (flip append_entry) z xs) = _fileRefCnt z
  ∧ start_dir (foldl (flip append_entry) z xs) = start_dir z.
Proof.
  induction xs as [|x xs IH]; intros z; simpl; [done|].
  destruct (IH (append_entry x z)) as (-> & -> & ->). done.
Qed.

Lemma listed_unswept x y :
  ZipInfo.set__end_offset None x = ZipInfo.set__end_offset None y →
  listed y → listed x.
Proof.
  unfold ZipInfo.set__end_offset. intros [= _ _ _ _ Hv _ Hc Hcs Hfs _] [].
  split; congruence.
Qed.

Lemma sweep_listed z : Forall listed (filelist z) →
  Forall listed (filelist (ZipFile.sweep z)).
Proof.
  rewrite !Forall_lookup. intros Hz i x Hx.
  pose proof (sweep_unswept z) as Hs.
  apply (f_equal (λ l, l !! i)) in Hs. rewrite !list_lookup_fmap, Hx in Hs.
  destruct (filelist z !! i) as [y|] eqn:Hy; [|done].
  eapply listed_unswept; [|by eapply Hz]. by apply (inj Some).
Qed.

Section init.
Context `{Platform}.

Lemma init_returns w w' :
  ZipFile.__init__ w = Return () w' →
  ZipFile._RealGetContents (w.1, fresh_ZipFile) = Return () w'.
Proof.
  unfold ZipFile.__init__, ZipFile.update, modify, try_except.
  unfold mbind at 1, M_bind at 1. simpl. fold fresh_ZipFile.
  destruct (ZipFile._RealGetContents _) as [[] w2|e w2]; [done|].
  intros Hr. apply bind_Return in Hr as (? & ? & _ & Hr).
  by apply bind_Return in Hr as (? & ? & _ & Hr).
Qed.

Lemma init_entries w w' :
  ZipFile.__init__ w = Return () w' →
  ∃ start xs,
    0 ≤ start ∧ Forall listed xs
    ∧ w'.2 = ZipFile.sweep
               (foldl (flip append_entry)
                  (ZipFile.set_start_dir start fresh_ZipFile) xs).
Proof. intros Hr%init_returns. by apply RealGetContents_entries in Hr. Qed.

(** In the archive object that [ZipFile(file)] leaves, [NameToInfo]
    gives for a name the last entry of the directory with that file
    name, and gives nothing for a name that no entry bears. *)
Theorem init_names_last_entry w w' name :
  ZipFile.__init__ w = Return () w' →
  match ZipFile.getinfo name w'.2 with
  | Some x =>
      filename x = name
      ∧ ∃ j, filelist w'.2 !! j = Some x
             ∧ ∀ i y, filelist w'.2 !! i = Some y → filename y = name →
                      (i ≤ j)%nat
  | None => ∀ y, y ∈ filelist w'.2 → filename y ≠ name
  end.
Proof.
  intros (start & xs & _ & _ & ->)%init_entries.
  set (z := ZipFile.sweep _).
  assert (names_last z) as Hz.
  { apply names_last_sweep, foldl_append_names_last.
    intros n. simpl. rewrite lookup_empty. by intros y ?%elem_of_nil. }
  specialize (Hz name). unfold ZipFile.getinfo.
  destruct (NameToInfo z !! name) as [j|]; cbn [mbind option_bind]; [|done].
  destruct Hz as [(x & Hx & Hn) Hlast]. rewrite Hx. eauto.
Qed.

(** Every entry that [ZipFile(file)] lists needs version 6.3 at most,
    has a CRC, and has sizes that are not negative; the directory
    starts at an offset that is not negative. *)
Theorem init_entries_listed w w' :
  ZipFile.__init__ w = Return () w' →
  0 ≤ start_dir w'.2 ∧ Forall listed (filelist w'.2).
Proof.
  intros (start & xs & Hs & Hxs & ->)%init_entries. split.
  - rewrite sweep_start_dir.
    by destruct (foldl_append_frame xs
                   (ZipFile.set_start_dir start fresh_ZipFile))
      as (_ & _ & ->).
  - apply sweep_listed. by rewrite foldl_append_filelist.
Qed.

End init.

Lemma init_names_last_entry_witness :
  ZipFile.__init__ (file_of two_entries, new_ZipFile)
    = Return () (opened two_entries)
  ∧ match ZipFile.getinfo b_txt (opened two_entries).2 with
    | Some x =>
        filename x = b_txt
        ∧ ∃ j, filelist (opened two_entries).2 !! j = Some x
               ∧ ∀ i y, filelist (opened two_entries).2 !! i = Some y →
                        filename y = b_txt → (i ≤ j)%nat
    | None => ∀ y, y ∈ filelist (opened two_entries).2 → filename y ≠ b_txt
    end.
Proof.
  assert (ZipFile.__init__ (file_of two_entries, new_ZipFile)
          = Return () (opened two_entries)) as Hi
    by (vm_compute; reflexivity).
  split; [exact Hi|].
  exact (init_names_last_entry (file_of two_entries, new_ZipFile)
           (opened two_entries) b_txt Hi).
Defined.

Lemma init_entries_listed_witness :
  ZipFile.__init__ (file_of two_entries, new_ZipFile)
    = Return () (opened two_entries)
  ∧ 0 ≤ start_dir (opened two_entries).2
  ∧ Forall listed (filelist (opened two_entries).2).
Proof.
  assert (ZipFile.__init__ (file_of two_entries, new_ZipFile)
          = Return () (opened two_entries)) as Hi
    by (vm_compute; reflexivity).
  split; [exact Hi|].
  exact (init_entries_listed (file_of two_entries, new_ZipFile)
           (opened two_entries) Hi).
Defined.

Lemma untouched_refl f : untouched f f.
Proof. by unfold untouched. Qed.

Lemma untouched_trans f1 f2 f3 :
  untouched f1 f2 → untouched f2 f3 → untouched f1 f3.
Proof. unfold untouched. naive_solver congruence. Qed.

Section only_moves.
Context {S : Type} `{HasFile S}.

Lemma only_moves_mret {A} (a : A) : only_moves (mret a : M S A).
Proof. intros s. apply untouched_refl. Qed.

Lemma only_moves_raise {A} e : only_moves (@raise S A e).
Proof. intros s. apply untouched_refl. Qed.

Lemma only_moves_get : only_moves (@get S).
Proof. intros s. apply untouched_refl. Qed.

Lemma only_moves_modify (f : S → S) :
  (∀ s, the_file (f s) = the_file s) → only_moves (modify f).
Proof. intros Hf s. simpl. rewrite Hf. apply untouched_refl. Qed.

Lemma only_moves_bind {A B} (m : M S A) (f : A → M S B) :
  only_moves m → (∀ a, only_moves (f a)) → only_moves (m ≫= f).
Proof.
  intros Hm Hf s. specialize (Hm s). unfold mbind, M_bind.
  destruct (m s) as [a s1|e s1]; simpl in *; [|done].
  eapply untouched_trans; [exact Hm|apply Hf].
Qed.

Lemma only_moves_fmap {A B} (g : A → B) (m : M S A) :
  only_moves m → only_moves (g <$> m).
Proof.
  intros Hm s. specialize (Hm s). unfold fmap, M_fmap.
  by destruct (m s).
Qed.

Lemma only_moves_try_except {A} (m : M S A) catches h :
  only_moves m → (∀ e, only_moves (h e)) →
  only_moves (try_except m catches h).
Proof.
  intros Hm Hh s. specialize (Hm s). unfold try_except.
  destruct (m s) as [a s1|e s1]; simpl in *; [done|].
  destruct (catches e); [|done].
  eapply untouched_trans; [exact Hm|apply Hh].
Qed.

(** A computation on a component that holds the stream. *)
Lemma only_moves_zoom {T A} `{HasFile T} (view : S → T)
    (update : T → S → S) (m : M T A) :
  (∀ s, the_file (view s) = the_file s) →
  (∀ t s, the_file (update t s) = the_file t) →
  only_moves m → only_moves (zoom view update m).
Proof.
  intros Hv Hu Hm s. specialize (Hm (view s)). unfold zoom.
  destruct (m (view s)); simpl in *; by rewrite Hu, <- Hv.
Qed.

(** A computation on a component that does not. *)
Lemma only_moves_zoom_aside {T A} (view : S → T)
    (update : T → S → S) (m : M T A) :
  (∀ t s, the_file (update t s) = the_file s) →
  only_moves (zoom view update m).
Proof.
  intros Hu s. unfold zoom.
  destruct (m (view s)); simpl; rewrite Hu; apply untouched_refl.
Qed.

End only_moves.

Create HintDb only_moves.
#[local] Hint Resolve only_moves_mret only_moves_raise only_moves_get
  only_moves_fmap : only_moves.
#[local] Hint Extern 1 (only_moves (modify _)) =>
  apply only_moves_modify; by intros [] : only_moves.
#[local] Hint Extern 2 (only_moves (_ ≫= _)) =>
  apply only_moves_bind; [|intros ?] : only_moves.
#[local] Hint Extern 2 (only_moves (try_except _ _ _)) =>
  apply only_moves_try_except; [|intros ?] : only_moves.
#[local] Hint Extern 2 (only_moves (zoom _ _ _)) =>
  first [ apply only_moves_zoom; [by intros []|by intros [] []|]
        | apply only_moves_zoom; [by intros []|by intros ? []|]
        | apply only_moves_zoom_aside; by intros ? [] ] : only_moves.
#[local] Hint Extern 3 (only_moves (if ?b then _ else _)) =>
  destruct b : only_moves.
#[local] Hint Extern 4 (only_moves _) => progress case_match : only_moves.

Lemma BinaryFile_read_moves n : only_moves (BinaryFile.read n).
Proof. by intros f. Qed.
Lemma BinaryFile_tell_moves : only_moves BinaryFile.tell.
Proof. by intros f. Qed.
Lemma BinaryFile_seek_moves offset whence :
  only_moves (BinaryFile.seek offset whence).
Proof.
  intros f. unfold BinaryFile.seek.
  repeat case_match; apply untouched_refl || done.
Qed.
Lemma BinaryFile_seekable_moves : only_moves BinaryFile.seekable.
Proof. by intros f. Qed.
#[local] Hint Resolve BinaryFile_read_moves BinaryFile_tell_moves
  BinaryFile_seek_moves BinaryFile_seekable_moves : only_moves.

Lemma EndRecData64_moves offset endrec :
  only_moves (_EndRecData64 offset endrec).
Proof. unfold _EndRecData64. auto 40 with only_moves. Qed.
#[local] Hint Resolve EndRecData64_moves : only_moves.

Lemma EndRecData_moves : only_moves _EndRecData.
Proof. unfold _EndRecData. auto 40 with only_moves. Qed.
#[local] Hint Resolve EndRecData_moves : only_moves.

Section methods_only_move.
Context `{Platform}.

Lemma on_file_moves {A} (m : M BinaryFile A) :
  only_moves m → only_moves (_SharedFile.on_file m).
Proof.
  intros. unfold _SharedFile.on_file, _SharedFile.self.
  apply only_moves_bind; [by intros ?|intros h].
  auto 40 with only_moves.
Qed.
#[local] Hint Resolve on_file_moves : only_moves.

Lemma SharedFile_self_moves : only_moves _SharedFile.self.
Proof. intros s. apply untouched_refl. Qed.
Lemma ZipFile_self_moves : only_moves ZipFile.self.
Proof. intros s. apply untouched_refl. Qed.
Lemma ZipExtFile_self_moves : only_moves ZipExtFile.self.
Proof. intros s. apply untouched_refl. Qed.
#[local] Hint Resolve SharedFile_self_moves ZipFile_self_moves
  ZipExtFile_self_moves : only_moves.

Lemma SharedFile_read_moves n : only_moves (_SharedFile.read n).
Proof.
  unfold _SharedFile.read, _SharedFile.update. auto 40 with only_moves.
Qed.
Lemma SharedFile_seek_moves offset whence :
  only_moves (_SharedFile.seek offset whence).
Proof.
  unfold _SharedFile.seek, _SharedFile.update. auto 40 with only_moves.
Qed.
Lemma SharedFile_init_moves {S} `{HasFile S} file pos :
  only_moves (@_SharedFile.__init__ S file pos).
Proof. unfold _SharedFile.__init__. auto with only_moves. Qed.
#[local] Hint Resolve SharedFile_read_moves SharedFile_seek_moves
  SharedFile_init_moves : only_moves.

Lemma on_fp_moves {A} file (m : M BinaryFile A) :
  only_moves m → only_moves (ZipFile.on_fp file m).
Proof. intros. unfold ZipFile.on_fp. auto 40 with only_moves. Qed.
#[local] Hint Resolve on_fp_moves : only_moves.

Lemma decode_name_moves {S} `{HasFile S} flags raw :
  only_moves (@ZipFile.decode_name _ flags raw S).
Proof. unfold ZipFile.decode_name. auto 40 with only_moves. Qed.
#[local] Hint Resolve decode_name_moves : only_moves.

Lemma read_directory_moves fuel : ∀ concat size_cd total bio,
  only_moves (ZipFile.read_directory fuel concat size_cd total bio).
Proof.
  induction fuel as [|fuel IH]; intros concat size_cd total bio; simpl;
    unfold ZipFile.update; auto 20 with only_moves.
Qed.
#[local] Hint Resolve read_directory_moves : only_moves.

Lemma RealGetContents_moves : only_moves ZipFile._RealGetContents.
Proof.
  unfold ZipFile._RealGetContents, ZipFile.update.
  auto 40 with only_moves.
Qed.
#[local] Hint Resolve RealGetContents_moves : only_moves.

Lemma init_moves : only_moves ZipFile.__init__.
Proof.
  unfold ZipFile.__init__, ZipFile.update. auto 40 with only_moves.
Qed.

Lemma close_moves : only_moves ZipFile.close.
Proof. unfold ZipFile.close. auto 40 with only_moves. Qed.

Lemma check_local_header_moves zinfo :
  only_moves (ZipFile.check_local_header zinfo).
Proof. unfold ZipFile.check_local_header. auto 40 with only_moves. Qed.
#[local] Hint Resolve check_local_header_moves : only_moves.

Lemma ZipExtFile_init_moves fileobj zipinfo :
  only_moves (ZipExtFile.__init__ fileobj zipinfo).
Proof. by intros f. Qed.
#[local] Hint Resolve ZipExtFile_init_moves : only_moves.

Lemma open_entry_moves zinfo : only_moves (ZipFile.open_entry zinfo).
Proof. unfold ZipFile.open_entry. auto 40 with only_moves. Qed.

Lemma try_open_entry_moves zinfo zef_file :
  only_moves (ZipFile.try_open_entry zinfo zef_file).
Proof.
  intros w. unfold ZipFile.try_open_entry.
  pose proof (open_entry_moves zinfo (w.1, zef_file)) as Ho.
  destruct (ZipFile.open_entry _ _) as [zef [f h]|e [f h]]; [done|].
  by destruct (_SharedFile.close _ _) as [[] [z h']|e' [z h']].
Qed.
#[local] Hint Resolve try_open_entry_moves : only_moves.

Lemma open_moves name : only_moves (ZipFile.open name).
Proof. unfold ZipFile.open, ZipFile.update. auto 40 with only_moves. Qed.

Lemma on_fileobj_moves {A} (m : M (BinaryFile * _SharedFile) A) :
  only_moves m → only_moves (ZipExtFile.on_fileobj m).
Proof. intros. unfold ZipExtFile.on_fileobj. auto with only_moves. Qed.
#[local] Hint Resolve on_fileobj_moves : only_moves.

Lemma read2_moves n : only_moves (ZipExtFile._read2 n).
Proof.
  unfold ZipExtFile._read2, ZipExtFile.update. auto 40 with only_moves.
Qed.
#[local] Hint Resolve read2_moves : only_moves.

Lemma update_crc_moves data : only_moves (ZipExtFile._update_crc data).
Proof.
  unfold ZipExtFile._update_crc, ZipExtFile.update.
  auto 40 with only_moves.
Qed.
#[local] Hint Resolve update_crc_moves : only_moves.

Lemma read1_moves n : only_moves (ZipExtFile._read1 n).
Proof.
  unfold ZipExtFile._read1, ZipExtFile.update. auto 40 with only_moves.
Qed.
#[local] Hint Resolve read1_moves : only_moves.

Lemma read_all_moves fuel : ∀ acc, only_moves (ZipExtFile.read_all fuel acc).
Proof.
  induction fuel as [|fuel IH]; intros acc; simpl;
    unfold ZipExtFile.update; auto 40 with only_moves.
Qed.

Lemma read_some_moves fuel : ∀ n acc,
  only_moves (ZipExtFile.read_some fuel n acc).
Proof.
  induction fuel as [|fuel IH]; intros n acc; simpl;
    unfold ZipExtFile.update; auto 40 with only_moves.
Qed.
#[local] Hint Resolve read_all_moves read_some_moves : only_moves.

Lemma read_moves n : only_moves (ZipExtFile.read n).
Proof.
  unfold ZipExtFile.read, ZipExtFile.update. auto 40 with only_moves.
Qed.
#[local] Hint Resolve read_moves : only_moves.

Lemma tell_moves : only_moves ZipExtFile.tell.
Proof. unfold ZipExtFile.tell. auto 40 with only_moves. Qed.
#[local] Hint Resolve tell_moves : only_moves.

Lemma seek_skip_moves fuel : ∀ read_offset,
  only_moves (ZipExtFile.seek_skip fuel read_offset).
Proof.
  induction fuel as [|fuel IH]; intros read_offset; simpl;
    auto 40 with only_moves.
Qed.
#[local] Hint Resolve seek_skip_moves : only_moves.

Lemma seek_moves offset whence : only_moves (ZipExtFile.seek offset whence).
Proof.
  unfold ZipExtFile.seek, ZipExtFile.update. auto 60 with only_moves.
Qed.

(** No method of the archive or of a stream of it writes to the
    underlying stream, changes whether it can seek, or closes it:
    whether they return or raise, [ZipFile(file)], [open], [close],
    [read] and [seek] leave it with the bytes it had, and as open as it
    was. *)
Theorem stream_only_moves :
  only_moves ZipFile.__init__
  ∧ (∀ name, only_moves (ZipFile.open name))
  ∧ only_moves ZipFile.close
  ∧ (∀ n, only_moves (ZipExtFile.read n))
  ∧ (∀ offset whence, only_moves (ZipExtFile.seek offset whence)).
Proof.
  split_and!; auto using init_moves, open_moves, close_moves, read_moves,
    seek_moves.
Qed.

End methods_only_move.

(** * What [ZipFile(file)] leaves *)

Lemma stable_try_except {S A} (I : S → Prop) (m : M S A) catches h :
  stable I m → (∀ e, stable I (h e)) → stable I (try_except m catches h).
Proof.
  intros Hm Hh s Hs. specialize (Hm s Hs). unfold try_except.
  destruct (m s) as [a s1|e s1]; simpl in *; [done|].
  destruct (catches e); [by apply Hh|done].
Qed.

Section holds.
Context `{Platform}.
Variables (v : option fileref) (n : Z).

Lemma on_fp_holds {A} file (m : M BinaryFile A) :
  stable (holds v n) (ZipFile.on_fp file m).
Proof.
  intros [f z] Hw. unfold ZipFile.on_fp, zoom, holds in *.
  destruct file as [[]|]; [|done]. by destruct (m _).
Qed.

Lemma read_directory_holds fuel : ∀ concat size_cd total bio,
  stable (holds v n) (ZipFile.read_directory fuel concat size_cd total bio).
Proof.
  induction fuel as [|fuel IH]; intros concat size_cd total bio; simpl;
    (case_match; [|apply stable_mret]); [apply stable_raise|].
  destruct (ZipFile.read_centdir concat bio) as [[x size] bio'|e bio'];
    [|apply stable_raise].
  apply stable_bind; [|intros []; apply IH].
  apply stable_modify. by intros [f z].
Qed.

Lemma RealGetContents_holds : stable (holds v n) ZipFile._RealGetContents.
Proof.
  unfold ZipFile._RealGetContents, ZipFile.self, ZipFile.update.
  apply stable_bind; [by intros ? ?|intros z].
  apply stable_bind.
  { apply stable_try_except; [apply on_fp_holds|intros; apply stable_raise]. }
  intros [endrec|]; [|apply stable_raise]. cbv zeta.
  repeat first
    [ apply on_fp_holds | apply read_directory_holds
    | apply stable_raise | apply stable_mret
    | apply stable_modify; by intros [? ?]
    | apply stable_bind; [|intros ?]
    | match goal with
      | |- stable _ (if ?b then _ else _) => destruct b
      end ].
Qed.

End holds.

Section init_state.
Context `{Platform}.

(** [ZipFile(file)] either returns, with the archive object referring
    to the stream and counting one reference, or raises, with the
    archive object referring to no stream and counting none. *)
Theorem init_outcome w :
  match ZipFile.__init__ w with
  | Return _ w' => fp w'.2 = Some the_stream ∧ _fileRefCnt w'.2 = 1
  | Raise _ w' => fp w'.2 = None ∧ _fileRefCnt w'.2 = 0
  end.
Proof.
  unfold ZipFile.__init__, ZipFile.update, modify, try_except.
  unfold mbind at 1, M_bind at 1. simpl. fold fresh_ZipFile.
  pose proof (RealGetContents_holds (Some the_stream) 1
                (w.1, fresh_ZipFile)) as Hh.
  destruct (ZipFile._RealGetContents _) as [[] [f z]|e [f z]];
    [by apply Hh|].
  destruct Hh as [Hfp Hn]; [done|]. simpl in *.
  unfold ZipFile.self, ZipFile._fpclose, zoom. unfold_M. simpl.
  rewrite Hn. done.
Qed.

(** An open stream that cannot seek, and an open stream of fewer than
    22 bytes, is not a zip file. *)
Theorem init_not_a_zip_file f z :
  is_closed f = false →
  can_seek f = false ∨ len (content f) < sizeEndCentDir →
  raised (ZipFile.__init__ (f, z)) = Some (BadZipFile Not_a_zip_file).
Proof.
  intros _ Hf.
  assert (raised (ZipFile._RealGetContents (f, fresh_ZipFile))
          = Some (BadZipFile Not_a_zip_file)) as Hr.
  { unfold ZipFile._RealGetContents, _EndRecData, BinaryFile.tell.
    unfold_M. simpl. unfold BinaryFile.seek.
    destruct (can_seek f) eqn:Hs; simpl; [|done].
    destruct Hf as [|Hf]; [done|].
    pose proof (len_nonneg (content f)).
    destruct (Z.ltb_spec (len (content f) + 0) 0); [lia|]. simpl.
    rewrite Hs. simpl.
    destruct (Z.ltb_spec (len (content f) + - sizeEndCentDir) 0); [done|].
    lia. }
  unfold ZipFile.__init__, ZipFile.update, modify, try_except.
  unfold mbind at 1, M_bind at 1. simpl. fold fresh_ZipFile.
  pose proof (RealGetContents_holds (Some the_stream) 1
                (f, fresh_ZipFile)) as Hh.
  destruct (ZipFile._RealGetContents _) as [[] [f' z']|e [f' z']];
    [done|].
  destruct Hh as [Hfp Hn]; [done|]. simpl in *. injection Hr as ->.
  unfold ZipFile.self, ZipFile._fpclose, zoom. unfold_M. simpl.
  by rewrite Hn.
Qed.

End init_state.

Lemma init_not_a_zip_file_witness :
  ((is_closed a_pipe = false ∧ can_seek a_pipe = false)
   ∧ raised (ZipFile.__init__ (a_pipe, new_ZipFile))
     = Some (BadZipFile Not_a_zip_file))
  ∧ ((is_closed too_short = false
      ∧ len (content too_short) < sizeEndCentDir)
     ∧ raised (ZipFile.__init__ (too_short, new_ZipFile))
       = Some (BadZipFile Not_a_zip_file)).
Proof.
  assert (is_closed a_pipe = false) as H0 by reflexivity.
  assert (can_seek a_pipe = false) as H1 by reflexivity.
  assert (is_closed too_short = false) as H0' by reflexivity.
  assert (len (content too_short) < sizeEndCentDir) as H2
    by (vm_compute; reflexivity).
  split.
  - split; [exact (conj H0 H1)|].
    exact (init_not_a_zip_file a_pipe new_ZipFile H0 (or_introl H1)).
  - split; [exact (conj H0' H2)|].
    exact (init_not_a_zip_file too_short new_ZipFile H0' (or_intror H2)).
Defined.

(** * [ZipFile.open] *)

Section open_more.
Context `{Platform}.

(** [open] of a name that the archive does not list raises [KeyError]
    and changes nothing. *)
Theorem open_missing name w :
  ZipFile.getinfo name w.2 = None →
  ZipFile.open name w = Raise KeyError w.
Proof.
  intros Hg. unfold ZipFile.open, ZipFile.self. unfold_M. by rewrite Hg.
Qed.

Lemma open_detached_aux name w zinfo :
  ZipFile.getinfo name w.2 = Some zinfo → fp w.2 = None →
  ZipFile.open name w
  = Raise AttributeError
      (w.1, ZipFile.set__fileRefCnt (_fileRefCnt w.2 + 1) w.2).
Proof.
  intros Hg Hfp. unfold ZipFile.open, ZipFile.self, ZipFile.update.
  unfold_M. rewrite Hg. simpl. by rewrite Hfp.
Qed.

(** [open] of a listed name on an archive that refers to no stream any
    more (it was closed, or an [open] has failed) raises
    [AttributeError], and has counted one more reference by then. *)
Theorem open_detached name w zinfo :
  ZipFile.getinfo name w.2 = Some zinfo → fp w.2 = None →
  ZipFile.open name w
  = Raise AttributeError
      (w.1, ZipFile.set__fileRefCnt (_fileRefCnt w.2 + 1) w.2).
Proof. apply open_detached_aux. Qed.

(** When [open] of a listed name raises, whatever the reason, the
    archive object is left with the count it had and with no stream:
    every later [open] of a listed name raises [AttributeError]. *)
Theorem open_failure_detaches name w zinfo e w' :
  ZipFile.getinfo name w.2 = Some zinfo → fp w.2 = Some the_stream →
  0 ≤ _fileRefCnt w.2 →
  ZipFile.open name w = Raise e w' →
  w'.2 = ZipFile.set_fp None w.2
  ∧ ∀ name' zinfo', ZipFile.getinfo name' w.2 = Some zinfo' →
      raised (ZipFile.open name' w') = Some AttributeError.
Proof.
  intros Hg Hfp Hcnt Ho. rewrite (open_unfold name w zinfo) in Ho by done.
  destruct (ZipFile.open_entry _ _) as [zef [f h]|e' [f h]]; [done|].
  injection Ho as <- <-. split; [done|].
  intros name' zinfo' Hg'.
  by rewrite (open_detached_aux name' _ zinfo').
Qed.

(** [open] of a listed entry, when it returns, has counted one more
    reference and changed nothing else of the archive object; the
    stream it returns is in order, and reading it to the end returns
    the bytes of the file that follow the local header of the entry,
    its name and its extra field: [compress_size] of them at most, cut
    to [file_size]. *)
Theorem open_read_all name w zinfo zef w' buf w'' :
  ZipFile.getinfo name w.2 = Some zinfo → fp w.2 = Some the_stream →
  0 ≤ _fileRefCnt w.2 → can_seek w.1 = true →
  0 ≤ header_offset zinfo → 0 ≤ file_size zinfo →
  ZipFile.open name w = Return zef w' →
  ZipExtFile.read (-1) (w'.1, zef) = Return buf w'' →
  w'.2 = ZipFile.set__fileRefCnt (_fileRefCnt w.2 + 1) w.2
  ∧ well_formed (w'.1, zef)
  ∧ buf = take (Z.to_nat (file_size zinfo))
            (take (Z.to_nat (compress_size zinfo))
               (slice_from (data_start (header_offset zinfo) (content w.1))
                  (content w.1))).
Proof.
  intros Hg Hfp Hcnt Hs Hho Hfs Ho Hr.
  rewrite (open_unfold name w zinfo) in Ho by done.
  destruct (ZipFile.open_entry _ _) as [zef' [f h]|e' [f h]] eqn:Hoe;
    [|done].
  injection Ho as -> <-. cbn [fst snd] in *.
  pose proof Hoe as Hoe'. unfold ZipFile.open_entry in Hoe'.
  apply bind_Return in Hoe' as ([] & [f1 h1] & Hc & _).
  rewrite (open_entry_after_header zinfo _ f1 h1 Hc) in Hoe.
  destruct (overlaps zinfo (_pos h1)); [done|].
  case_bool_decide; [done|].
  destruct (ZipExtFile.__init__ h1 zinfo f1) as [zef2 f2|] eqn:Hi; [|done].
  injection Hoe as -> -> ->.
  pose proof (check_local_header_moves zinfo
                (w.1, handle_at (header_offset zinfo))) as Hm.
  rewrite Hc in Hm. destruct Hm as (Hcontent & _).
  unfold the_file, pair_HasFile in Hcontent. simpl in Hcontent.
  apply check_local_header_pos in Hc; [|done..]. cbv zeta in Hc.
  apply init_well_formed in Hi as [Hwf Hp]; [|done].
  split_and!; [done|done|].
  rewrite (read_to_end _ _ _ Hwf Hr), Hp.
  unfold data_start. by rewrite Hc, Hcontent.
Qed.

(** * [ZipFile.close] *)

(** [close] leaves the archive object without a stream, and a second
    [close] changes nothing: closing twice is closing once. *)
Theorem close_twice w :
  fp (state_of (ZipFile.close w)).2 = None
  ∧ (ZipFile.close;; ZipFile.close) w = ZipFile.close w.
Proof.
  destruct w as [f z].
  unfold ZipFile.close, ZipFile.self, ZipFile._fpclose, zoom.
  unfold_M. simpl.
  destruct (fp z) as [[]|] eqn:Hfp; simpl; [|by rewrite Hfp].
  by destruct (_fileRefCnt z >? 0).
Qed.

(** With a stream and a count above 0, [close] counts one reference
    less; with a stream and no reference left to give up, it raises
    [AssertionError], after it has dropped the stream. *)
Theorem close_counts f z :
  fp z = Some the_stream →
  ZipFile.close (f, z)
  = if _fileRefCnt z >? 0
    then Return () (f, ZipFile.set__fileRefCnt (_fileRefCnt z - 1)
                         (ZipFile.set_fp None z))
    else Raise AssertionError (f, ZipFile.set_fp None z).
Proof.
  intros Hfp.
  unfold ZipFile.close, ZipFile.self, ZipFile._fpclose, zoom.
  unfold_M. simpl. rewrite Hfp. simpl.
  by destruct (_fileRefCnt z >? 0).
Qed.

End open_more.

Lemma open_missing_witness :
  ZipFile.getinfo c_txt (opened two_entries).2 = None
  ∧ ZipFile.open c_txt (opened two_entries)
    = Raise KeyError (opened two_entries).
Proof.
  assert (ZipFile.getinfo c_txt (opened two_entries).2 = None) as Hg
    by (vm_compute; reflexivity).
  split; [exact Hg|].
  exact (open_missing c_txt (opened two_entries) Hg).
Defined.

Lemma open_detached_witness :
  (ZipFile.getinfo a_txt (state_of (ZipFile.close (opened two_entries))).2
     = Some (a_info 0 5)
   ∧ fp (state_of (ZipFile.close (opened two_entries))).2 = None)
  ∧ ZipFile.open a_txt (state_of (ZipFile.close (opened two_entries)))
    = Raise AttributeError
        ((state_of (ZipFile.close (opened two_entries))).1,
         ZipFile.set__fileRefCnt
           (_fileRefCnt (state_of (ZipFile.close (opened two_entries))).2 + 1)
           (state_of (ZipFile.close (opened two_entries))).2).
Proof.
  assert (ZipFile.getinfo a_txt
            (state_of (ZipFile.close (opened two_entries))).2
          = Some (a_info 0 5)) as Hg by (vm_compute; reflexivity).
  assert (fp (state_of (ZipFile.close (opened two_entries))).2 = None)
    as Hfp by (vm_compute; reflexivity).
  split; [exact (conj Hg Hfp)|].
  exact (open_detached a_txt (state_of (ZipFile.close (opened two_entries)))
           (a_info 0 5) Hg Hfp).
Defined.

Lemma open_failure_detaches_witness :
  (ZipFile.getinfo a_txt (opened a_encrypted).2 = Some (a_info 1 5)
   ∧ fp (opened a_encrypted).2 = Some the_stream
   ∧ 0 ≤ _fileRefCnt (opened a_encrypted).2
   ∧ ZipFile.open a_txt (opened a_encrypted)
     = Raise (BadZipFile No_message)
         (state_of (ZipFile.open a_txt (opened a_encrypted))))
  ∧ (state_of (ZipFile.open a_txt (opened a_encrypted))).2
    = ZipFile.set_fp None (opened a_encrypted).2
  ∧ ∀ name' zinfo',
      ZipFile.getinfo name' (opened a_encrypted).2 = Some zinfo' →
      raised (ZipFile.open name'
                (state_of (ZipFile.open a_txt (opened a_encrypted))))
      = Some AttributeError.
Proof.
  assert (ZipFile.getinfo a_txt (opened a_encrypted).2 = Some (a_info 1 5))
    as Hg by (vm_compute; reflexivity).
  assert (fp (opened a_encrypted).2 = Some the_stream) as Hfp
    by (vm_compute; reflexivity).
  assert (0 ≤ _fileRefCnt (opened a_encrypted).2) as Hcnt
    by (vm_compute; discriminate).
  assert (ZipFile.open a_txt (opened a_encrypted)
          = Raise (BadZipFile No_message)
              (state_of (ZipFile.open a_txt (opened a_encrypted)))) as Ho
    by (vm_compute; reflexivity).
  split; [exact (conj Hg (conj Hfp (conj Hcnt Ho)))|].
  exact (open_failure_detaches a_txt (opened a_encrypted) (a_info 1 5)
           (BadZipFile No_message) _ Hg Hfp Hcnt Ho).
Defined.

Lemma open_read_all_witness :
  (ZipFile.getinfo a_txt (opened two_entries).2 = Some (a_info 0 5)
   ∧ fp (opened two_entries).2 = Some the_stream
   ∧ 0 ≤ _fileRefCnt (opened two_entries).2
   ∧ can_seek (opened two_entries).1 = true
   ∧ 0 ≤ header_offset (a_info 0 5) ∧ 0 ≤ file_size (a_info 0 5)
   ∧ ZipFile.open a_txt (opened two_entries)
     = Return a_stream.2 (state_of (ZipFile.open a_txt (opened two_entries)))
   ∧ ZipExtFile.read (-1)
       ((state_of (ZipFile.open a_txt (opened two_entries))).1, a_stream.2)
     = Return hello
         (state_of
            (ZipExtFile.read (-1)
               ((state_of (ZipFile.open a_txt (opened two_entries))).1,
                a_stream.2))))
  ∧ (state_of (ZipFile.open a_txt (opened two_entries))).2
    = ZipFile.set__fileRefCnt (_fileRefCnt (opened two_entries).2 + 1)
        (opened two_entries).2
  ∧ well_formed
      ((state_of (ZipFile.open a_txt (opened two_entries))).1, a_stream.2)
  ∧ hello
    = take (Z.to_nat (file_size (a_info 0 5)))
        (take (Z.to_nat (compress_size (a_info 0 5)))
           (slice_from
              (data_start (header_offset (a_info 0 5))
                 (content (opened two_entries).1))
              (content (opened two_entries).1))).
Proof.
  assert (ZipFile.getinfo a_txt (opened two_entries).2 = Some (a_info 0 5))
    as Hg by (vm_compute; reflexivity).
  assert (fp (opened two_entries).2 = Some the_stream) as Hfp
    by (vm_compute; reflexivity).
  assert (0 ≤ _fileRefCnt (opened two_entries).2) as Hcnt
    by (vm_compute; discriminate).
  assert (can_seek (opened two_entries).1 = true) as Hs
    by (vm_compute; reflexivity).
  assert (0 ≤ header_offset (a_info 0 5)) as Hho
    by (vm_compute; discriminate).
  assert (0 ≤ file_size (a_info 0 5)) as Hfs by (vm_compute; discriminate).
  assert (ZipFile.open a_txt (opened two_entries)
          = Return a_stream.2
              (state_of (ZipFile.open a_txt (opened two_entries)))) as Ho
    by (vm_compute; reflexivity).
  assert (ZipExtFile.read (-1)
            ((state_of (ZipFile.open a_txt (opened two_entries))).1,
             a_stream.2)
          = Return hello
              (state_of
                 (ZipExtFile.read (-1)
                    ((state_of (ZipFile.open a_txt (opened two_entries))).1,
                     a_stream.2)))) as Hr
    by (vm_compute; reflexivity).
  split;
    [exact (conj Hg (conj Hfp (conj Hcnt (conj Hs (conj Hho
              (conj Hfs (conj Ho Hr)))))))|].
  exact (open_read_all a_txt (opened two_entries) (a_info 0 5) a_stream.2
           _ hello _ Hg Hfp Hcnt Hs Hho Hfs Ho Hr).
Defined.

Lemma close_counts_witness :
  fp (opened two_entries).2 = Some the_stream
  ∧ ZipFile.close ((opened two_entries).1, (opened two_entries).2)
    = if _fileRefCnt (opened two_entries).2 >? 0
      then Return ()
             ((opened two_entries).1,
              ZipFile.set__fileRefCnt
                (_fileRefCnt (opened two_entries).2 - 1)
                (ZipFile.set_fp None (opened two_entries).2))
      else Raise AssertionError
             ((opened two_entries).1,
              ZipFile.set_fp None (opened two_entries).2).
Proof.
  assert (fp (opened two_entries).2 = Some the_stream) as Hfp
    by (vm_compute; reflexivity).
  split; [exact Hfp|].
  exact (close_counts (opened two_entries).1 (opened two_entries).2 Hfp).
Defined.

(** * [ZipExtFile.read] *)

Section read_more.
Context `{Platform}.

Lemma read1_left n w data w1 :
  well_formed w → _eof w.2 = false → 0 < n →
  ZipExtFile._read1 n w = Return data w1 →
  _left w1.2 = _left w.2 - len data ∧ same_entry w.2 w1.2.
Proof.
  destruct w as [f z]. intros Hwf Heof Hn.
  pose proof Hwf as [Hd Ho Hl He]; cbn [fst snd] in *.
  rewrite read1_unfold by done.
  destruct (ZipExtFile._read2 n (f, z)) as [raw [f1 z1]|] eqn:H2; [|done].
  cbv zeta. case_if; [done|]. intros [= <- <-].
  apply read2_returns in H2
    as [(Hcl & -> & [= -> ->])
       |(Hcl & Hpos & Hk & Hraw & Hne & [= -> ->])]; [| |done];
    cbn [fst snd]; rewrite account_left; (split; [done|]);
    unfold same_entry, account; simpl; by repeat case_match.
Qed.

Lemma pending_at_eof w :
  well_formed w → _eof w.2 = true → _readbuffer w.2 = [] →
  pending w = [].
Proof.
  intros [_ Ho Hl He] Heof Hb. unfold pending, ahead. rewrite Hb.
  rewrite slice_from_nonneg by lia. rewrite drop_nil. simpl.
  destruct (He Heof).
  - replace (Z.to_nat (_compress_left w.2)) with 0%nat by lia.
    by rewrite take_0, take_nil.
  - replace (Z.to_nat (_left w.2)) with 0%nat by lia. by rewrite take_0.
Qed.

Lemma read_some_prefix fuel : ∀ n acc w buf w',
  well_formed w → _readbuffer w.2 = [] → _offset w.2 = 0 → 0 ≤ n →
  ZipExtFile.read_some fuel n acc w = Return buf w' →
  ∃ got, buf = acc ++ got ∧ len got ≤ n
         ∧ (len got = n ∨ pending w' = [])
         ∧ position_of w'.2 = position_of w.2 + len got
         ∧ same_entry w.2 w'.2.
Proof.
  assert (∀ n w, well_formed w → _readbuffer w.2 = [] → 0 ≤ n →
    (n >? 0) && negb (_eof w.2) = false →
    len (@nil byte) = n ∨ pending w = []) as Hstop.
  { intros n w Hwf Hb Hn Hc. destruct (Z.gtb_spec n 0); simpl in Hc.
    - right. apply pending_at_eof; [done| |done].
      by apply negb_false_iff.
    - left. unfold len. simpl. lia. }
  induction fuel as [|fuel IH]; intros n acc w buf w' Hwf Hb Ho Hn.
  - simpl. unfold_M. case_if; [done|]. intros [= <- <-].
    exists []. rewrite app_nil_r.
    split_and!; [done|unfold len; simpl; lia|by apply Hstop
                |unfold len; simpl; lia|apply same_entry_refl].
  - rewrite read_some_unfold. case_if.
    2:{ intros [= <- <-]. exists []. rewrite app_nil_r.
        split_and!; [done|unfold len; simpl; lia|by apply Hstop
                    |unfold len; simpl; lia|apply same_entry_refl]. }
    apply andb_true_iff in Heqb as [Hn0%Z.gtb_gt Heof%negb_true_iff].
    destruct (ZipExtFile._read1 n w) as [data [f1 z1]|] eqn:H1; [|done].
    pose proof (read1_ahead _ _ _ _ Hwf H1) as (_ & Hwf1 & Hb1 & Ho1).
    apply read1_left in H1 as (Hl1 & Hsame); [|done|done|lia].
    cbn [fst snd] in *.
    assert (position_of z1 = position_of w.2 + len data) as Hp1.
    { unfold position_of. destruct Hsame as (-> & _).
      rewrite Hb1, Ho1, Hb, Ho, Hl1. lia. }
    pose proof (len_nonneg data).
    destruct (Z.ltb_spec n (len data)).
    + intros [= <- <-]. cbn [fst snd]. exists (slice_to n data).
      assert (len (slice_to n data) = n) as Hlen
        by (rewrite len_slice_to; lia).
      split_and!; [done|lia|by left| |done].
      rewrite Hlen. unfold position_of in *. simpl.
      rewrite Hb1, Ho1 in Hp1. rewrite Hb, Ho in *.
      unfold len in Hp1 at 1. simpl in Hp1. lia.
    + intros Hr. apply IH in Hr
        as (got & -> & Hlen & Hend & Hp & Hsame');
        try done; cbn [fst snd]; try congruence; [|lia].
      cbn [fst snd] in *.
      exists (data ++ got). rewrite len_app.
      split_and!; [by rewrite app_assoc|lia| |lia
                  |by eapply same_entry_trans].
      destruct Hend; [left; lia|by right].
Qed.

Lemma read_prefix_aux n w buf w' :
  well_formed w → 0 ≤ n →
  ZipExtFile.read n w = Return buf w' →
  buf = take (Z.to_nat n) (pending w)
  ∧ position_of w'.2 = position_of w.2 + len buf.
Proof.
  intros Hwf Hn Hr.
  destruct (read_pending _ _ _ _ Hwf Hr) as [Hp Hwf'].
  assert (len buf ≤ n ∧ (len buf = n ∨ pending w' = [])
          ∧ position_of w'.2 = position_of w.2 + len buf)
    as (Hle & Hend & Hpos).
  { destruct w as [f z]. rewrite read_unfold in Hr. cbv zeta in Hr.
    pose proof Hwf as [Hd Ho Hl He]; cbn [fst snd] in *.
    destruct (closed z); [done|].
    destruct (Z.ltb_spec n 0); [lia|].
    destruct (Z.ltb_spec (n + _offset z) (len (_readbuffer z))).
    - injection Hr as <- <-. cbn [fst snd].
      rewrite len_slice by lia.
      split_and!; [lia|left; lia|].
      unfold position_of. simpl. lia.
    - assert (well_formed
                (f, ZipExtFile.set__offset 0
                      (ZipExtFile.set__readbuffer [] z))).
      { split; cbn [fst snd]; try done; simpl; unfold len; simpl; lia. }
      apply read_some_prefix in Hr
        as (got & -> & Hlen & Hend & Hp' & _); [|done|done|done|lia].
      cbn [fst snd] in *.
      pose proof (len_nonneg got).
      rewrite len_app, len_slice_from by lia.
      split_and!; [lia| |].
      + destruct Hend; [left; lia|by right].
      + rewrite Hp'. unfold position_of. simpl. unfold len at 1. simpl.
        lia. }
  split; [|done]. rewrite Hp.
  destruct Hend as [Hlen| ->].
  - rewrite take_app_length'; [done|]. unfold len in Hlen. lia.
  - rewrite app_nil_r. rewrite take_ge; [done|]. unfold len in Hle. lia.
Qed.

(** [read(n)] with [n >= 0], when it returns, returns the first [n]
    bytes of what the stream had still to deliver, all of it when
    there are fewer; [tell] advances by the number of bytes
    returned. *)
Theorem read_prefix n w buf w' :
  well_formed w → 0 ≤ n →
  ZipExtFile.read n w = Return buf w' →
  buf = take (Z.to_nat n) (pending w)
  ∧ position_of w'.2 = position_of w.2 + len buf.
Proof. apply read_prefix_aux. Qed.

(** [read()] returns all that the stream had still to deliver, and
    leaves nothing. *)
Theorem read_all_of_it w buf w' :
  well_formed w → ZipExtFile.read (-1) w = Return buf w' →
  buf = pending w ∧ pending w' = [].
Proof.
  intros Hwf Hr. pose proof (read_to_end _ _ _ Hwf Hr) as ->.
  destruct (read_pending _ _ _ _ Hwf Hr) as [Hp _].
  split; [done|]. apply (f_equal length) in Hp. rewrite length_app in Hp.
  apply nil_length_inv. lia.
Qed.

(** At the end of the stream, [read] returns no bytes and raises
    nothing, whatever [n]. *)
Theorem read_at_end n f z :
  closed z = false → _eof z = true → _offset z = len (_readbuffer z) →
  ZipExtFile.read n (f, z)
  = Return [] (f, ZipExtFile.set__offset 0
                    (ZipExtFile.set__readbuffer [] z)).
Proof.
  intros Hc Heof Ho. rewrite read_unfold, Hc. cbv zeta.
  assert (slice_from (_offset z) (_readbuffer z) = []) as ->.
  { rewrite slice_from_nonneg by (pose proof (len_nonneg (_readbuffer z)); lia).
    apply drop_ge. rewrite Ho. unfold len. lia. }
  destruct (Z.ltb_spec n 0); [by rewrite read_all_eof|].
  destruct (Z.ltb_spec (n + _offset z) (len (_readbuffer z))); [lia|].
  by rewrite read_some_eof.
Qed.

End read_more.

(** * [ZipExtFile.seek] *)

Lemma slice_beyond {A} (a b : Z) (l : list A) :
  len l ≤ a → a ≤ b → slice a b l = [].
Proof.
  intros Ha Hb. pose proof (len_nonneg l).
  rewrite slice_nonneg by lia.
  rewrite drop_ge by (unfold len in *; lia). apply take_nil.
Qed.

Section seek_more.
Context `{Platform}.

(** The four cases of [seek], on a stream without decrypter. *)
Lemma seek_unfold offset whence f z target :
  closed z = false → _seekable z = true → _decrypter z = None →
  seek_target z offset whence = Some target →
  let new_pos := clamp (_orig_file_size z) target in
  let read_offset := new_pos - position_of z in
  ZipExtFile.seek offset whence (f, z) =
    if in_buffer z new_pos then
      Return (position_of (ZipExtFile.set__offset (read_offset + _offset z) z))
        (f, ZipExtFile.set__offset (read_offset + _offset z) z)
    else if read_offset >? 0 then
      let skip := read_offset - (len (_readbuffer z) - _offset z) in
      match ZipExtFile.on_fileobj (_SharedFile.seek skip 1)
              (f, ZipExtFile.set__expected_crc None z) with
      | Return _ (f1, z1) =>
          Return (position_of (skipped skip z1)) (f1, skipped skip z1)
      | Raise e w1 => Raise e w1
      end
    else if read_offset <? 0 then
      match ZipExtFile.on_fileobj
              (_SharedFile.seek (_orig_compress_start z) 0) (f, z) with
      | Return _ (f1, z1) =>
          (ZipExtFile.seek_skip (Z.to_nat new_pos) new_pos;;
           ZipExtFile.tell) (f1, rewound z z1)
      | Raise e w1 => Raise e w1
      end
    else Return (position_of z) (f, z).
Proof.
  intros Hc Hsk Hd Ht new_pos read_offset.
  unfold ZipExtFile.seek.
  cbv beta iota delta [mbind M_bind mret M_ret raise get modify
    ZipExtFile.self ZipExtFile.update].
  cbn [fst snd].
  rewrite Hc, Hsk. cbn [negb]. rewrite tell_unfold by done.
  match goal with
  | |- context [?g (f, z)] =>
      lazymatch g with if whence =? 0 then _ else _ => idtac end;
      set (m := g (f, z));
      assert (m = Return target (f, z)) as Hm
        by (subst m; unfold seek_target in Ht; repeat case_match;
            by simplify_eq);
      clearbody m; subst m
  end.
  cbv beta iota.
  change (if (if target >? _orig_file_size z then _orig_file_size z
              else target) <? 0
          then 0
          else if target >? _orig_file_size z then _orig_file_size z
               else target) with new_pos.
  unfold in_buffer. cbv zeta. fold read_offset.
  destruct ((read_offset + _offset z >=? 0)
            && (read_offset + _offset z <? len (_readbuffer z))) eqn:Hin.
  { cbv beta iota. cbn [fst snd]. rewrite seek_skip_0.
    by rewrite tell_unfold. }
  rewrite Hd, bool_decide_true by done. cbn [andb].
  destruct (read_offset >? 0) eqn:Hpos.
  { destruct (ZipExtFile.on_fileobj _ _) as [p1 [f1 z1]|e w1] eqn:Hs1;
      [|done].
    apply fileobj_seek_frame in Hs1 as [h ->].
    cbv beta iota. cbn [fst snd]. rewrite seek_skip_0.
    by rewrite tell_unfold. }
  destruct (read_offset <? 0) eqn:Hneg.
  { destruct (ZipExtFile.on_fileobj _ _) as [p1 [f1 z1]|e w1] eqn:Hs1;
      [|done].
    cbv beta iota. cbn [fst snd]. done. }
  cbv beta iota. cbn [fst snd].
  assert (read_offset = 0) as -> by lia.
  rewrite seek_skip_0. by rewrite tell_unfold.
Qed.

Lemma read_unchecked n w :
  _expected_crc w.2 = None →
  raised (ZipExtFile.read n w) ≠ Some (BadZipFile Bad_CRC32)
  ∧ _expected_crc (state_of (ZipExtFile.read n w)).2 = None.
Proof.
  intros He. destruct (read_law n w) as [(Hsame & Hiff & _) _].
  cbv zeta in *. rewrite He in Hsame. split; [|done].
  intros Hr. apply Hiff in Hr as (_ & _ & Hm).
  unfold crc_mismatch in Hm. by rewrite Hsame in Hm.
Qed.

(** A seek forward to a position beyond the buffer skips in the
    underlying stream and gives up the check: when it returns, the
    stream expects no CRC any more, and no [read] after it raises the
    bad-CRC error, whatever the bytes are. *)
Theorem seek_forward_stops_checking offset whence f z target p w' :
  closed z = false → _seekable z = true → _decrypter z = None →
  seek_target z offset whence = Some target →
  in_buffer z (clamp (_orig_file_size z) target) = false →
  position_of z < clamp (_orig_file_size z) target →
  ZipExtFile.seek offset whence (f, z) = Return p w' →
  _expected_crc w'.2 = None
  ∧ ∀ n, raised (ZipExtFile.read n w') ≠ Some (BadZipFile Bad_CRC32).
Proof.
  intros Hc Hsk Hd Ht Hin Hpos.
  rewrite (seek_unfold offset whence f z target) by done. cbv zeta.
  rewrite Hin.
  destruct (Z.gtb_spec (clamp (_orig_file_size z) target - position_of z) 0);
    [|lia].
  destruct (ZipExtFile.on_fileobj _ _) as [p1 [f1 z1]|e w1] eqn:Hs1;
    [|done].
  apply fileobj_seek_frame in Hs1 as [h ->]. intros [= <- <-].
  assert (_expected_crc
            (f1, skipped
                   (clamp (_orig_file_size z) target - position_of z
                    - (len (_readbuffer z) - _offset z))
                   (ZipExtFile.set__fileobj h
                      (ZipExtFile.set__expected_crc None z))).2 = None)
    as He by done.
  split; [done|]. intros n. by apply read_unchecked.
Qed.

Lemma SharedFile_seek_set p f h p' f' h' :
  _SharedFile.seek p 0 (f, h) = Return p' (f', h') →
  p' = p ∧ _pos h' = p ∧ content f' = content f.
Proof.
  unfold _SharedFile.seek, _SharedFile.on_file, BinaryFile.seek,
    BinaryFile.tell. unfold_M. simpl.
  repeat (case_match; simplify_eq/=); by intros; simplify_eq/=.
Qed.

(** A seek to the start from a position whose start is no longer in
    the buffer takes the stream back to where [open] left it: when it
    returns, it returns 0, the sums and the flag are those of the
    start, and the stream has again the whole entry to deliver. *)
Theorem seek_start_restores f z p w' :
  closed z = false → _seekable z = true → _decrypter z = None →
  in_buffer z 0 = false → 0 < position_of z →
  ZipExtFile.seek 0 0 (f, z) = Return p w' →
  p = 0
  ∧ _running_crc w'.2 = _orig_start_crc z
  ∧ _expected_crc w'.2 = _orig_crc z
  ∧ _eof w'.2 = false
  ∧ pending w'
    = take (Z.to_nat (_orig_file_size z))
        (take (Z.to_nat (_orig_compress_size z))
           (slice_from (_orig_compress_start z) (content f))).
Proof.
  intros Hc Hsk Hd Hin Hpos.
  assert (clamp (_orig_file_size z) 0 = 0) as Hclamp
    by (unfold clamp; repeat case_if; lia).
  rewrite (seek_unfold 0 0 f z 0) by done. cbv zeta.
  rewrite Hclamp, Hin.
  destruct (Z.gtb_spec (0 - position_of z) 0); [lia|].
  destruct (Z.ltb_spec (0 - position_of z) 0); [|lia].
  destruct (ZipExtFile.on_fileobj _ _) as [p1 [f1 z1]|e w1] eqn:Hs1;
    [|done].
  unfold ZipExtFile.on_fileobj, zoom in Hs1. cbn [fst snd] in Hs1.
  destruct (_SharedFile.seek _ _ _) as [p2 [f2 h2]|] eqn:Hs2; [|done].
  apply SharedFile_seek_set in Hs2 as (_ & Hh & Hf).
  injection Hs1 as _ <- <-.
  change (Z.to_nat 0) with 0%nat.
  unfold mbind, M_bind. rewrite seek_skip_0.
  rewrite tell_unfold by done. intros [= <- <-].
  split_and!; [unfold position_of; simpl; unfold len; simpl; lia
              |done..|].
  unfold pending, ahead, raw_ahead. simpl. by rewrite Hh, Hf.
Qed.

(** When the file ends at or before the position of the handle while
    compressed bytes are still due, a [read] that has to pull raises
    [EOFError]. *)
Theorem read_truncated n f z :
  closed z = false → _eof z = false →
  _offset z = len (_readbuffer z) → n ≠ 0 → 0 < _compress_left z →
  can_seek f = true → _file (_fileobj z) = Some the_stream →
  0 ≤ _pos (_fileobj z) → len (content f) ≤ _pos (_fileobj z) →
  raised (ZipExtFile.read n (f, z)) = Some EOFError.
Proof.
  intros Hc Heof Ho Hn Hcl Hs Hf Hp Hlen.
  assert (∀ k z', 0 < k → _eof z' = false →
            _compress_left z' = _compress_left z →
            _fileobj z' = _fileobj z →
            raised (ZipExtFile._read1 k (f, z')) = Some EOFError) as H1.
  { intros k z' Hk Heof' Hcl' Hfo. rewrite read1_unfold by done.
    unfold ZipExtFile._read2, ZipExtFile.self, ZipExtFile.update,
      ZipExtFile.on_fileobj, zoom. unfold_M. cbn [fst snd].
    rewrite Hcl'.
    destruct (Z.leb_spec (_compress_left z) 0); [lia|].
    cbv beta iota. cbn [fst snd]. rewrite Hfo.
    assert (0 < ZipExtFile.MIN_READ_SIZE) by done.
    rewrite SharedFile_read_at by (done || lia). cbv zeta.
    rewrite slice_beyond by lia. cbn [fst snd].
    by rewrite bool_decide_true. }
  rewrite read_unfold, Hc. cbv zeta.
  destruct (Z.ltb_spec n 0).
  - rewrite read_all_unfold. cbn [fst snd]. simpl _eof. rewrite Heof.
    cbn [negb]. specialize (H1 ZipExtFile.MAX_N
      (ZipExtFile.set__offset 0 (ZipExtFile.set__readbuffer [] z))
      eq_refl Heof eq_refl eq_refl).
    by destruct (ZipExtFile._read1 _ _).
  - destruct (Z.ltb_spec (n + _offset z) (len (_readbuffer z))); [lia|].
    rewrite read_some_unfold. cbn [fst snd]. simpl _eof. rewrite Heof.
    destruct (Z.gtb_spec (n + _offset z - len (_readbuffer z)) 0); [|lia].
    cbn [negb andb].
    specialize (H1 (n + _offset z - len (_readbuffer z))
      (ZipExtFile.set__offset 0 (ZipExtFile.set__readbuffer [] z))
      ltac:(lia) Heof eq_refl eq_refl).
    by destruct (ZipExtFile._read1 _ _).
Qed.

(** The loops of the source end: the one over the records of the
    central directory in [ZipFile(file)], those of [read], the
    read-and-discard loop of [seek], and the one over the records of
    an extra field. *)
Theorem loops_terminate :
  halts ZipFile.__init__
  ∧ (∀ n, halts (ZipExtFile.read n))
  ∧ (∀ offset whence, halts (ZipExtFile.seek offset whence))
  ∧ (∀ filename_crc, halts (ZipInfo._decodeExtra filename_crc)).
Proof.
  split_and!.
  - apply init_terminates.
  - intros n w. apply read_law.
  - apply seek_terminates.
  - intros filename_crc x. by apply decodeExtra_loop_terminates.
Qed.

End seek_more.

(** * [_SharedFile.read] *)

(** Reads through a handle follow one another in the file wherever the
    underlying stream has been moved to in between: two reads return
    together what one read of both lengths returns, and leave the
    handle and the stream where it leaves them. *)
Theorem SharedFile_reads_follow f h n1 n2 elsewhere :
  can_seek f = true → _file h = Some the_stream → 0 ≤ _pos h →
  0 ≤ n1 → 0 ≤ n2 →
  match _SharedFile.read n1 (f, h) with
  | Return a (f1, h1) =>
      match _SharedFile.read n2
              (BinaryFile.set_position elsewhere f1, h1) with
      | Return b w2 => _SharedFile.read (n1 + n2) (f, h) = Return (a ++ b) w2
      | Raise _ _ => False
      end
  | Raise _ _ => False
  end.
Proof.
  intros Hs Hf Hp Hn1 Hn2.
  rewrite !SharedFile_read_at by (done || lia). cbv zeta.
  set (a := slice (_pos h) (_pos h + n1) (content f)).
  pose proof (len_nonneg a) as Ha.
  assert (len a ≤ n1) as Hle by (unfold a; rewrite len_slice; lia).
  rewrite SharedFile_read_at; [|done|done|simpl; lia|done].
  cbv zeta. cbn [_pos _SharedFile.set__pos content BinaryFile.set_position].
  set (b := slice (_pos h + len a) (_pos h + len a + n2) (content f)).
  rewrite (SharedFile_read_at f h (n1 + n2)) by (done || lia). cbv zeta.
  assert (slice (_pos h) (_pos h + (n1 + n2)) (content f) = a ++ b) as ->.
  { unfold a, b. pose proof (len_nonneg (content f)) as Hc.
    destruct (Z.le_gt_cases (_pos h + n1) (len (content f))) as [Hin|Hout].
    - assert (len a = n1) as -> by (unfold a; rewrite len_slice; lia).
      rewrite !slice_nonneg by lia.
      replace (Z.to_nat (_pos h + (n1 + n2) - _pos h))
        with (Z.to_nat n1 + Z.to_nat n2)%nat by lia.
      rewrite <- take_take_drop.
      f_equal; [f_equal; lia|].
      rewrite drop_drop. f_equal; [lia|f_equal; lia].
    - assert (len a = len (content f) - _pos h ∨ len (content f) ≤ _pos h)
        as Hcase by (unfold a; rewrite len_slice; lia).
      rewrite (slice_beyond (_pos h + len a)); [|fold a; lia|lia].
      fold a. rewrite app_nil_r. unfold a.
      rewrite !slice_nonneg by lia.
      rewrite !take_ge; [done|rewrite length_drop; unfold len in *; lia..]. }
  rewrite len_app.
  replace (_pos h + len a + len b) with (_pos h + (len a + len b)) by lia.
  done.
Qed.

Lemma a_stream_well_formed : well_formed a_stream.
Proof.
  split; vm_compute; first [reflexivity | split; discriminate | discriminate].
Defined.

Lemma read_prefix_witness :
  (well_formed a_stream ∧ 0 ≤ 2
   ∧ ZipExtFile.read 2 a_stream
     = Return he (state_of (ZipExtFile.read 2 a_stream)))
  ∧ he = take (Z.to_nat 2) (pending a_stream)
  ∧ position_of (state_of (ZipExtFile.read 2 a_stream)).2
    = position_of a_stream.2 + len he.
Proof.
  assert (0 ≤ 2) as Hn by discriminate.
  assert (ZipExtFile.read 2 a_stream
          = Return he (state_of (ZipExtFile.read 2 a_stream))) as Hr
    by (vm_compute; reflexivity).
  split; [exact (conj a_stream_well_formed (conj Hn Hr))|].
  exact (read_prefix 2 a_stream he _ a_stream_well_formed Hn Hr).
Defined.

Lemma read_all_of_it_witness :
  (well_formed a_stream
   ∧ ZipExtFile.read (-1) a_stream = Return hello a_stream_read)
  ∧ hello = pending a_stream ∧ pending a_stream_read = [].
Proof.
  assert (ZipExtFile.read (-1) a_stream = Return hello a_stream_read) as Hr
    by (vm_compute; reflexivity).
  split; [exact (conj a_stream_well_formed Hr)|].
  exact (read_all_of_it a_stream hello a_stream_read
           a_stream_well_formed Hr).
Defined.

Lemma read_at_end_witness :
  (closed a_stream_read.2 = false ∧ _eof a_stream_read.2 = true
   ∧ _offset a_stream_read.2 = len (_readbuffer a_stream_read.2))
  ∧ ZipExtFile.read 7 (a_stream_read.1, a_stream_read.2)
    = Return []
        (a_stream_read.1,
         ZipExtFile.set__offset 0
           (ZipExtFile.set__readbuffer [] a_stream_read.2)).
Proof.
  assert (closed a_stream_read.2 = false) as Hc by (vm_compute; reflexivity).
  assert (_eof a_stream_read.2 = true) as He by (vm_compute; reflexivity).
  assert (_offset a_stream_read.2 = len (_readbuffer a_stream_read.2))
    as Ho by (vm_compute; reflexivity).
  split; [exact (conj Hc (conj He Ho))|].
  exact (read_at_end 7 a_stream_read.1 a_stream_read.2 Hc He Ho).
Defined.

Lemma read_truncated_witness :
  (closed a_stream_cut.2 = false ∧ _eof a_stream_cut.2 = false
   ∧ _offset a_stream_cut.2 = len (_readbuffer a_stream_cut.2)
   ∧ 2 ≠ 0 ∧ 0 < _compress_left a_stream_cut.2
   ∧ can_seek a_stream_cut.1 = true
   ∧ _file (_fileobj a_stream_cut.2) = Some the_stream
   ∧ 0 ≤ _pos (_fileobj a_stream_cut.2)
   ∧ len (content a_stream_cut.1) ≤ _pos (_fileobj a_stream_cut.2))
  ∧ raised (ZipExtFile.read 2 (a_stream_cut.1, a_stream_cut.2))
    = Some EOFError.
Proof.
  assert (closed a_stream_cut.2 = false) as H1 by reflexivity.
  assert (_eof a_stream_cut.2 = false) as H2 by reflexivity.
  assert (_offset a_stream_cut.2 = len (_readbuffer a_stream_cut.2)) as H3
    by reflexivity.
  assert (2 ≠ 0) as H4 by discriminate.
  assert (0 < _compress_left a_stream_cut.2) as H5 by reflexivity.
  assert (can_seek a_stream_cut.1 = true) as H6 by reflexivity.
  assert (_file (_fileobj a_stream_cut.2) = Some the_stream) as H7
    by reflexivity.
  assert (0 ≤ _pos (_fileobj a_stream_cut.2)) as H8 by discriminate.
  assert (len (content a_stream_cut.1) ≤ _pos (_fileobj a_stream_cut.2))
    as H9 by (vm_compute; discriminate).
  split;
    [exact (conj H1 (conj H2 (conj H3 (conj H4 (conj H5 (conj H6
              (conj H7 (conj H8 H9))))))))|].
  exact (read_truncated 2 a_stream_cut.1 a_stream_cut.2
           H1 H2 H3 H4 H5 H6 H7 H8 H9).
Defined.

Lemma seek_forward_stops_checking_witness :
  (closed a_stream.2 = false ∧ _seekable a_stream.2 = true
   ∧ _decrypter a_stream.2 = None
   ∧ seek_target a_stream.2 4 0 = Some 4
   ∧ in_buffer a_stream.2 (clamp (_orig_file_size a_stream.2) 4) = false
   ∧ position_of a_stream.2 < clamp (_orig_file_size a_stream.2) 4
   ∧ ZipExtFile.seek 4 0 (a_stream.1, a_stream.2) = Return 4 a_stream_at_4)
  ∧ _expected_crc a_stream_at_4.2 = None
  ∧ ∀ n, raised (ZipExtFile.read n a_stream_at_4)
         ≠ Some (BadZipFile Bad_CRC32).
Proof.
  assert (closed a_stream.2 = false) as H1 by reflexivity.
  assert (_seekable a_stream.2 = true) as H2 by reflexivity.
  assert (_decrypter a_stream.2 = None) as H3 by reflexivity.
  assert (seek_target a_stream.2 4 0 = Some 4) as H4 by reflexivity.
  assert (in_buffer a_stream.2 (clamp (_orig_file_size a_stream.2) 4)
          = false) as H5 by reflexivity.
  assert (position_of a_stream.2 < clamp (_orig_file_size a_stream.2) 4)
    as H6 by reflexivity.
  assert (ZipExtFile.seek 4 0 (a_stream.1, a_stream.2)
          = Return 4 a_stream_at_4) as H7 by (vm_compute; reflexivity).
  split;
    [exact (conj H1 (conj H2 (conj H3 (conj H4 (conj H5 (conj H6 H7))))))|].
  exact (seek_forward_stops_checking 4 0 a_stream.1 a_stream.2 4 4
           a_stream_at_4 H1 H2 H3 H4 H5 H6 H7).
Defined.

Lemma seek_start_restores_witness :
  (closed a_stream_at_4.2 = false ∧ _seekable a_stream_at_4.2 = true
   ∧ _decrypter a_stream_at_4.2 = None
   ∧ in_buffer a_stream_at_4.2 0 = false
   ∧ 0 < position_of a_stream_at_4.2
   ∧ ZipExtFile.seek 0 0 (a_stream_at_4.1, a_stream_at_4.2)
     = Return 0 (state_of (ZipExtFile.seek 0 0 a_stream_at_4)))
  ∧ 0 = 0
  ∧ _running_crc (state_of (ZipExtFile.seek 0 0 a_stream_at_4)).2
    = _orig_start_crc a_stream_at_4.2
  ∧ _expected_crc (state_of (ZipExtFile.seek 0 0 a_stream_at_4)).2
    = _orig_crc a_stream_at_4.2
  ∧ _eof (state_of (ZipExtFile.seek 0 0 a_stream_at_4)).2 = false
  ∧ pending (state_of (ZipExtFile.seek 0 0 a_stream_at_4))
    = take (Z.to_nat (_orig_file_size a_stream_at_4.2))
        (take (Z.to_nat (_orig_compress_size a_stream_at_4.2))
           (slice_from (_orig_compress_start a_stream_at_4.2)
              (content a_stream_at_4.1))).
Proof.
  assert (closed a_stream_at_4.2 = false) as H1 by (vm_compute; reflexivity).
  assert (_seekable a_stream_at_4.2 = true) as H2
    by (vm_compute; reflexivity).
  assert (_decrypter a_stream_at_4.2 = None) as H3
    by (vm_compute; reflexivity).
  assert (in_buffer a_stream_at_4.2 0 = false) as H4
    by (vm_compute; reflexivity).
  assert (0 < position_of a_stream_at_4.2) as H5
    by (vm_compute; reflexivity).
  assert (ZipExtFile.seek 0 0 (a_stream_at_4.1, a_stream_at_4.2)
          = Return 0 (state_of (ZipExtFile.seek 0 0 a_stream_at_4))) as H6
    by (vm_compute; reflexivity).
  split; [exact (conj H1 (conj H2 (conj H3 (conj H4 (conj H5 H6)))))|].
  exact (seek_start_restores a_stream_at_4.1 a_stream_at_4.2 0 _
           H1 H2 H3 H4 H5 H6).
Defined.

Lemma SharedFile_reads_follow_witness :
  (can_seek (file_of two_entries) = true
   ∧ _file (handle_at 35) = Some the_stream ∧ 0 ≤ _pos (handle_at 35)
   ∧ 0 ≤ 2 ∧ 0 ≤ 3)
  ∧ match _SharedFile.read 2 (file_of two_entries, handle_at 35) with
    | Return a (f1, h1) =>
        match _SharedFile.read 3 (BinaryFile.set_position 75 f1, h1) with
        | Return b w2 =>
            _SharedFile.read (2 + 3) (file_of two_entries, handle_at 35)
            = Return (a ++ b) w2
        | Raise _ _ => False
        end
    | Raise _ _ => False
    end.
Proof.
  assert (can_seek (file_of two_entries) = true) as H1 by reflexivity.
  assert (_file (handle_at 35) = Some the_stream) as H2 by reflexivity.
  assert (0 ≤ _pos (handle_at 35)) as H3 by discriminate.
  assert (0 ≤ 2) as H4 by discriminate.
  assert (0 ≤ 3) as H5 by discriminate.
  split; [exact (conj H1 (conj H2 (conj H3 (conj H4 H5))))|].
  exact (SharedFile_reads_follow (file_of two_entries) (handle_at 35) 2 3 75
           H1 H2 H3 H4 H5).
Defined.

(** * [_EndRecData] *)

Lemma rfind_from_spec pat data i :
  if rfind_from pat data i <? 0
  then ∀ j, (j ≤ i)%nat → ¬ occurs_at pat data j
  else ∃ k, rfind_from pat data i = Z.of_nat k ∧ (k ≤ i)%nat
            ∧ occurs_at pat data k
            ∧ ∀ j, (k < j ≤ i)%nat → ¬ occurs_at pat data j.
Proof.
  induction i as [|i IH]; simpl; case_bool_decide as Hi.
  - destruct (Z.ltb_spec 0 0); [lia|]. exists 0%nat.
    split_and!; [done|done|done|]. intros; lia.
  - simpl. intros j Hj. by replace j with 0%nat by lia.
  - destruct (Z.ltb_spec (Z.of_nat (S i)) 0); [lia|]. exists (S i).
    split_and!; [done|done|done|]. intros; lia.
  - destruct (rfind_from pat data i <? 0).
    + intros j Hj. destruct (decide (j = S i)) as [->|]; [done|].
      apply IH. lia.
    + destruct IH as (k & Hk & Hle & Hocc & Hlast).
      exists k. split_and!; [done|lia|done|].
      intros j Hj. destruct (decide (j = S i)) as [->|]; [done|].
      apply Hlast. lia.
Qed.

(** [rfind] answers [-1] when [pat] occurs nowhere, and otherwise the
    last place where it occurs. *)
Lemma rfind_spec pat data :
  if rfind pat data <? 0
  then ∀ j, ¬ occurs_at pat data j ∨ (length data < j)%nat
  else ∃ k, rfind pat data = Z.of_nat k ∧ occurs_at pat data k
            ∧ ∀ j, (k < j ≤ length data)%nat → ¬ occurs_at pat data j.
Proof.
  unfold rfind. pose proof (rfind_from_spec pat data (length data)) as Hs.
  destruct (rfind_from pat data (length data) <? 0).
  - intros j. destruct (decide (j ≤ length data)%nat); [|right; lia].
    left. by apply Hs.
  - destruct Hs as (k & ? & ? & ? & ?). by exists k.
Qed.

Lemma rfind_absent pat data :
  pat ≠ [] → (∀ j, ¬ occurs_at pat data j) → rfind pat data = -1.
Proof.
  intros Hne Hno. unfold rfind.
  assert (∀ i, rfind_from pat data i = -1) as Hi; [|apply Hi].
  induction i as [|i IH]; simpl;
    (rewrite bool_decide_false by apply Hno); done.
Qed.

Section EndRecData.
Context `{Platform}.

Lemma init_raises f z e :
  raised (ZipFile._RealGetContents (f, fresh_ZipFile)) = Some e →
  raised (ZipFile.__init__ (f, z)) = Some e.
Proof.
  intros Hr.
  unfold ZipFile.__init__, ZipFile.update, modify, try_except.
  unfold mbind at 1, M_bind at 1. simpl. fold fresh_ZipFile.
  pose proof (RealGetContents_holds (Some the_stream) 1
                (f, fresh_ZipFile)) as Hh.
  destruct (ZipFile._RealGetContents _) as [[] [f' z']|e' [f' z']];
    [done|].
  destruct Hh as [Hfp Hn]; [done|]. simpl in *. injection Hr as ->.
  unfold ZipFile.self, ZipFile._fpclose, zoom. unfold_M. simpl.
  by rewrite Hn.
Qed.

Lemma EndRecData_unsigned f :
  can_seek f = true →
  (∀ i, ¬ occurs_at stringEndArchive (content f) i) →
  ∃ f', _EndRecData f = Return None f'.
Proof.
  intros Hs Hno. pose proof (len_nonneg (content f)) as Hlen.
  unfold _EndRecData, BinaryFile.tell. unfold_M.
  rewrite BinaryFile_seek_end by done.
  destruct (Z.ltb_spec (len (content f) + 0) 0); [lia|].
  cbn [position BinaryFile.set_position].
  rewrite BinaryFile_seek_end by done.
  cbn [content BinaryFile.set_position].
  destruct (Z.ltb_spec (len (content f) + - sizeEndCentDir) 0);
    cbn [is_OSError negb]; [by eexists|].
  unfold BinaryFile.read at 1.
  cbn [position content BinaryFile.set_position].
  destruct (Z.ltb_spec (-1) 0); [|lia].
  set (p := len (content f) + - sizeEndCentDir) in *.
  assert (slice 0 4 (slice_from p (content f)) ≠ stringEndArchive) as Hsig.
  { rewrite slice_from_nonneg by lia.
    rewrite slice_nonneg by lia. rewrite drop_drop, Nat.add_0_r.
    apply (Hno (Z.to_nat p)). }
  rewrite (bool_decide_false (slice 0 4 _ = _)) by done.
  rewrite andb_false_r. cbn [andb].
  unfold BinaryFile.seek at 1.
  cbn [can_seek BinaryFile.set_position]. rewrite Hs. cbn [negb].
  destruct (Z.eqb_spec 0 0); [|done].
  set (m := Z.max _ 0).
  destruct (Z.ltb_spec m 0); [lia|].
  unfold BinaryFile.read at 1.
  cbn [position content BinaryFile.set_position].
  destruct (Z.ltb_spec (-1) 0); [|lia].
  rewrite rfind_absent; [by eexists|done|].
  intros j. rewrite slice_from_nonneg by lia. unfold occurs_at.
  rewrite drop_drop. apply Hno.
Qed.

(** An open file that can seek and in which the signature of the end
    record occurs nowhere is not a zip file. *)
Theorem init_unsigned f z :
  is_closed f = false → can_seek f = true →
  (∀ i, ¬ occurs_at stringEndArchive (content f) i) →
  raised (ZipFile.__init__ (f, z)) = Some (BadZipFile Not_a_zip_file).
Proof.
  intros _ Hs Hno. apply init_raises.
  destruct (EndRecData_unsigned f Hs Hno) as [f' He].
  unfold ZipFile._RealGetContents, ZipFile.self, ZipFile.on_fp, zoom,
    try_except. unfold_M. simpl. by rewrite He.
Qed.

(** When the last twenty-two bytes of the file start with the
    signature of the end record and end with an empty comment length,
    [_EndRecData] unpacks them, with an empty comment and their offset,
    and hands the record to [_EndRecData64]. *)
Theorem EndRecData_at_end f :
  can_seek f = true → sizeEndCentDir ≤ len (content f) →
  let data := slice_from (len (content f) - sizeEndCentDir) (content f) in
  slice 0 4 data = stringEndArchive → slice_from (-2) data = [x00; x00] →
  _EndRecData f
  = (Some <$> _EndRecData64 (- sizeEndCentDir)
                (unpack_EndArchive data []
                   (len (content f) - sizeEndCentDir)))
      (BinaryFile.set_position (len (content f)) f).
Proof.
  intros Hs Hlen data Hsig Hend.
  assert (sizeEndCentDir = 22) as H22 by done.
  unfold _EndRecData, BinaryFile.tell. unfold_M.
  rewrite BinaryFile_seek_end by done.
  destruct (Z.ltb_spec (len (content f) + 0) 0); [lia|].
  cbn [position BinaryFile.set_position].
  rewrite BinaryFile_seek_end by done.
  cbn [content BinaryFile.set_position].
  destruct (Z.ltb_spec (len (content f) + - sizeEndCentDir) 0); [lia|].
  cbn [is_OSError negb].
  unfold BinaryFile.read at 1.
  cbn [position content BinaryFile.set_position].
  destruct (Z.ltb_spec (-1) 0); [|lia].
  replace (len (content f) + - sizeEndCentDir)
    with (len (content f) - sizeEndCentDir) by lia.
  fold data.
  assert (len data = sizeEndCentDir) as Hd.
  { unfold data. rewrite len_slice_from by lia. lia. }
  rewrite !bool_decide_true by done. cbn [andb].
  rewrite Z.add_0_r. unfold fmap, M_fmap.
  replace (len (content f) - sizeEndCentDir + len data)
    with (len (content f)) by lia.
  done.
Qed.

End EndRecData.

#[global] Instance occurs_at_dec pat data i : Decision (occurs_at pat data i).
Proof. unfold occurs_at. apply _. Defined.

Lemma occurs_nowhere pat data :
  pat ≠ [] →
  Forall (λ i, ¬ occurs_at pat data i) (seq 0 (length data)) →
  ∀ i, ¬ occurs_at pat data i.
Proof.
  intros Hne Hall i. destruct (decide (i < length data)%nat) as [Hi|Hi].
  - rewrite Forall_forall in Hall. apply Hall, elem_of_seq. lia.
  - unfold occurs_at. rewrite drop_ge by lia. rewrite take_nil. congruence.
Qed.

Lemma init_unsigned_witness :
  (is_closed no_signature = false ∧ can_seek no_signature = true
   ∧ ∀ i, ¬ occurs_at stringEndArchive (content no_signature) i)
  ∧ raised (ZipFile.__init__ (no_signature, new_ZipFile))
    = Some (BadZipFile Not_a_zip_file).
Proof.
  assert (is_closed no_signature = false) as Hc by reflexivity.
  assert (can_seek no_signature = true) as Hs by reflexivity.
  assert (∀ i, ¬ occurs_at stringEndArchive (content no_signature) i)
    as Hno.
  { apply occurs_nowhere; [discriminate|].
    apply (bool_decide_unpack _). vm_compute. reflexivity. }
  split; [exact (conj Hc (conj Hs Hno))|].
  exact (init_unsigned no_signature new_ZipFile Hc Hs Hno).
Defined.

Lemma EndRecData_at_end_witness :
  (can_seek (file_of two_entries) = true
   ∧ sizeEndCentDir ≤ len (content (file_of two_entries))
   ∧ slice 0 4
       (slice_from (len (content (file_of two_entries)) - sizeEndCentDir)
          (content (file_of two_entries))) = stringEndArchive
   ∧ slice_from (-2)
       (slice_from (len (content (file_of two_entries)) - sizeEndCentDir)
          (content (file_of two_entries))) = [x00; x00])
  ∧ _EndRecData (file_of two_entries)
    = (Some <$> _EndRecData64 (- sizeEndCentDir)
                  (unpack_EndArchive
                     (slice_from
                        (len (content (file_of two_entries))
                         - sizeEndCentDir)
                        (content (file_of two_entries)))
                     []
                     (len (content (file_of two_entries))
                      - sizeEndCentDir)))
        (BinaryFile.set_position (len (content (file_of two_entries)))
           (file_of two_entries)).
Proof.
  assert (can_seek (file_of two_entries) = true) as H1 by reflexivity.
  assert (sizeEndCentDir ≤ len (content (file_of two_entries))) as H2
    by (vm_compute; discriminate).
  assert (slice 0 4
            (slice_from
               (len (content (file_of two_entries)) - sizeEndCentDir)
               (content (file_of two_entries))) = stringEndArchive) as H3
    by (vm_compute; reflexivity).
  assert (slice_from (-2)
            (slice_from
               (len (content (file_of two_entries)) - sizeEndCentDir)
               (content (file_of two_entries))) = [x00; x00]) as H4
    by (vm_compute; reflexivity).
  split; [exact (conj H1 (conj H2 (conj H3 H4)))|].
  exact (EndRecData_at_end (file_of two_entries) H1 H2 H3 H4).
Defined.

Section accepted_archive.
Context `{Platform}.

(** [_RealGetContents], when it returns, has run the loop over the
    records of the directory on the archive object it started from, and
    has swept what the loop left. *)
Lemma RealGetContents_parsed w w' :
  ZipFile._RealGetContents w = Return () w' →
  ∃ fuel concat size_cd bio f start w1,
    ZipFile.read_directory fuel concat size_cd 0 bio
      (f, ZipFile.set_start_dir start w.2) = Return () w1
    ∧ w'.2 = ZipFile.sweep w1.2.
Proof.
  unfold ZipFile._RealGetContents. intros Hr.
  apply bind_Return in Hr as (z & w1 & [= <- <-] & Hr).
  apply bind_Return in Hr as (endrec & w2 & He & Hr).
  assert (w2.2 = w.2) as H2.
  { unfold try_except, ZipFile.on_fp, zoom in He.
    destruct (fp w.2) as [[]|]; [|done].
    destruct (_EndRecData w.1); repeat case_match; by simplify_eq/=. }
  destruct endrec as [endrec|]; [|done].
  apply bind_Return in Hr as ([] & w3 & [= <-] & Hr).
  cbv zeta in Hr. cbn [fst snd] in Hr.
  match type of Hr with
  | context [if ?s <? 0 then _ else _] =>
      destruct (Z.ltb_spec s 0) as [|Hs]; [done|]; set (start := s) in *
  end.
  apply bind_Return in Hr as (? & w4 & H4 & Hr).
  apply bind_Return in Hr as (data & w5 & H5 & Hr).
  assert (w5.2 = ZipFile.set_start_dir start w.2) as Hw5.
  { unfold ZipFile.on_fp, zoom in H4, H5.
    destruct (fp w.2) as [[]|]; [|done].
    destruct (BinaryFile.seek _ _ _); [|done].
    unfold BinaryFile.read in *. simplify_eq/=. by rewrite ?H2. }
  apply bind_Return in Hr as ([] & w6 & H6 & Hr).
  unfold ZipFile.update, modify in Hr. injection Hr as <-.
  destruct w5 as [f5 z5]. simpl in Hw5. subst z5.
  by eexists _, _, _, _, f5, start, w6.
Qed.

(** Claim C1, amended.  [ZipFile(file)], when it returns, leaves the
    sweep of the archive object that the loop over the records of the
    directory has left, started on the empty list.  Whatever entries an
    archive object [z] lists, the sweep keeps
    every one of them at its place and changes only its end offset,
    which it sets.  In the order of the sweep, which holds every
    position of the list once, by header offset from the highest down,
    the first entry ends where the directory starts and every other
    entry ends at the header offset of the entry before it; so the
    intervals from header offset to end offset of two entries never
    overlap.  Every end offset is strictly greater than the header
    offset of its entry exactly when the header offsets are distinct
    and all lie before the directory, which [ZipFile(file)] does not
    check. *)
Theorem accepted_archive_end_offsets :
  (∀ w w', ZipFile.__init__ w = Return () w' →
     ∃ fuel concat size_cd bio f start w1,
       ZipFile.read_directory fuel concat size_cd 0 bio
         (f, ZipFile.set_start_dir start fresh_ZipFile) = Return () w1
       ∧ w'.2 = ZipFile.sweep w1.2) ∧
  ∀ z : ZipFile,
    let z' := ZipFile.sweep z in
    let order := ZipFile.sorted_filelist (filelist z) in
    (∀ i x, filelist z !! i = Some x →
       ∃ e, filelist z' !! i = Some (ZipInfo.set__end_offset (Some e) x)) ∧
    length (filelist z') = length (filelist z) ∧
    order ≡ₚ seq 0 (length (filelist z)) ∧
    (∀ k m i j x y, (k < m)%nat →
       order !! k = Some i → order !! m = Some j →
       filelist z !! i = Some x → filelist z !! j = Some y →
       header_offset y ≤ header_offset x) ∧
    (∀ i x, order !! 0%nat = Some i → filelist z' !! i = Some x →
       _end_offset x = Some (start_dir z)) ∧
    (∀ k j i xj xi, order !! k = Some j → order !! S k = Some i →
       filelist z !! j = Some xj → filelist z' !! i = Some xi →
       _end_offset xi = Some (header_offset xj)) ∧
    (∀ i j x y ex ey, i ≠ j →
       filelist z' !! i = Some x → filelist z' !! j = Some y →
       _end_offset x = Some ex → _end_offset y = Some ey →
       ey ≤ header_offset x ∨ ex ≤ header_offset y) ∧
    ((∀ x e, x ∈ filelist z' → _end_offset x = Some e →
             header_offset x < e)
     ↔ NoDup (header_offset <$> filelist z)
       ∧ ∀ x, x ∈ filelist z → header_offset x < start_dir z).
Proof.
  split.
  { intros w w' Hr%init_returns. by apply RealGetContents_parsed in Hr. }
  intros z z' order. split_and!.
  - apply sweep_keeps.
  - apply sweep_length.
  - apply sorted_filelist_perm.
  - intros k m i j x y. apply sorted_filelist_descending.
  - apply sweep_first.
  - intros k j i xj xi Hj Hi Hxj Hxi.
    destruct (sweep_next z k j i xi Hj Hi Hxi) as (xm & Hxm & He).
    congruence.
  - apply sweep_disjoint.
  - apply sweep_strict.
Qed.

End accepted_archive.

Lemma accepted_archive_end_offsets_witness :
  ZipFile.__init__ (file_of two_entries, new_ZipFile)
    = Return () (opened two_entries)
  ∧ (∃ fuel concat size_cd bio f start w1,
       ZipFile.read_directory fuel concat size_cd 0 bio
         (f, ZipFile.set_start_dir start fresh_ZipFile) = Return () w1
       ∧ (opened two_entries).2 = ZipFile.sweep w1.2)
  ∧ (opened two_entries).2 = ZipFile.sweep (unswept two_entries)
  ∧ NoDup (header_offset <$> filelist (unswept two_entries))
  ∧ (∀ x, x ∈ filelist (unswept two_entries) →
          header_offset x < start_dir (unswept two_entries))
  ∧ ∀ x e, x ∈ filelist (ZipFile.sweep (unswept two_entries)) →
           _end_offset x = Some e → header_offset x < e.
Proof.
  assert (ZipFile.__init__ (file_of two_entries, new_ZipFile)
          = Return () (opened two_entries)) as Hi
    by (vm_compute; reflexivity).
  assert ((opened two_entries).2 = ZipFile.sweep (unswept two_entries))
    as Hz by (vm_compute; reflexivity).
  assert (NoDup (header_offset <$> filelist (unswept two_entries))) as Hnd
    by (apply (bool_decide_unpack _); vm_compute; reflexivity).
  assert (∀ x, x ∈ filelist (unswept two_entries) →
               header_offset x < start_dir (unswept two_entries)) as Hlt
    by (apply Forall_forall, (bool_decide_unpack _); vm_compute; reflexivity).
  destruct accepted_archive_end_offsets as [Hsweep Hz'].
  destruct (Hz' (unswept two_entries)) as (_ & _ & _ & _ & _ & _ & _ & Hiff).
  exact (conj Hi (conj (Hsweep _ _ Hi) (conj Hz (conj Hnd (conj Hlt
           (proj2 Hiff (conj Hnd Hlt))))))).
Defined.

(** Claim C1 as stated fails: [ZipFile(file)] accepts [shared_offset],
    whose directory gives header offset 0 to both entries; [a.txt],
    first in the order of the sweep, ends where the directory starts,
    and [b.txt] ends at 0, its own header offset. *)
Lemma end_offset_at_header_offset :
  raised (ZipFile.__init__ (file_of shared_offset, new_ZipFile)) = None
  ∧ (λ x, (filename x, header_offset x, _end_offset x))
      <$> filelist (opened shared_offset).2
    = [(a_txt, 0, Some 82); (b_txt, 0, Some 0)].
Proof. split; vm_compute; reflexivity. Qed.
